(** * wiki.pages: content cache, front-matter parser and search index

    A shallow embedding of the client-side services of the wiki
    (assets/js/editor.js: ContentService; assets/js/search.js: SearchService;
    assets/js/app.js: App.parseFrontMatter) together with the properties the
    specification states about them.

    JavaScript strings are modelled as [string] (one [ascii] per code unit,
    i.e. the Latin-1 range of UTF-16), JavaScript [Map]s and objects used as
    dictionaries as [gmap string _], timestamps ([Date.now()]) as [Z], and
    the interaction with the browser (clock, [fetch], the [window.wikiApp]
    collaborators) as an inductive tree of requests and continuations. *)

From Stdlib Require Import String Ascii List ZArith Lia Bool Sorted.
From stdpp Require Import gmap strings list fin_maps.

Local Open Scope Z_scope.

#[local] Arguments String.append !s1 s2 : simpl nomatch.
#[local] Set Warnings "-register-all".

(** ** JavaScript string primitives *)

Module JsString.

(** [s.startsWith(p)] *)
Fixpoint startsWith (s p : string) {struct p} : bool :=
  match p, s with
  | EmptyString, _ => true
  | String a p', String b s' => Ascii.eqb a b && startsWith s' p'
  | String _ _, EmptyString => false
  end.

(** [s.endsWith(p)]: some suffix of [s] is [p]. *)
Fixpoint endsWith (s p : string) : bool :=
  String.eqb s p ||
  match s with
  | EmptyString => false
  | String _ s' => endsWith s' p
  end.

(** [s.includes(p)]: [p] starts at some position of [s]. *)
Fixpoint includes (s p : string) : bool :=
  startsWith s p ||
  match s with
  | EmptyString => false
  | String _ s' => includes s' p
  end.

(** Truthiness of a string: every string but the empty one. *)
Definition truthy (s : string) : bool :=
  match s with EmptyString => false | String _ _ => true end.

Definition isSlash (c : ascii) : bool := Ascii.eqb c "/".

End JsString.

(** ** ContentService.normalizePath (assets/js/editor.js) *)

Module Path.
Import JsString.

(** The alternative [^\/+] of the pattern: the leading run of slashes. *)
Fixpoint stripLeadingSlashes (s : string) : string :=
  match s with
  | String c s' => if isSlash c then stripLeadingSlashes s' else s
  | EmptyString => EmptyString
  end.

(** The alternative [\/+$] of the pattern: the trailing run of slashes. *)
Fixpoint stripTrailingSlashes (s : string) : string :=
  match s with
  | EmptyString => EmptyString
  | String c s' =>
      match stripTrailingSlashes s' with
      | EmptyString => if isSlash c then EmptyString else String c EmptyString
      | r => String c r
      end
  end.

(** [path.replace(/^\/+|\/+$/g, '')] *)
Definition stripSlashes (path : string) : string :=
  stripTrailingSlashes (stripLeadingSlashes path).

(** [normalizePath(path)] *)
Definition normalizePath (path : string) : string :=
  let path := stripSlashes path in
  if truthy path && negb (endsWith path "/") && negb (includes path ".")
  then path +:+ ".md"
  else path.

End Path.

(** ** JavaScript values, errors and results *)

Module Js.

(** The values a parsed JSON body, or a property read from it, can be. *)
Inductive JsValue : Type :=
| JUndefined
| JNull
| JBool (b : bool)
| JNum (n : Z)
| JStr (s : string)
| JArr (items : list JsValue)
| JObj (fields : list (string * JsValue)).

(** ToBoolean. *)
Definition truthy (v : JsValue) : bool :=
  match v with
  | JUndefined | JNull => false
  | JBool b => b
  | JNum n => negb (n =? 0)
  | JStr s => JsString.truthy s
  | JArr _ | JObj _ => true
  end.

(** The errors the services raise or let through. *)
Inductive JsError : Type :=
| NotConfigured                           (* 'Content repository is not configured' *)
| NotAuthenticated                        (* 'User is not authenticated' *)
| GitHubApiError (status : Z) (detail : option JsValue)
                                          (* `GitHub API error: ${status}[ - ${message}]` *)
| ContentUnavailable                      (* 'Wiki app content service not available' *)
| FetchRejected (reason : string)         (* the promise of fetch() rejected *)
| SyntaxError                             (* response.json() on a body that is not JSON *)
| TypeError (what : string)
| InvalidCharacterError                   (* btoa() on a code unit above 255 *)
| OutOfFuel                               (* no JavaScript error: the depth bound of the
                                             model of indexDirectory was reached *).

Inductive Result (A : Type) : Type :=
| Return (a : A)
| Throw (e : JsError).
Arguments Return {A} a.
Arguments Throw {A} e.

Fixpoint assoc (k : string) (fields : list (string * JsValue)) : JsValue :=
  match fields with
  | [] => JUndefined
  | (k', v) :: rest => if String.eqb k k' then v else assoc k rest
  end.

(** [v.k] for the property names read here ([sha], [message]): a property
    of [null] or [undefined] raises, an object yields its field, anything
    else has no such property. *)
Definition getProp (v : JsValue) (k : string) : Result JsValue :=
  match v with
  | JUndefined | JNull => Throw (TypeError k)
  | JObj fields => Return (assoc k fields)
  | _ => Return JUndefined
  end.

(** Truthiness of a value that is a string or [null]. *)
Definition truthyStr (o : option string) : bool :=
  match o with
  | Some s => JsString.truthy s
  | None => false
  end.

End Js.

(** ** The browser environment

    A service method is a tree: it either returns, or asks the environment
    something and continues with the answer. The questions are the ambient
    reads and calls of the source: [Date.now()], [window.wikiApp.config],
    [window.wikiApp.auth.getToken()], [fetch(url, init)] and, for the search
    service, the calls into [window.wikiApp.content]. *)

Module Browser.
Import Js.

Record Config : Type := { contentRepo : string; defaultBranch : string }.

Inductive Method : Type := GET | PUT.

(** The content handed to [saveFile], a JavaScript string of any code
    units: a text whose code units are all below 256, which is what the
    model writes as a [string], or a text with a code unit above 255, given
    by the text before the first such unit, that unit as [255 + unit], and
    the code units after it. *)
Inductive FileContent : Type :=
| Latin1 (text : string)
| Wide (before : string) (unit : positive) (after : list N).

(** The Base64 encoding of a text, kept symbolic. *)
Inductive Base64 : Type := base64 (s : string).

(** [btoa(content)]: an [InvalidCharacterError] when the content has a
    code unit above 255. *)
Definition btoa (content : FileContent) : Result Base64 :=
  match content with
  | Latin1 text => Return (base64 text)
  | Wide _ _ _ => Throw InvalidCharacterError
  end.

(** The object handed to [JSON.stringify] for the body of a write. A field
    that was never assigned is absent from the serialised body. *)
Record WriteBody : Type := {
  wb_message : string;
  wb_content : Base64;
  wb_branch : string;
  wb_sha : option JsValue
}.

Record Request : Type := {
  url : string;
  method : Method;
  headers : list (string * string);
  body : option WriteBody
}.

Record Response : Type := {
  status : Z;
  text : Result string;      (* what response.text() resolves to, or its rejection *)
  json : Result JsValue      (* what response.json() resolves to, or its rejection *)
}.

(** [response.ok] *)
Definition ok (r : Response) : bool := (200 <=? status r) && (status r <=? 299).

Inductive FetchOutcome : Type :=
| Rejected (reason : string)
| Resolved (r : Response).

(** An entry of a directory listing. *)
Record Item : Type := { name : string; path : string; type : string }.

Inductive Prog (A : Type) : Type :=
| Ret (a : A)
| DateNow (k : Z -> Prog A)
| WikiConfig (k : option Config -> Prog A)
| AuthGetToken (k : option string -> Prog A)
| Fetch (req : Request) (k : FetchOutcome -> Prog A)
| ContentAvailable (k : bool -> Prog A)
| ContentGetFile (p : string) (k : Result (option string) -> Prog A)
| ContentGetDirectoryContents (p : string) (k : Result (list Item) -> Prog A).
Arguments Ret {A} a.
Arguments DateNow {A} k.
Arguments WikiConfig {A} k.
Arguments AuthGetToken {A} k.
Arguments Fetch {A} req k.
Arguments ContentAvailable {A} k.
Arguments ContentGetFile {A} p k.
Arguments ContentGetDirectoryContents {A} p k.

Fixpoint pbind {A B : Type} (m : Prog A) (f : A -> Prog B) : Prog B :=
  match m with
  | Ret a => f a
  | DateNow k => DateNow (fun t => pbind (k t) f)
  | WikiConfig k => WikiConfig (fun c => pbind (k c) f)
  | AuthGetToken k => AuthGetToken (fun t => pbind (k t) f)
  | Fetch req k => Fetch req (fun o => pbind (k o) f)
  | ContentAvailable k => ContentAvailable (fun b => pbind (k b) f)
  | ContentGetFile p k => ContentGetFile p (fun r => pbind (k r) f)
  | ContentGetDirectoryContents p k =>
      ContentGetDirectoryContents p (fun r => pbind (k r) f)
  end.

(** One question together with the answer the environment gave. *)
Inductive Event : Type :=
| EvNow (t : Z)
| EvConfig (c : option Config)
| EvToken (t : option string)
| EvFetch (req : Request) (out : FetchOutcome)
| EvContent (available : bool)
| EvGetFile (p : string) (r : Result (option string))
| EvGetDir (p : string) (r : Result (list Item)).

(** [exec m tr a]: against an environment answering as recorded in [tr],
    [m] asks exactly the questions of [tr], in that order, and returns [a]. *)
Fixpoint exec {A : Type} (m : Prog A) (tr : list Event) (a : A) : Prop :=
  match m with
  | Ret x => tr = [] /\ a = x
  | DateNow k => exists t tr', tr = EvNow t :: tr' /\ exec (k t) tr' a
  | WikiConfig k => exists c tr', tr = EvConfig c :: tr' /\ exec (k c) tr' a
  | AuthGetToken k => exists t tr', tr = EvToken t :: tr' /\ exec (k t) tr' a
  | Fetch req k => exists o tr', tr = EvFetch req o :: tr' /\ exec (k o) tr' a
  | ContentAvailable k => exists b tr', tr = EvContent b :: tr' /\ exec (k b) tr' a
  | ContentGetFile p k => exists r tr', tr = EvGetFile p r :: tr' /\ exec (k r) tr' a
  | ContentGetDirectoryContents p k =>
      exists r tr', tr = EvGetDir p r :: tr' /\ exec (k r) tr' a
  end.

(** The network requests of a run, in order. *)
Fixpoint fetches (tr : list Event) : list (Request * FetchOutcome) :=
  match tr with
  | [] => []
  | EvFetch req out :: tr' => (req, out) :: fetches tr'
  | _ :: tr' => fetches tr'
  end.

(** The readings of the clock in a run, in order. *)
Fixpoint clockReads (tr : list Event) : list Z :=
  match tr with
  | [] => []
  | EvNow t :: tr' => t :: clockReads tr'
  | _ :: tr' => clockReads tr'
  end.

Definition logged {A : Type} (ev : Event) (o : option (A * list Event))
    : option (A * list Event) :=
  match o with
  | Some (a, tr) => Some (a, ev :: tr)
  | None => None
  end.

(** The same semantics as a function: [run m script] answers the questions
    of [m] from [script], one entry per question, and returns the result
    with the log of the questions actually asked. *)
Fixpoint run {A : Type} (m : Prog A) (script : list Event) : option (A * list Event) :=
  match m, script with
  | Ret a, [] => Some (a, [])
  | DateNow k, EvNow t :: rest => logged (EvNow t) (run (k t) rest)
  | WikiConfig k, EvConfig c :: rest => logged (EvConfig c) (run (k c) rest)
  | AuthGetToken k, EvToken t :: rest => logged (EvToken t) (run (k t) rest)
  | Fetch req k, EvFetch _ o :: rest => logged (EvFetch req o) (run (k o) rest)
  | ContentAvailable k, EvContent b :: rest => logged (EvContent b) (run (k b) rest)
  | ContentGetFile p k, EvGetFile _ r :: rest => logged (EvGetFile p r) (run (k r) rest)
  | ContentGetDirectoryContents p k, EvGetDir _ r :: rest =>
      logged (EvGetDir p r) (run (k r) rest)
  | _, _ => None
  end.

(** *** Methods: state of the service object, exceptions, environment *)

Definition M (S A : Type) : Type := S -> Prog (Result A * S).

Definition ret {S A} (a : A) : M S A := fun s => Ret (Return a, s).

Definition throw {S A} (e : JsError) : M S A := fun s => Ret (Throw e, s).

Definition bind {S A B} (m : M S A) (f : A -> M S B) : M S B :=
  fun s => pbind (m s) (fun '(r, s') =>
    match r with
    | Return a => f a s'
    | Throw e => Ret (Throw e, s')
    end).

(** [try { m } catch (error) { handler error }] *)
Definition tryCatch {S A} (m : M S A) (handler : JsError -> M S A) : M S A :=
  fun s => pbind (m s) (fun '(r, s') =>
    match r with
    | Return a => Ret (Return a, s')
    | Throw e => handler e s'
    end).

Definition get {S} : M S S := fun s => Ret (Return s, s).

Definition modify {S} (f : S -> S) : M S unit := fun s => Ret (Return tt, f s).

(** Lifting a result: a [Throw] is raised. *)
Definition liftResult {S A} (r : Result A) : M S A := fun s => Ret (r, s).

Definition dateNow {S} : M S Z := fun s => DateNow (fun t => Ret (Return t, s)).

Definition wikiConfig {S} : M S (option Config) :=
  fun s => WikiConfig (fun c => Ret (Return c, s)).

Definition authGetToken {S} : M S (option string) :=
  fun s => AuthGetToken (fun t => Ret (Return t, s)).

(** [await fetch(url, init)]: a rejected promise is raised at the [await]. *)
Definition fetch {S} (req : Request) : M S Response :=
  fun s => Fetch req (fun o =>
    match o with
    | Resolved r => Ret (Return r, s)
    | Rejected reason => Ret (Throw (FetchRejected reason), s)
    end).

Definition contentAvailable {S} : M S bool :=
  fun s => ContentAvailable (fun b => Ret (Return b, s)).

Definition contentGetFile {S} (p : string) : M S (option string) :=
  fun s => ContentGetFile p (fun r => Ret (r, s)).

Definition contentGetDirectoryContents {S} (p : string) : M S (list Item) :=
  fun s => ContentGetDirectoryContents p (fun r => Ret (r, s)).

End Browser.

Declare Scope js_scope.
Delimit Scope js_scope with js.
Notation "x <- m ;; k" := (Browser.bind m (fun x => k))
  (at level 100, m at next level, right associativity) : js_scope.
Notation "m ;;; k" := (Browser.bind m (fun _ => k))
  (at level 100, right associativity) : js_scope.

(** ** ContentService (assets/js/editor.js) *)

Module ContentService.
Import Js Browser Path.
Local Open Scope js_scope.

(** A value of [this.cache]. *)
Record CacheEntry : Type := { content : string; timestamp : Z }.

(** [this.cache = new Map()]; the state of the service is its cache. *)
Abbreviation Cache := (gmap string CacheEntry).

(** [this.cacheTTL = 5 * 60 * 1000] *)
Definition cacheTTL : Z := 5 * 60 * 1000.

Definition defaultConfig : Config := {| contentRepo := ""; defaultBranch := "main" |}.

(** [getConfig()] *)
Definition getConfig : M Cache Config :=
  c <- wikiConfig ;;
  ret (match c with Some config => config | None => defaultConfig end).

(** [getAuthToken()] *)
Definition getAuthToken : M Cache (option string) := authGetToken.

(** [getApiUrl(path)] *)
Definition getApiUrl (path : string) : M Cache string :=
  config <- getConfig ;;
  if negb (JsString.truthy (contentRepo config))
  then throw NotConfigured
  else ret ("https://api.github.com/repos/" +:+ contentRepo config +:+ "/contents/"
            +:+ path +:+ "?ref=" +:+ defaultBranch config).

(** [addToCache(path, content)] *)
Definition addToCache (path content : string) : M Cache unit :=
  now <- dateNow ;;
  modify (fun cache : Cache => <[path := {| content := content; timestamp := now |}]> cache).

(** [getFromCache(path)] *)
Definition getFromCache (path : string) : M Cache (option string) :=
  cache <- get ;;
  match (cache : Cache) !! path with
  | None => ret None
  | Some cached =>
      now <- dateNow ;;
      if now - timestamp cached >? cacheTTL
      then modify (fun cache : Cache => delete path cache) ;;; ret None
      else ret (Some (content cached))
  end.

(** [clearCache()] *)
Definition clearCache : M Cache unit := modify (fun _ : Cache => ∅).

Definition authorization (token : string) : string * string :=
  ("Authorization", "token " +:+ token).

(** [getFile(path)] *)
Definition getFile (path : string) : M Cache (option string) :=
  let path := normalizePath path in
  cachedContent <- getFromCache path ;;
  if truthyStr cachedContent then ret cachedContent
  else
    tryCatch
      (url <- getApiUrl path ;;
       token <- getAuthToken ;;
       let headers :=
         ("Accept", "application/vnd.github.v3.raw") ::
         match token with
         | Some t => if JsString.truthy t then [authorization t] else []
         | None => []
         end in
       response <- fetch {| url := url; method := GET; headers := headers; body := None |} ;;
       if negb (ok response) then
         if status response =? 404 then ret None
         else throw (GitHubApiError (status response) None)
       else
         content <- liftResult (text response) ;;
         addToCache path content ;;;
         ret (Some content))
      (fun error => throw error).

(** [saveFile(path, content, message)]. The cache holds texts of code
    units below 256; [addToCache(path, content)] is reached only past
    [btoa(content)], where the content is such a text. *)
Definition saveFile (path : string) (content : FileContent) (message : string)
    : M Cache JsValue :=
  let path := normalizePath path in
  token <- getAuthToken ;;
  match token with
  | None => throw NotAuthenticated
  | Some token =>
    if negb (JsString.truthy token) then throw NotAuthenticated
    else
      tryCatch
        (config <- getConfig ;;
         url <- getApiUrl path ;;
         sha <- tryCatch
                  (fileResponse <- fetch {| url := url; method := GET;
                                            headers := [authorization token];
                                            body := None |} ;;
                   if ok fileResponse then
                     fileData <- liftResult (json fileResponse) ;;
                     liftResult (getProp fileData "sha")
                   else ret JNull)
                  (fun _ => ret JNull) ;;
         encoded <- liftResult (btoa content) ;;
         let requestBody :=
           {| wb_message := message;
              wb_content := encoded;
              wb_branch := defaultBranch config;
              wb_sha := if truthy sha then Some sha else None |} in
         response <- fetch {| url := url; method := PUT;
                              headers := [authorization token;
                                          ("Content-Type", "application/json")];
                              body := Some requestBody |} ;;
         if negb (ok response) then
           errorData <- liftResult (json response) ;;
           message <- liftResult (getProp errorData "message") ;;
           throw (GitHubApiError (status response) (Some message))
         else
           responseData <- liftResult (json response) ;;
           match content with
           | Latin1 text => addToCache path text ;;; ret responseData
           | Wide _ _ _ => throw InvalidCharacterError   (* not reached: btoa threw *)
           end)
        (fun error => throw error)
  end.

End ContentService.

(** ** Text primitives: character classes, case mapping, splitting *)

Module Text.
Import JsString.

Definition code (c : ascii) : nat := nat_of_ascii c.

Definition between (lo hi : nat) (c : ascii) : bool :=
  Nat.leb lo (code c) && Nat.leb (code c) hi.

(** [\w]: [A-Za-z0-9_] *)
Definition isWordChar (c : ascii) : bool :=
  between 97 122 c || between 65 90 c || between 48 57 c || Ascii.eqb c "_".

(** [\s] and [trim()]: tab, line feed, vertical tab, form feed, carriage
    return, space and the no-break space. *)
Definition isSpace (c : ascii) : bool :=
  between 9 13 c || Ascii.eqb c " " || Nat.eqb (code c) 160.

(** Line terminators, which [.] does not match and [^], [$] with the [m]
    flag stop at. *)
Definition isLineTerminator (c : ascii) : bool :=
  Nat.eqb (code c) 10 || Nat.eqb (code c) 13.

(** [toLowerCase()] on one code unit: A-Z and the Latin-1 capitals. *)
Definition toLowerChar (c : ascii) : ascii :=
  if between 65 90 c || (between 192 222 c && negb (Nat.eqb (code c) 215))
  then ascii_of_nat (code c + 32)
  else c.

(** [toUpperCase()] on a character matched by [\w]. *)
Definition toUpperWordChar (c : ascii) : ascii :=
  if between 97 122 c then ascii_of_nat (code c - 32) else c.

Fixpoint mapChars (f : ascii -> ascii) (s : string) : string :=
  match s with
  | EmptyString => EmptyString
  | String c s' => String (f c) (mapChars f s')
  end.

(** [s.toLowerCase()] *)
Definition toLowerCase (s : string) : string := mapChars toLowerChar s.

(** The line feed, and text made of lines. *)
Definition LF : ascii := "010"%char.
Definition nl : string := String LF EmptyString.

(** [s.substring(n)]: without the first [n] characters. *)
Fixpoint drop (n : nat) (s : string) : string :=
  match n, s with
  | O, _ => s
  | S n', String _ s' => drop n' s'
  | S _, EmptyString => EmptyString
  end.

(** [s.substring(0, n)]: the first [n] characters. *)
Fixpoint take (n : nat) (s : string) : string :=
  match n, s with
  | S n', String c s' => String c (take n' s')
  | _, _ => EmptyString
  end.

(** The text before and after the first occurrence of [sep]. *)
Fixpoint splitAtFirst (sep s : string) : option (string * string) :=
  if startsWith s sep then Some (EmptyString, drop (String.length sep) s)
  else match s with
       | EmptyString => None
       | String c s' =>
           match splitAtFirst sep s' with
           | Some (before, after) => Some (String c before, after)
           | None => None
           end
       end.

(** [s.split(c)] for a one-character separator: never empty. *)
Fixpoint splitChar (sep : ascii -> bool) (s : string) : list string :=
  match s with
  | EmptyString => [EmptyString]
  | String c s' =>
      if sep c then EmptyString :: splitChar sep s'
      else match splitChar sep s' with
           | piece :: rest => String c piece :: rest
           | [] => [String c EmptyString]
           end
  end.

(** [s.split(/\s+/)]: the pieces between maximal runs of white space. *)
Fixpoint splitSpaces (s : string) : list string :=
  match s with
  | EmptyString => [EmptyString]
  | String c s' =>
      if isSpace c then
        match s' with
        | String d _ => if isSpace d then splitSpaces s' else EmptyString :: splitSpaces s'
        | EmptyString => EmptyString :: splitSpaces s'
        end
      else match splitSpaces s' with
           | piece :: rest => String c piece :: rest
           | [] => [String c EmptyString]
           end
  end.

(** [parts.join(sep)] *)
Fixpoint join (sep : string) (parts : list string) : string :=
  match parts with
  | [] => EmptyString
  | [p] => p
  | p :: rest => p +:+ sep +:+ join sep rest
  end.

Fixpoint trimStart (s : string) : string :=
  match s with
  | String c s' => if isSpace c then trimStart s' else s
  | EmptyString => EmptyString
  end.

Fixpoint trimEnd (s : string) : string :=
  match s with
  | EmptyString => EmptyString
  | String c s' =>
      match trimEnd s' with
      | EmptyString => if isSpace c then EmptyString else String c EmptyString
      | r => String c r
      end
  end.

(** [s.trim()] *)
Definition trim (s : string) : string := trimEnd (trimStart s).

(** [s.slice(1, -1)] *)
Definition sliceInner (s : string) : string :=
  take (String.length s - 2) (drop 1 s).

(** [new Set(words)] in iteration order: first occurrences. *)
Fixpoint dedupe (seen words : list string) : list string :=
  match words with
  | [] => []
  | w :: rest =>
      if existsb (String.eqb w) seen then dedupe seen rest
      else w :: dedupe (w :: seen) rest
  end.

(** [(text.match(new RegExp(term, 'g')) || []).length] for a pattern
    without metacharacters: the occurrences of [term] found from left to
    right, each search resuming after the previous match. [skip] counts
    the characters of the current match still to pass. *)
Fixpoint countFrom (term : string) (skip : nat) (text : string) : nat :=
  match text with
  | EmptyString => O
  | String _ text' =>
      match skip with
      | S k => countFrom term k text'
      | O => if startsWith text term
             then S (countFrom term (String.length term - 1) text')
             else countFrom term O text'
      end
  end.

Definition countMatches (term text : string) : nat := countFrom term O text.

(** Case-insensitive comparison with a pattern character that is a lower
    case letter, a digit or an underscore. *)
Fixpoint startsWithCI (s p : string) {struct p} : bool :=
  match p, s with
  | EmptyString, _ => true
  | String a p', String b s' =>
      Ascii.eqb a (if between 65 90 b then toLowerChar b else b) && startsWithCI s' p'
  | String _ _, EmptyString => false
  end.

(** [text.replace(new RegExp(term, 'gi'), match => `<mark>${match}</mark>`)] *)
Fixpoint markFrom (term : string) (skip : nat) (text : string) : string :=
  match text with
  | EmptyString => EmptyString
  | String c text' =>
      match skip with
      | S O => String c ("</mark>" +:+ markFrom term O text')
      | S k => String c (markFrom term k text')
      | O => if startsWithCI text term
             then "<mark>" +:+
                  match String.length term with
                  | S O => String c ("</mark>" +:+ markFrom term O text')
                  | n => String c (markFrom term (n - 1) text')
                  end
             else String c (markFrom term O text')
      end
  end.

Definition mark (term text : string) : string := markFrom term O text.

End Text.

(** ** Front matter (assets/js/app.js, search.js and editor.js carry the same
    [parseFrontMatter]) *)

Module FrontMatter.
Import JsString Text.

(** A value of the metadata object: a string, or the list of an array. *)
Inductive Value : Type :=
| Str (s : string)
| Arr (items : list string).

Abbreviation Metadata := (gmap string Value).

(** What [parseFrontMatter] returns: [{ metadata, content }], or
    [{ content }] with no [metadata] property. *)
Record Parsed : Type := { metadata : option Metadata; content : string }.

Definition opening : string := "---" +:+ nl.
Definition closing : string := nl +:+ "---" +:+ nl.

(** [content.match(frontMatterRegex)]: groups 1 and 2 of the pattern
    "^---\n", a lazy run of any characters, "\n---\n", any characters to
    the end. The lazy group ends at the first closing line. *)
Definition matchFrontMatter (content : string) : option (string * string) :=
  if startsWith content opening
  then splitAtFirst closing (drop (String.length opening) content)
  else None.

Definition isColon (c : ascii) : bool := Ascii.eqb c ":".
Definition isComma (c : ascii) : bool := Ascii.eqb c ",".
Definition isLF (c : ascii) : bool := Ascii.eqb c LF.

(** The body of the [forEach] over the lines. An assignment to
    [metadata['__proto__']] creates no property. *)
Definition parseLine (metadata : Metadata) (line : string) : Metadata :=
  match splitChar isColon line with
  | first :: (_ :: _) as rest =>
      let key := trim first in
      let value := trim (join ":" rest) in
      let parsed :=
        if startsWith value "[" && endsWith value "]"
        then Arr (map trim (splitChar isComma (sliceInner value)))
        else Str value in
      if String.eqb key "__proto__" then metadata else <[key := parsed]> metadata
  | _ => metadata
  end.

(** [parseFrontMatter(content)] *)
Definition parseFrontMatter (content : string) : Parsed :=
  match matchFrontMatter content with
  | Some (yamlText, rest) =>
      {| metadata := Some (fold_left parseLine (splitChar isLF yamlText) ∅);
         content := rest |}
  | None => {| metadata := None; content := content |}
  end.

End FrontMatter.

(** ** SearchService (assets/js/search.js) *)

Module SearchService.
Import Js Browser JsString Text FrontMatter.
Local Open Scope js_scope.

(** The document object built by [indexFile]. Its title is the [title] of
    the front matter when that is truthy, hence possibly an array. *)
Record Doc : Type := {
  doc_path : string;
  doc_title : Value;
  doc_content : string;
  doc_metadata : option Metadata
}.

(** [this.searchIndex] once it is an object: token to posting list. *)
Abbreviation Index := (gmap string (list Doc)).

Record State : Type := {
  searchIndex : option Index;        (* null until initSearchIndex *)
  isIndexing : bool;
  indexedFiles : gset string
}.

(** [new SearchService()] *)
Definition initial : State :=
  {| searchIndex := None; isIndexing := false; indexedFiles := ∅ |}.

(** The property names every object inherits from [Object.prototype]:
    read on an object literal used as a dictionary, they yield a function
    (or the prototype), not [undefined]. *)
Definition inheritedKey (k : string) : bool :=
  existsb (String.eqb k)
    ["constructor"; "__proto__"; "__defineGetter__"; "__defineSetter__";
     "__lookupGetter__"; "__lookupSetter__"; "hasOwnProperty"; "isPrototypeOf";
     "propertyIsEnumerable"; "toLocaleString"; "toString"; "valueOf"].

(** [.replace(/[^\w\s]/g, ' ')] *)
Definition blankSpecial (c : ascii) : ascii :=
  if isWordChar c || isSpace c then c else " "%char.

(** The words of [tokenize] and of the query: lower case, special
    characters blanked, split at white space, short words dropped. *)
Definition words (content : string) : list string :=
  List.filter (fun word => truthy word && Nat.ltb 2 (String.length word))
         (splitSpaces (mapChars blankSpecial (toLowerCase content))).

(** [tokenize(content)]: the set of words, in iteration order. *)
Definition tokenize (content : string) : list string := dedupe [] (words content).

(** The lines [^] and [$] delimit under the [m] flag. *)
Definition lines (content : string) : list string := splitChar isLineTerminator content.

(** [content.match(/^# (.+)$/m)]: group 1 of the first heading line. *)
Definition firstHeading (content : string) : option string :=
  match List.filter (fun line => startsWith line "# " && Nat.ltb 2 (String.length line))
               (lines content) with
  | line :: _ => Some (drop 2 line)
  | [] => None
  end.

(** [s.replace('.md', '')]: the first occurrence only. *)
Definition removeFirstMd (s : string) : string :=
  match splitAtFirst ".md" s with
  | Some (before, after) => before +:+ after
  | None => s
  end.

(** [.replace(/\b\w/g, c => c.toUpperCase())]: [prevWord] tells whether
    the previous character is a word character. *)
Fixpoint capitalize (prevWord : bool) (s : string) : string :=
  match s with
  | EmptyString => EmptyString
  | String c s' =>
      String (if isWordChar c && negb prevWord then toUpperWordChar c else c)
             (capitalize (isWordChar c) s')
  end.

Definition dashToSpace (c : ascii) : ascii :=
  if Ascii.eqb c "-" || Ascii.eqb c "_" then " "%char else c.

(** [getFileTitle(path, content)] *)
Definition getFileTitle (path content : string) : string :=
  match firstHeading content with
  | Some title => title
  | None =>
      let segments := splitChar isSlash path in
      let fileName := removeFirstMd (List.last segments EmptyString) in
      capitalize false (mapChars dashToSpace fileName)
  end.

(** [metadata?.title || this.getFileTitle(path, cleanContent)] *)
Definition titleOf (metadata : option Metadata) (path cleanContent : string) : Value :=
  match metadata with
  | Some m =>
      match m !! "title" with
      | Some (Str s) => if truthy s then Str s else Str (getFileTitle path cleanContent)
      | Some (Arr items) => Arr items
      | None => Str (getFileTitle path cleanContent)
      end
  | None => Str (getFileTitle path cleanContent)
  end.

(** [forEach]/[for ... of] over a list: stops at the first exception. *)
Fixpoint forEach {S A} (items : list A) (body : A -> M S unit) : M S unit :=
  match items with
  | [] => ret tt
  | item :: rest => body item ;;; forEach rest body
  end.

Definition setIndex (index : Index) (s : State) : State :=
  {| searchIndex := Some index; isIndexing := isIndexing s; indexedFiles := indexedFiles s |}.

Definition setIndexing (b : bool) (s : State) : State :=
  {| searchIndex := searchIndex s; isIndexing := b; indexedFiles := indexedFiles s |}.

Definition markIndexed (path : string) (s : State) : State :=
  {| searchIndex := searchIndex s; isIndexing := isIndexing s;
     indexedFiles := {[path]} ∪ indexedFiles s |}.

(** The body of the loop over the tokens in [indexFile]. Where the index
    has no property [token] of its own, an inherited name reads as a
    function, which is truthy and has no [some]; any other name reads as
    [undefined] and gets a fresh array. *)
Definition postToken (doc : Doc) (token : string) : M State unit :=
  s <- get ;;
  match searchIndex s with
  | None => throw (TypeError "searchIndex")
  | Some index =>
      match index !! token with
      | None =>
          if inheritedKey token then throw (TypeError "some")
          else modify (setIndex (<[token := [doc]]> index))
      | Some postings =>
          let isAlreadyIndexed :=
            existsb (fun item => String.eqb (doc_path item) (doc_path doc)) postings in
          if isAlreadyIndexed then ret tt
          else modify (setIndex (<[token := postings ++ [doc]]> index))
      end
  end.

(** [indexFile(path)] *)
Definition indexFile (path : string) : M State unit :=
  s <- get ;;
  if decide (path ∈ indexedFiles s) then ret tt
  else
    tryCatch
      (content <- contentGetFile path ;;
       match content with
       | None => ret tt
       | Some content =>
         if negb (truthy content) then ret tt
         else
           let parsed := parseFrontMatter content in
           let cleanContent := FrontMatter.content parsed in
           let metadata := FrontMatter.metadata parsed in
           let doc := {| doc_path := path;
                         doc_title := titleOf metadata path cleanContent;
                         doc_content := cleanContent;
                         doc_metadata := metadata |} in
           let tokens := tokenize cleanContent in
           forEach tokens (postToken doc) ;;;
           modify (markIndexed path)
       end)
      (fun _ => ret tt).

Definition isSpecialFile (item : Item) : bool :=
  String.eqb (name item) ".wiki-config.json" || String.eqb (name item) "sidebar.md".

Definition isDirectory (item : Item) : bool := String.eqb (type item) "dir".

Definition isMarkdownFile (item : Item) : bool :=
  String.eqb (type item) "file" && endsWith (name item) ".md".

(** The body of [indexDirectory(path)], with the recursive call on a
    subdirectory as [recurse]. *)
Definition indexDirectoryBody (recurse : string -> M State unit) (path : string)
    : M State unit :=
  available <- contentAvailable ;;
  if negb available then throw ContentUnavailable
  else
    tryCatch
      (contents <- contentGetDirectoryContents path ;;
       forEach contents (fun item =>
         if isSpecialFile item then ret tt
         else if isDirectory item then recurse (Browser.path item)
         else if isMarkdownFile item then indexFile (Browser.path item)
         else ret tt))
      (fun error => throw error).

(** [indexDirectory(path)]. The recursion follows the listings the
    content service returns; [depth] bounds the nesting of directories,
    and a directory nested deeper ends the crawl with [OutOfFuel]. *)
Fixpoint indexDirectory (depth : nat) : string -> M State unit :=
  indexDirectoryBody
    match depth with
    | S depth' => indexDirectory depth'
    | O => fun _ => throw OutOfFuel
    end.

(** [initSearchIndex()], without its toasts. *)
Definition initSearchIndex (depth : nat) : M State unit :=
  s <- get ;;
  if match searchIndex s with Some _ => true | None => false end || isIndexing s
  then ret tt
  else
    modify (fun s => setIndex ∅ (setIndexing true s)) ;;;
    tryCatch (indexDirectory depth "") (fun _ => ret tt) ;;;
    modify (setIndexing false).

(** *** Searching *)

Record SearchResult : Type := {
  res_path : string;
  res_title : string;
  res_excerpt : string;
  res_score : nat
}.

(** The two accumulators of [searchInFiles]: [docScores], and
    [termResults] with its keys in insertion order. *)
Record Acc : Type := {
  docScores : gmap string nat;
  termResults : list (string * Doc)
}.

Definition hasKey (path : string) (l : list (string * Doc)) : bool :=
  existsb (fun '(p, _) => String.eqb p path) l.

(** The body of the inner loop, for one document of a posting list. A
    path that is an inherited property name reads as truthy in both
    objects: it never becomes a key of [termResults]. *)
Definition scoreDoc (term : string) (acc : Acc) (doc : Doc) : Result Acc :=
  let contentOccurrences := countMatches term (toLowerCase (doc_content doc)) in
  match doc_title doc with
  | Arr _ => Throw (TypeError "toLowerCase")
  | Str title =>
      let titleOccurrences := countMatches term (toLowerCase title) in
      let score := (contentOccurrences + titleOccurrences * 3)%nat in
      if inheritedKey (doc_path doc) then Return acc
      else
        let old := match docScores acc !! doc_path doc with Some n => n | None => O end in
        Return {| docScores := <[doc_path doc := (old + score)%nat]> (docScores acc);
                  termResults := if hasKey (doc_path doc) (termResults acc)
                                 then termResults acc
                                 else termResults acc ++ [(doc_path doc, doc)] |}
  end.

Fixpoint scoreDocs (term : string) (acc : Acc) (docs : list Doc) : Result Acc :=
  match docs with
  | [] => Return acc
  | doc :: rest =>
      match scoreDoc term acc doc with
      | Return acc' => scoreDocs term acc' rest
      | Throw e => Throw e
      end
  end.

(** [this.searchIndex[term] || []]: an inherited name the index does not
    define itself yields a function, which [for ... of] cannot iterate. *)
Definition matchesOf (index : Index) (term : string) : Result (list Doc) :=
  match index !! term with
  | Some postings => Return postings
  | None => if inheritedKey term then Throw (TypeError "matches") else Return []
  end.

(** The outer loop, over the query terms. *)
Fixpoint scoreTerms (index : Index) (acc : Acc) (terms : list string) : Result Acc :=
  match terms with
  | [] => Return acc
  | term :: rest =>
      match matchesOf index term with
      | Throw e => Throw e
      | Return matches =>
          match scoreDocs term acc matches with
          | Return acc' => scoreTerms index acc' rest
          | Throw e => Throw e
          end
      end
  end.

(** The value of a key that is a canonical array index, which
    [Object.keys] lists first, in ascending order. *)
Fixpoint digitsValue (acc : N) (s : string) : option N :=
  match s with
  | EmptyString => Some acc
  | String c s' =>
      if between 48 57 c
      then digitsValue (acc * 10 + N.of_nat (code c - 48))%N s'
      else None
  end.

Definition arrayIndex (k : string) : option N :=
  match k with
  | EmptyString => None
  | String c rest =>
      if Ascii.eqb c "0" && truthy rest then None
      else match digitsValue 0%N k with
           | Some n => if (n <? 4294967295)%N then Some n else None
           | None => None
           end
  end.

Fixpoint insertIndex (n : N) (k : string) (l : list (N * string)) : list (N * string) :=
  match l with
  | [] => [(n, k)]
  | (m, k') :: rest =>
      if (n <? m)%N then (n, k) :: l else (m, k') :: insertIndex n k rest
  end.

(** [Object.keys(termResults)] *)
Definition objectKeys (l : list (string * Doc)) : list string :=
  let keys := map fst l in
  let indices :=
    fold_right (fun k acc => match arrayIndex k with
                             | Some n => insertIndex n k acc
                             | None => acc
                             end) [] keys in
  map snd indices ++
  List.filter (fun k => match arrayIndex k with Some _ => false | None => true end) keys.

Fixpoint lookupDoc (path : string) (l : list (string * Doc)) : option Doc :=
  match l with
  | [] => None
  | (p, d) :: rest => if String.eqb p path then Some d else lookupDoc path rest
  end.

(** The excerpt: the first 200 characters, then every term marked, term
    after term. *)
Definition excerptOf (terms : list string) (content : string) : string :=
  fold_left (fun excerpt term => mark term excerpt) terms (take 200 content +:+ "...").

Definition titleString (v : Value) : string :=
  match v with
  | Str s => s
  | Arr items => join "," items
  end.

(** The callback of [Object.keys(termResults).map]. *)
Definition toResult (terms : list string) (acc : Acc) (path : string)
    : option SearchResult :=
  match lookupDoc path (termResults acc) with
  | Some doc =>
      Some {| res_path := path;
              res_title := titleString (doc_title doc);
              res_excerpt := excerptOf terms (doc_content doc);
              res_score := match docScores acc !! path with Some n => n | None => O end |}
  | None => None
  end.

(** [results.sort((a, b) => b.score - a.score)]: descending, stable. *)
Fixpoint insertByScore (r : SearchResult) (sorted : list SearchResult)
    : list SearchResult :=
  match sorted with
  | [] => [r]
  | r' :: rest =>
      if Nat.ltb (res_score r) (res_score r')
      then r' :: insertByScore r rest
      else r :: sorted
  end.

Definition sortByScore (results : list SearchResult) : list SearchResult :=
  fold_right insertByScore [] results.

(** [searchInFiles(query)] *)
Definition searchInFiles (query : string) (s : State) : Result (list SearchResult) :=
  match searchIndex s with
  | None => Return []
  | Some index =>
      let queryTerms := words query in
      match queryTerms with
      | [] => Return []
      | _ =>
          match scoreTerms index {| docScores := ∅; termResults := [] |} queryTerms with
          | Throw e => Throw e
          | Return acc =>
              Return (sortByScore
                        (omap (toResult queryTerms acc) (objectKeys (termResults acc))))
          end
      end
  end.

End SearchService.

(** ** ContentService: directory listings and history (assets/js/editor.js) *)

Module ContentListing.
Import Js Browser Path ContentService.
Local Open Scope js_scope.

(** The headers of a JSON request: [Accept], and [Authorization] when the
    token is truthy. *)
Definition jsonHeaders (token : option string) : list (string * string) :=
  ("Accept", "application/vnd.github.v3+json") ::
  match token with
  | Some t => if JsString.truthy t then [authorization t] else []
  | None => []
  end.

(** [Array.isArray(contents) ? contents : [contents]] *)
Definition asArray (contents : JsValue) : list JsValue :=
  match contents with
  | JArr items => items
  | other => [other]
  end.

(** [getDirectoryContents(path)] *)
Definition getDirectoryContents (path : string) : M Cache (list JsValue) :=
  let path := normalizePath path in
  tryCatch
    (url <- getApiUrl path ;;
     token <- getAuthToken ;;
     response <- fetch {| url := url; method := GET;
                          headers := jsonHeaders token; body := None |} ;;
     if negb (ok response) then
       if status response =? 404 then ret []
       else throw (GitHubApiError (status response) None)
     else
       contents <- liftResult (json response) ;;
       ret (asArray contents))
    (fun error => throw error).

(** The URL of the commits of a path. *)
Definition commitsUrl (config : Config) (path : string) : string :=
  "https://api.github.com/repos/" +:+ contentRepo config +:+ "/commits?path="
  +:+ path +:+ "&sha=" +:+ defaultBranch config.

(** [getFileHistory(path)] *)
Definition getFileHistory (path : string) : M Cache JsValue :=
  let path := normalizePath path in
  tryCatch
    (config <- getConfig ;;
     let url := commitsUrl config path in
     token <- getAuthToken ;;
     response <- fetch {| url := url; method := GET;
                          headers := jsonHeaders token; body := None |} ;;
     if negb (ok response) then throw (GitHubApiError (status response) None)
     else liftResult (json response))
    (fun error => throw error).

End ContentListing.

(** ** WikiEditor: front matter and page path of a saved page
    (assets/js/editor.js) *)

Module WikiEditor.
Import JsString Text FrontMatter.

(** What [generateFrontMatter] and [savePage] read from the page: the
    values of the three inputs ([None] where the element is missing), the
    path being edited, [this.content] (the text of the editor as of its
    last change), [new Date().toISOString()],
    and the login of the signed-in user ([None] without one). *)
Record Form : Type := {
  titleValue : option string;
  descriptionValue : option string;
  tagsValue : option string;
  currentPath : string;
  editorContent : string;
  isoNow : string;
  userLogin : option string
}.

Definition isT (c : ascii) : bool := Ascii.eqb c "T".

(** [new Date().toISOString().split('T')[0]] *)
Definition today (iso : string) : string :=
  match splitChar isT iso with
  | date :: _ => date
  | [] => EmptyString
  end.

(** [this.tagsInput.value.split(',').map(tag => tag.trim()).filter(tag => tag)] *)
Definition tagsOf (value : string) : list string :=
  List.filter truthy (map trim (splitChar isComma value)).

(** A field set only when its input exists and has a truthy value. *)
Definition field (key : string) (value : option string) : list (string * Value) :=
  match value with
  | Some v => if truthy v then [(key, Str v)] else []
  | None => []
  end.

(** The [metadata] object of [generateFrontMatter], as its entries in
    insertion order. *)
Definition metadataOf (f : Form) : list (string * Value) :=
  field "title" (titleValue f) ++
  field "description" (descriptionValue f) ++
  match tagsValue f with
  | Some v =>
      if truthy v
      then match tagsOf v with
           | [] => []
           | tags => [("tags", Arr tags)]
           end
      else []
  | None => []
  end ++
  [("updated", Str (today (isoNow f)))] ++
  (if truthy (currentPath f) then [] else [("created", Str (today (isoNow f)))]) ++
  field "author" (userLogin f).

(** One line of the block: [`${key}: ${value}\n`], an array as
    [`${key}: [${value.join(', ')}]\n`]. *)
Definition entryLine (entry : string * Value) : string :=
  match entry with
  | (key, Str value) => key +:+ ": " +:+ value +:+ nl
  | (key, Arr items) => key +:+ ": [" +:+ join ", " items +:+ "]" +:+ nl
  end.

(** The conversion of the entries to the block. *)
Definition serialize (entries : list (string * Value)) : string :=
  "---" +:+ nl +:+ fold_left (fun acc entry => acc +:+ entryLine entry) entries EmptyString
  +:+ "---" +:+ nl +:+ nl.

(** [generateFrontMatter()] *)
Definition generateFrontMatter (f : Form) : string := serialize (metadataOf f).

(** [.replace(/[^\w\s-]/g, '')] *)
Fixpoint removeSpecial (s : string) : string :=
  match s with
  | EmptyString => EmptyString
  | String c s' =>
      if isWordChar c || isSpace c || Ascii.eqb c "-"
      then String c (removeSpecial s')
      else removeSpecial s'
  end.

(** [.replace(run, '-')] for the maximal runs of the characters of a class:
    [/\s+/g] and [/-+/g]. *)
Fixpoint collapseRuns (class : ascii -> bool) (s : string) : string :=
  match s with
  | EmptyString => EmptyString
  | String c s' =>
      if class c then
        match s' with
        | String d _ => if class d then collapseRuns class s'
                        else String "-" (collapseRuns class s')
        | EmptyString => String "-" EmptyString
        end
      else String c (collapseRuns class s')
  end.

Definition isHyphen (c : ascii) : bool := Ascii.eqb c "-".

(** The path [savePage] generates from the title of a new page. *)
Definition pathFromTitle (titleInput : string) : string :=
  let title := trim titleInput in
  let pagePath :=
    collapseRuns isHyphen (collapseRuns isSpace (removeSpecial (toLowerCase title))) in
  if endsWith pagePath ".md" then pagePath else pagePath +:+ ".md".

(** The content [savePage] hands to [saveFile]: [frontMatter + this.content]. *)
Definition pageContentOf (f : Form) : string :=
  generateFrontMatter f +:+ editorContent f.

End WikiEditor.

(** * Notions used in the statements *)

Module PathSpec.
Import JsString.

(** A string that keeps its first character under [stripLeadingSlashes]. *)
Definition noLeadingSlash (s : string) : Prop :=
  match s with String c _ => isSlash c = false | EmptyString => True end.

End PathSpec.

Module ContentServiceSpec.
Import Js Browser Path ContentService.

(** The part of [getFile] after a cache miss: [NotConfigured] before any
    request, or exactly one request; only a successful response whose body
    could be read stores an entry, stamped with the clock read that ends
    the run. *)
Definition afterMiss (path : string) (c : Cache) (tr : list Event)
    (r : Result (option string)) (c' : Cache) : Prop :=
  (exists o, tr = [EvConfig o] /\ r = Throw NotConfigured /\ c' = c) \/
  (exists o tok req out,
      ((exists reason, out = Rejected reason /\ tr = [EvConfig o; EvToken tok; EvFetch req out]
                       /\ r = Throw (FetchRejected reason) /\ c' = c) \/
       (exists resp, out = Resolved resp /\ ok resp = false /\ status resp = 404
                     /\ tr = [EvConfig o; EvToken tok; EvFetch req out]
                     /\ r = Return None /\ c' = c) \/
       (exists resp, out = Resolved resp /\ ok resp = false /\ status resp <> 404
                     /\ tr = [EvConfig o; EvToken tok; EvFetch req out]
                     /\ r = Throw (GitHubApiError (status resp) None) /\ c' = c) \/
       (exists resp e, out = Resolved resp /\ ok resp = true /\ text resp = Throw e
                     /\ tr = [EvConfig o; EvToken tok; EvFetch req out]
                     /\ r = Throw e /\ c' = c) \/
       (exists resp now s, out = Resolved resp /\ ok resp = true /\ text resp = Return s
                     /\ tr = [EvConfig o; EvToken tok; EvFetch req out; EvNow now]
                     /\ r = Return (Some s)
                     /\ c' = <[path := {| content := s; timestamp := now |}]> c))
      /\ method req = GET).

(** The URL [getApiUrl] builds for a configuration and a path. *)
Definition apiUrl (config : Config) (path : string) : string :=
  "https://api.github.com/repos/" +:+ contentRepo config +:+ "/contents/"
  +:+ path +:+ "?ref=" +:+ defaultBranch config.

(** The configuration in force for an answer of [window.wikiApp.config]. *)
Definition configOf (o : option Config) : Config :=
  match o with Some config => config | None => defaultConfig end.

(** The [sha] the first request of [saveFile] leaves in its variable. *)
Definition fetchedSha (out : FetchOutcome) : JsValue :=
  match out with
  | Resolved resp =>
      if ok resp then
        match json resp with
        | Return data =>
            match getProp data "sha" with
            | Return v => v
            | Throw _ => JNull
            end
        | Throw _ => JNull
        end
      else JNull
  | Rejected _ => JNull
  end.

Definition readRequest (url token : string) : Request :=
  {| url := url; method := GET; headers := [authorization token]; body := None |}.

Definition writeRequest (url token message content branch : string)
    (sha : option JsValue) : Request :=
  {| url := url; method := PUT;
     headers := [authorization token; ("Content-Type", "application/json")];
     body := Some {| wb_message := message; wb_content := base64 content;
                     wb_branch := branch; wb_sha := sha |} |}.

(** A configured repository and the answers of the store, for the
    examples. *)
Definition wikiRepo : Config := {| contentRepo := "me/wiki"; defaultBranch := "main" |}.

Definition readOf (path : string) : Request :=
  {| url := "https://api.github.com/repos/me/wiki/contents/" +:+ path +:+ "?ref=main";
     method := GET;
     headers := [("Accept", "application/vnd.github.v3.raw")];
     body := None |}.

Definition found (s : string) : FetchOutcome :=
  Resolved {| status := 200; text := Return s; json := Throw SyntaxError |}.

Definition notFound : FetchOutcome :=
  Resolved {| status := 404; text := Return "Not Found";
              json := Return (JObj [("message", JStr "Not Found")]) |}.

Definition fileMetadata (sha : string) : FetchOutcome :=
  Resolved {| status := 200; text := Return "";
              json := Return (JObj [("name", JStr "home.md"); ("sha", JStr sha)]) |}.

Definition written : FetchOutcome :=
  Resolved {| status := 200; text := Return "";
              json := Return (JObj [("commit", JObj [])]) |}.

Definition homeUrl : string :=
  "https://api.github.com/repos/me/wiki/contents/home.md?ref=main".

End ContentServiceSpec.

Module FrontMatterSpec.
Import Text FrontMatter.

(** A text begins with a front-matter block when it is the opening line,
    some inner text, the closing line, and a body. *)
Definition hasFrontMatterBlock (s : string) : Prop :=
  exists inner body, s = opening +:+ inner +:+ closing +:+ body.

End FrontMatterSpec.

Module SearchSpec.
Import Js Text FrontMatter SearchService.

(** The posting list of a term. *)
Definition postings (index : Index) (term : string) : list Doc :=
  match index !! term with Some l => l | None => [] end.

(** [occurrences_in_body + 3 * occurrences_in_title] of one term in one
    document. *)
Definition termScore (term : string) (doc : Doc) : nat :=
  (countMatches term (toLowerCase (doc_content doc))
   + 3 * match doc_title doc with
         | Str title => countMatches term (toLowerCase title)
         | Arr _ => 0
         end)%nat.

Definition hasPath (path : string) (doc : Doc) : bool := String.eqb (doc_path doc) path.

(** The contribution of one list of documents to the score of [path]. *)
Definition scoreIn (term path : string) (docs : list Doc) : nat :=
  list_sum (map (termScore term) (List.filter (hasPath path) docs)).

(** The score of [path] summed over the query terms: each term
    contributes through the documents of its posting list. *)
Definition accumulatedScore (index : Index) (terms : list string) (path : string) : nat :=
  list_sum (map (fun term => scoreIn term path (postings index term)) terms).

(** Some term of the query has a posting for [path]. *)
Definition matchedBy (index : Index) (terms : list string) (path : string) : bool :=
  existsb (fun term => existsb (hasPath path) (postings index term)) terms.

(** The order [sort] leaves the results in. *)
Definition descending (a b : SearchResult) : Prop := (res_score b <= res_score a)%nat.

(** The score recorded so far in [docScores]. *)
Definition scoreOf (acc : Acc) (path : string) : nat :=
  match docScores acc !! path with Some n => n | None => O end.












(** A small wiki for the examples. *)
Definition pageZebra : string :=
  "---" +:+ nl +:+ "title: Zebra" +:+ nl +:+ "---" +:+ nl +:+ "Stripes and hooves.".

Definition pageRoad : string := "A zebra crossed the road.".


Definition file (p : string) : Browser.Item :=
  {| Browser.name := p; Browser.path := p; Browser.type := "file" |}.



(** The two documents [indexFile] builds from these pages at [a.md] and
    [b.md], and the state of the service after indexing both. *)
Definition docStripes : Doc :=
  {| doc_path := "a.md"; doc_title := Str "Zebra";
     doc_content := "Stripes and hooves.";
     doc_metadata := Some {["title" := Str "Zebra"]} |}.

Definition docRoad : Doc :=
  {| doc_path := "b.md"; doc_title := Str "B";
     doc_content := pageRoad; doc_metadata := None |}.

Definition crawledTwo : State :=
  {| searchIndex :=
       Some (list_to_map
               [("stripes", [docStripes]); ("and", [docStripes]); ("hooves", [docStripes]);
                ("zebra", [docRoad]); ("crossed", [docRoad]); ("the", [docRoad]);
                ("road", [docRoad])]);
     isIndexing := false;
     indexedFiles := {["a.md"; "b.md"]} |}.




(** An index in which a term is posted for two documents. *)
Definition docTitled : Doc :=
  {| doc_path := "zebra.md"; doc_title := Str "Zebra";
     doc_content := "The zebra is an African equine."; doc_metadata := None |}.

Definition docMention : Doc :=
  {| doc_path := "road.md"; doc_title := Str "Road";
     doc_content := pageRoad; doc_metadata := None |}.

Definition twoDocs : State :=
  {| searchIndex := Some {["zebra" := [docMention; docTitled]]};
     isIndexing := false; indexedFiles := ∅ |}.

End SearchSpec.

(** ** Further notions used in the statements *)

Module ExtraSpec.
Import Js Browser JsString Text Path ContentService FrontMatter.

(** A run of slashes. *)
Fixpoint allSlashes (s : string) : bool :=
  match s with
  | EmptyString => true
  | String c s' => isSlash c && allSlashes s'
  end.

(** The headers of the request of [getFile]. *)
Definition rawHeaders (token : option string) : list (string * string) :=
  ("Accept", "application/vnd.github.v3.raw") ::
  match token with
  | Some t => if JsString.truthy t then [authorization t] else []
  | None => []
  end.

(** [Authorization] is among the headers. *)
Definition authorized (headers : list (string * string)) : bool :=
  existsb (fun h => String.eqb (fst h) "Authorization") headers.

(** Every character of a string satisfies a test. *)
Fixpoint allChars (test : ascii -> bool) (s : string) : bool :=
  match s with
  | EmptyString => true
  | String c s' => test c && allChars test s'
  end.

(** The characters of a generated page path: lower-case letters, digits,
    the underscore and the hyphen. *)
Definition slugChar (c : ascii) : bool :=
  between 97 122 c || between 48 57 c || Ascii.eqb c "_" || Ascii.eqb c "-".

(** A text without line feed, as the value of a one-line input is. *)
Definition noLF (s : string) : bool := allChars (fun c => negb (isLF c)) s.

Definition singleLine (value : option string) : bool :=
  match value with Some s => noLF s | None => true end.

(** Somewhere in the text a line begins with a hyphen: a line feed is
    followed by one. *)
Fixpoint lineStartsWithHyphen (s : string) : bool :=
  match s with
  | EmptyString => false
  | String c s' => (isLF c && startsWith s' "-") || lineStartsWithHyphen s'
  end.

(** The text of the line [generateFrontMatter] writes for an entry,
    without its line feed. *)
Definition lineText (entry : string * Value) : string :=
  match entry with
  | (key, Str value) => key +:+ ": " +:+ value
  | (key, Arr items) => key +:+ ": [" +:+ join ", " items +:+ "]"
  end.

(** The value [parseLine] stores for the text after the colon. *)
Definition readValue (value : string) : Value :=
  let value := trim value in
  if startsWith value "[" && endsWith value "]"
  then Arr (map trim (splitChar isComma (sliceInner value)))
  else Str value.

End ExtraSpec.

(** ** Further notions on the search index *)

Module IndexSpec.
Import Js Text FrontMatter SearchService SearchSpec.

(** What the crawl maintains of the index: its keys are not inherited
    property names, and a posting list is not empty, has no two documents
    of one path, and holds only documents with the key among the tokens of
    their body. *)
Definition sound (index : Index) : Prop :=
  forall token l, index !! token = Some l ->
    inheritedKey token = false /\ l <> [] /\ NoDup (map doc_path l) /\
    forall doc, In doc l -> In token (tokenize (doc_content doc)).

Definition soundState (s : State) : Prop :=
  exists index, searchIndex s = Some index /\ sound index.

(** The characters of a token: lower-case letters, digits and the
    underscore. *)
Definition tokenChar (c : ascii) : bool :=
  between 97 122 c || between 48 57 c || Ascii.eqb c "_".

End IndexSpec.

(** * Properties *)

Module JsStringFacts.
Import JsString.

Lemma startsWith_spec s p : startsWith s p = true <-> exists r, s = p +:+ r.
Proof.
  revert s. induction p as [|a p IH]; intros s; simpl.
  - split; [intros _; exists s; reflexivity | reflexivity].
  - destruct s as [|b s]; simpl.
    + split; [discriminate | intros [r Hr]; discriminate].
    + rewrite andb_true_iff, Ascii.eqb_eq, IH. split.
      * intros [-> [r ->]]. exists r. reflexivity.
      * intros [r Hr]. injection Hr as -> ->. split; [reflexivity | eauto].
Qed.

Lemma append_assoc (a b c : string) : (a +:+ b) +:+ c = a +:+ (b +:+ c).
Proof. induction a as [|x a IH]; simpl; [reflexivity | rewrite IH; reflexivity]. Qed.

Lemma append_nil_r (a : string) : a +:+ "" = a.
Proof. induction a as [|x a IH]; simpl; [reflexivity | rewrite IH; reflexivity]. Qed.

Lemma startsWith_app s p r : startsWith s p = true -> startsWith (s +:+ r) p = true.
Proof.
  rewrite !startsWith_spec. intros [q ->]. exists (q +:+ r). apply append_assoc.
Qed.

Lemma includes_app_r s p r : includes s p = true -> includes (s +:+ r) p = true.
Proof.
  induction s as [|c s IH].
  - simpl. rewrite orb_false_r. intros H. apply (startsWith_app "" p r) in H.
    simpl in H. destruct r; simpl; rewrite H; reflexivity.
  - change (String c s +:+ r) with (String c (s +:+ r)).
    cbn [includes]. rewrite !orb_true_iff. intros [H | H].
    + left. apply (startsWith_app (String c s)). exact H.
    + right. apply IH. exact H.
Qed.

Lemma includes_app_l s p r : includes r p = true -> includes (s +:+ r) p = true.
Proof.
  intros H. induction s as [|c s IH]; simpl; [assumption |].
  rewrite IH. apply orb_true_r.
Qed.

Lemma endsWith_cons c s p :
  endsWith (String c s) p = (String c s =? p)%string || endsWith s p.
Proof. reflexivity. Qed.

Lemma includes_cons c s p :
  includes (String c s) p = startsWith (String c s) p || includes s p.
Proof. reflexivity. Qed.

Lemma truthy_spec s : truthy s = true <-> s <> "".
Proof. destruct s; simpl; split; congruence. Qed.

End JsStringFacts.

(** ** Runs of programs *)

Module BrowserFacts.
Import Js Browser.

Lemma exec_pbind {A B} (m : Prog A) (f : A -> Prog B) tr b :
  exec (pbind m f) tr b <->
  exists tr1 tr2 a, tr = tr1 ++ tr2 /\ exec m tr1 a /\ exec (f a) tr2 b.
Proof.
  revert tr. induction m as [a|k IH|k IH|k IH|req k IH|k IH|p k IH|p k IH];
    intros tr; simpl.
  1: { split.
       - intros H. exists [], tr, a. auto.
       - intros (tr1 & tr2 & a' & -> & [-> ->] & H). exact H. }
  all: split;
    [ intros (x & tr' & -> & H); apply IH in H as (tr1 & tr2 & a & -> & H1 & H2);
      eexists (_ :: tr1), tr2, a; split; [reflexivity | split; [| exact H2]];
      eexists x, tr1; auto
    | intros (tr1 & tr2 & a & -> & (x & tr' & -> & H1) & H2);
      exists x, (tr' ++ tr2); split; [reflexivity |]; apply IH; eauto 6 ].
Qed.

(** A run is determined by the answers of the environment. *)
Lemma exec_functional {A} (m : Prog A) tr a1 a2 :
  exec m tr a1 -> exec m tr a2 -> a1 = a2.
Proof.
  revert tr. induction m as [a|k IH|k IH|k IH|req k IH|k IH|p k IH|p k IH];
    intros tr; simpl.
  1: { intros [_ ->] [_ ->]. reflexivity. }
  all: intros (x & tr' & -> & H1) (y & tr'' & E & H2); injection E as <- <-; eauto.
Qed.

Lemma run_exec {A} (m : Prog A) script a tr :
  run m script = Some (a, tr) -> exec m tr a.
Proof.
  revert script tr. induction m as [x|k IH|k IH|k IH|req k IH|k IH|p k IH|p k IH];
    intros script tr; simpl.
  1: { destruct script; [| discriminate]. intros E. injection E as <- <-. auto. }
  all: destruct script as [|[] rest]; try discriminate; unfold logged;
    match goal with |- context [run ?m rest] =>
      destruct (run m rest) as [[a' tr']|] eqn:E; [| discriminate] end;
    intros E'; injection E' as <- <-; apply IH in E; eauto.
Qed.

(** Runs on concrete input: evaluate the program against the trace. *)
Ltac exec_run :=
  match goal with
  | |- exec ?m ?tr ?a => apply (run_exec m tr a tr); vm_compute; reflexivity
  end.

Lemma exec_bind {S A B} (m : M S A) (f : A -> M S B) s tr r s' :
  exec (bind m f s) tr (r, s') <->
  exists tr1 tr2 r1 s1,
    tr = tr1 ++ tr2 /\ exec (m s) tr1 (r1, s1) /\
    match r1 with
    | Return a => exec (f a s1) tr2 (r, s')
    | Throw e => tr2 = [] /\ r = Throw e /\ s' = s1
    end.
Proof.
  unfold bind. rewrite exec_pbind. split.
  - intros (tr1 & tr2 & [r1 s1] & -> & H1 & H2).
    exists tr1, tr2, r1, s1. split; [reflexivity | split; [exact H1 |]].
    destruct r1; [exact H2 |]. simpl in H2. destruct H2 as [-> E]. injection E as -> ->. auto.
  - intros (tr1 & tr2 & r1 & s1 & -> & H1 & H2).
    exists tr1, tr2, (r1, s1). split; [reflexivity | split; [exact H1 |]].
    destruct r1; [exact H2 |]. destruct H2 as (-> & -> & ->). simpl. auto.
Qed.

Lemma exec_tryCatch {S A} (m : M S A) (h : JsError -> M S A) s tr r s' :
  exec (tryCatch m h s) tr (r, s') <->
  exists tr1 tr2 r1 s1,
    tr = tr1 ++ tr2 /\ exec (m s) tr1 (r1, s1) /\
    match r1 with
    | Return a => tr2 = [] /\ r = Return a /\ s' = s1
    | Throw e => exec (h e s1) tr2 (r, s')
    end.
Proof.
  unfold tryCatch. rewrite exec_pbind. split.
  - intros (tr1 & tr2 & [r1 s1] & -> & H1 & H2).
    exists tr1, tr2, r1, s1. split; [reflexivity | split; [exact H1 |]].
    destruct r1; [| exact H2]. simpl in H2. destruct H2 as [-> E]. injection E as -> ->. auto.
  - intros (tr1 & tr2 & r1 & s1 & -> & H1 & H2).
    exists tr1, tr2, (r1, s1). split; [reflexivity | split; [exact H1 |]].
    destruct r1; [| exact H2]. destruct H2 as (-> & -> & ->). simpl. auto.
Qed.

(** *** Runs of the primitive methods *)

Section Primitives.
Context {S A : Type}.
Implicit Types (s : S) (tr : list Event).

Lemma exec_ret (a : A) s tr (r : Result A) s' :
  exec (ret a s) tr (r, s') <-> tr = [] /\ r = Return a /\ s' = s.
Proof. simpl. split; [intros [-> E]; injection E as -> -> | intros (-> & -> & ->)]; auto. Qed.

Lemma exec_throw e s tr (r : Result A) s' :
  exec (throw e s) tr (r, s') <-> tr = [] /\ r = Throw e /\ s' = s.
Proof. simpl. split; [intros [-> E]; injection E as -> -> | intros (-> & -> & ->)]; auto. Qed.

Lemma exec_liftResult (x : Result A) s tr (r : Result A) s' :
  exec (liftResult x s) tr (r, s') <-> tr = [] /\ r = x /\ s' = s.
Proof. simpl. split; [intros [-> E]; injection E as -> -> | intros (-> & -> & ->)]; auto. Qed.

Lemma exec_get s tr (r : Result S) s' :
  exec (get s) tr (r, s') <-> tr = [] /\ r = Return s /\ s' = s.
Proof. simpl. split; [intros [-> E]; injection E as -> -> | intros (-> & -> & ->)]; auto. Qed.

Lemma exec_modify (f : S -> S) s tr (r : Result unit) s' :
  exec (modify f s) tr (r, s') <-> tr = [] /\ r = Return tt /\ s' = f s.
Proof. simpl. split; [intros [-> E]; injection E as -> -> | intros (-> & -> & ->)]; auto. Qed.

Lemma exec_dateNow s tr (r : Result Z) s' :
  exec (dateNow s) tr (r, s') <-> exists t, tr = [EvNow t] /\ r = Return t /\ s' = s.
Proof.
  simpl. split.
  - intros (t & tr' & -> & -> & E). injection E as -> ->. eauto.
  - intros (t & -> & -> & ->). eauto 6.
Qed.

Lemma exec_wikiConfig s tr (r : Result (option Config)) s' :
  exec (wikiConfig s) tr (r, s') <-> exists c, tr = [EvConfig c] /\ r = Return c /\ s' = s.
Proof.
  simpl. split.
  - intros (t & tr' & -> & -> & E). injection E as -> ->. eauto.
  - intros (t & -> & -> & ->). eauto 6.
Qed.

Lemma exec_authGetToken s tr (r : Result (option string)) s' :
  exec (authGetToken s) tr (r, s') <-> exists t, tr = [EvToken t] /\ r = Return t /\ s' = s.
Proof.
  simpl. split.
  - intros (t & tr' & -> & -> & E). injection E as -> ->. eauto.
  - intros (t & -> & -> & ->). eauto 6.
Qed.

Lemma exec_contentAvailable s tr (r : Result bool) s' :
  exec (contentAvailable s) tr (r, s') <-> exists b, tr = [EvContent b] /\ r = Return b /\ s' = s.
Proof.
  simpl. split.
  - intros (t & tr' & -> & -> & E). injection E as -> ->. eauto.
  - intros (t & -> & -> & ->). eauto 6.
Qed.

Lemma exec_fetch req s tr (r : Result Response) s' :
  exec (fetch req s) tr (r, s') <->
  exists o, tr = [EvFetch req o] /\ s' = s /\
    r = match o with
        | Resolved x => Return x
        | Rejected reason => Throw (FetchRejected reason)
        end.
Proof.
  simpl. split.
  - intros (o & tr' & -> & H). exists o.
    destruct o; simpl in H; destruct H as [-> E]; injection E as -> ->; auto.
  - intros (o & -> & -> & ->). exists o, []. split; [reflexivity |].
    destruct o; simpl; auto.
Qed.

Lemma exec_contentGetFile p s tr (r : Result (option string)) s' :
  exec (contentGetFile p s) tr (r, s') <-> tr = [EvGetFile p r] /\ s' = s.
Proof.
  simpl. split.
  - intros (x & tr' & -> & -> & E). injection E as -> ->. auto.
  - intros (-> & ->). eauto 6.
Qed.

Lemma exec_contentGetDirectoryContents p s tr (r : Result (list Item)) s' :
  exec (contentGetDirectoryContents p s) tr (r, s') <-> tr = [EvGetDir p r] /\ s' = s.
Proof.
  simpl. split.
  - intros (x & tr' & -> & -> & E). injection E as -> ->. auto.
  - intros (-> & ->). eauto 6.
Qed.

End Primitives.

(** Symbolic execution of a run, one step at a time. *)
Ltac exec_step :=
  match goal with
  | H : exec (bind _ _ _) _ (_, _) |- _ =>
      apply exec_bind in H as (? & ? & ? & ? & ? & ? & H)
  | H : exec (tryCatch _ _ _) _ (_, _) |- _ =>
      apply exec_tryCatch in H as (? & ? & ? & ? & ? & ? & H)
  | H : exec (ret _ _) _ (_, _) |- _ => apply exec_ret in H as (? & ? & ?)
  | H : exec (throw _ _) _ (_, _) |- _ => apply exec_throw in H as (? & ? & ?)
  | H : exec (liftResult _ _) _ (_, _) |- _ => apply exec_liftResult in H as (? & ? & ?)
  | H : exec (get _) _ (_, _) |- _ => apply exec_get in H as (? & ? & ?)
  | H : exec (modify _ _) _ (_, _) |- _ => apply exec_modify in H as (? & ? & ?)
  | H : exec (dateNow _) _ (_, _) |- _ => apply exec_dateNow in H as (? & ? & ? & ?)
  | H : exec (wikiConfig _) _ (_, _) |- _ => apply exec_wikiConfig in H as (? & ? & ? & ?)
  | H : exec (authGetToken _) _ (_, _) |- _ =>
      apply exec_authGetToken in H as (? & ? & ? & ?)
  | H : exec (contentAvailable _) _ (_, _) |- _ =>
      apply exec_contentAvailable in H as (? & ? & ? & ?)
  | H : exec (fetch _ _) _ (_, _) |- _ => apply exec_fetch in H as (? & ? & ? & ?)
  | H : exec (contentGetFile _ _) _ (_, _) |- _ =>
      apply exec_contentGetFile in H as (? & ?)
  | H : exec (contentGetDirectoryContents _ _) _ (_, _) |- _ =>
      apply exec_contentGetDirectoryContents in H as (? & ?)
  | H : exec ((if ?b then _ else _) _) _ (_, _) |- _ => destruct b eqn:?
  | H : _ /\ _ |- _ => destruct H
  | H : exists _, _ |- _ => destruct H
  end.

Ltac exec_inv := repeat (exec_step; simplify_eq; cbn beta iota delta [app] in * ).

(** The case distinctions a run gets stuck at. *)
Ltac exec_case :=
  match goal with
  | H : context [match ?o with Resolved _ => _ | Rejected _ => _ end] |- _ =>
      is_var o; destruct o
  | H : match ?x with Return _ => _ | Throw _ => _ end |- _ => destruct x eqn:?
  | H : exec (match ?t with Some _ => _ | None => _ end _) _ _ |- _ => destruct t
  end.

Ltac exec_all := repeat (exec_inv; try (exec_case; simplify_eq; cbn beta iota in * )).

Lemma fetches_app tr1 tr2 : fetches (tr1 ++ tr2) = fetches tr1 ++ fetches tr2.
Proof.
  induction tr1 as [|[] tr1 IH]; simpl; rewrite ?IH; reflexivity.
Qed.

End BrowserFacts.

(** ** Path normalisation *)

Module PathFacts.
Import JsString JsStringFacts Path PathSpec.

Lemma stripLeading_idem s :
  stripLeadingSlashes (stripLeadingSlashes s) = stripLeadingSlashes s.
Proof.
  induction s as [|c s IH]; simpl; [reflexivity |].
  destruct (isSlash c) eqn:E; [exact IH | simpl; rewrite E; reflexivity].
Qed.

Lemma noLeadingSlash_fix s : noLeadingSlash s -> stripLeadingSlashes s = s.
Proof. destruct s as [|c s]; simpl; [reflexivity | intros ->; reflexivity]. Qed.

Lemma stripLeading_noLeadingSlash s : noLeadingSlash (stripLeadingSlashes s).
Proof.
  induction s as [|c s IH]; simpl; [exact I |].
  destruct (isSlash c) eqn:E; [exact IH | simpl; exact E].
Qed.

Lemma stripTrailing_noLeadingSlash s :
  noLeadingSlash s -> noLeadingSlash (stripTrailingSlashes s).
Proof.
  destruct s as [|c s]; simpl; [trivial |]. intros E.
  destruct (stripTrailingSlashes s); [rewrite E |]; simpl; exact E.
Qed.

Lemma stripTrailing_idem s :
  stripTrailingSlashes (stripTrailingSlashes s) = stripTrailingSlashes s.
Proof.
  induction s as [|c s IH]; simpl; [reflexivity |].
  destruct (stripTrailingSlashes s) as [|d r] eqn:E.
  - destruct (isSlash c) eqn:Ec; simpl; [reflexivity | rewrite Ec; reflexivity].
  - cbn [stripTrailingSlashes]. fold stripTrailingSlashes.
    change (match stripTrailingSlashes (String d r) with
            | "" => if isSlash c then "" else String c ""
            | String a s0 => String c (String a s0)
            end = String c (String d r)).
    rewrite IH. reflexivity.
Qed.

Lemma stripSlashes_idem s : stripSlashes (stripSlashes s) = stripSlashes s.
Proof.
  unfold stripSlashes.
  rewrite (noLeadingSlash_fix (stripTrailingSlashes (stripLeadingSlashes s))).
  - apply stripTrailing_idem.
  - apply stripTrailing_noLeadingSlash, stripLeading_noLeadingSlash.
Qed.

Lemma stripSlashes_noLeadingSlash s : noLeadingSlash (stripSlashes s).
Proof. apply stripTrailing_noLeadingSlash, stripLeading_noLeadingSlash. Qed.

(** A suffix that survives keeps everything before it. *)
Lemma stripTrailing_app a b :
  stripTrailingSlashes b <> "" ->
  stripTrailingSlashes (a +:+ b) = a +:+ stripTrailingSlashes b.
Proof.
  intros Hb. induction a as [|c a IH]; simpl; [reflexivity |].
  rewrite IH. destruct (a +:+ stripTrailingSlashes b) eqn:E; [|reflexivity].
  destruct a; simpl in E; [contradiction | discriminate].
Qed.

Lemma noLeadingSlash_app a b : a <> "" -> noLeadingSlash a -> noLeadingSlash (a +:+ b).
Proof. destruct a; simpl; [contradiction | trivial]. Qed.

Lemma stripSlashes_app_md q :
  q <> "" -> noLeadingSlash q -> stripSlashes (q +:+ ".md") = q +:+ ".md".
Proof.
  intros Hq Hl. unfold stripSlashes.
  rewrite (noLeadingSlash_fix (q +:+ ".md")) by (apply noLeadingSlash_app; assumption).
  rewrite stripTrailing_app; [reflexivity | discriminate].
Qed.

(** What is left after stripping never ends in a slash. *)
Lemma stripTrailing_endsWith s : endsWith (stripTrailingSlashes s) "/" = false.
Proof.
  induction s as [|c s IH]; simpl; [reflexivity |].
  destruct (stripTrailingSlashes s) as [|d r] eqn:E.
  - destruct (isSlash c) eqn:Ec; [reflexivity |].
    cbn [endsWith]. unfold isSlash in Ec.
    simpl. rewrite Ec. reflexivity.
  - rewrite endsWith_cons, IH.
    replace (String c (String d r) =? "/")%string with false; [reflexivity |].
    symmetry. apply String.eqb_neq. discriminate.
Qed.

Lemma stripSlashes_endsWith s : endsWith (stripSlashes s) "/" = false.
Proof. apply stripTrailing_endsWith. Qed.

(** Stripping only removes slashes, so it neither adds nor removes a dot. *)
Lemma stripLeading_includes_dot s :
  includes (stripLeadingSlashes s) "." = includes s ".".
Proof.
  induction s as [|c s IH]; simpl; [reflexivity |].
  destruct (isSlash c) eqn:E; [| reflexivity].
  rewrite IH. unfold isSlash in E. apply Ascii.eqb_eq in E. subst c. reflexivity.
Qed.

Lemma stripTrailing_includes_dot s :
  includes (stripTrailingSlashes s) "." = includes s ".".
Proof.
  induction s as [|c s IH]; [reflexivity |].
  cbn [stripTrailingSlashes].
  destruct (stripTrailingSlashes s) as [|d r] eqn:E.
  - rewrite (includes_cons c s), <- IH. destruct (isSlash c) eqn:Ec.
    + unfold isSlash in Ec. apply Ascii.eqb_eq in Ec. subst c. reflexivity.
    + simpl. rewrite !orb_false_r. reflexivity.
  - rewrite (includes_cons c s), (includes_cons c (String d r)), IH.
    reflexivity.
Qed.

Lemma stripSlashes_includes_dot s : includes (stripSlashes s) "." = includes s ".".
Proof.
  unfold stripSlashes. rewrite stripTrailing_includes_dot. apply stripLeading_includes_dot.
Qed.

(** The extension is appended exactly when something without a dot is left. *)
Lemma normalizePath_appends p :
  stripSlashes p <> "" -> includes p "." = false ->
  normalizePath p = stripSlashes p +:+ ".md".
Proof.
  intros Hne Hdot. unfold normalizePath. cbv zeta.
  apply truthy_spec in Hne. rewrite Hne, stripSlashes_endsWith.
  rewrite stripSlashes_includes_dot, Hdot. reflexivity.
Qed.

Lemma stripTrailing_nonempty s :
  s <> "" -> endsWith s "/" = false -> stripTrailingSlashes s <> "".
Proof.
  induction s as [|c s IH]; [contradiction |]. intros _ He. simpl.
  destruct (stripTrailingSlashes s) eqn:E; [| discriminate].
  destruct (isSlash c) eqn:Ec; [| discriminate].
  exfalso. rewrite endsWith_cons in He. apply orb_false_iff in He as [H1 H2].
  destruct s as [|d s].
  - unfold isSlash in Ec. apply Ascii.eqb_eq in Ec. subst c. cbv in H1. discriminate.
  - apply IH in H2; [contradiction | discriminate].
Qed.

Lemma stripLeading_nonempty s :
  s <> "" -> endsWith s "/" = false ->
  stripLeadingSlashes s <> "" /\ endsWith (stripLeadingSlashes s) "/" = false.
Proof.
  induction s as [|c s IH]; [contradiction |]. intros _ He.
  simpl. destruct (isSlash c) eqn:Ec; [| split; [discriminate | exact He]].
  rewrite endsWith_cons in He. apply orb_false_iff in He as [H1 H2].
  destruct s as [|d s].
  - unfold isSlash in Ec. apply Ascii.eqb_eq in Ec. subst c. cbv in H1. discriminate.
  - apply IH; [discriminate | exact H2].
Qed.

Lemma stripSlashes_nonempty s :
  s <> "" -> endsWith s "/" = false -> stripSlashes s <> "".
Proof.
  intros Hs He. unfold stripSlashes.
  destruct (stripLeading_nonempty s Hs He). apply stripTrailing_nonempty; assumption.
Qed.

(** C7, as the specification words it, fails on the empty path: the guard
    [path && ...] of [normalizePath] leaves it empty (it is the root
    directory of [getDirectoryContents]). *)
Lemma normalizePath_empty_counterexample :
  ~ (forall p : string,
        includes p "." = false -> endsWith p "/" = false ->
        normalizePath p = stripSlashes p +:+ ".md").
Proof.
  intros H. specialize (H "" eq_refl eq_refl). discriminate H.
Qed.

(** C7 (amended): for every non-empty path [p] that does not end in a
    separator, [normalizePath p] is [p] with its leading and trailing
    slashes stripped, and with [".md"] appended exactly when [p] holds no
    dot. The test for an extension is a dot anywhere in the path: a dot in
    a directory name, as in [v1.2/readme], is taken for one, and nothing is
    appended. *)
Theorem normalizePath_appends_md (p : string) :
  p <> "" -> endsWith p "/" = false ->
  (includes p "." = false -> normalizePath p = stripSlashes p +:+ ".md") /\
  (includes p "." = true -> normalizePath p = stripSlashes p).
Proof.
  intros Hp Hend. split; intros Hdot.
  - apply normalizePath_appends; [| exact Hdot].
    apply stripSlashes_nonempty; assumption.
  - unfold normalizePath. cbv zeta.
    rewrite stripSlashes_includes_dot, Hdot, andb_false_r. reflexivity.
Qed.

Lemma normalizePath_appends_md_witness :
  normalizePath "/docs/guide" = "docs/guide.md" /\
  normalizePath "v1.2/readme" = "v1.2/readme".
Proof.
  split.
  - destruct (normalizePath_appends_md "/docs/guide") as [H _];
      [discriminate | reflexivity | exact (H eq_refl)].
  - destruct (normalizePath_appends_md "v1.2/readme") as [_ H];
      [discriminate | reflexivity | exact (H eq_refl)].
Defined.

(** C8: [normalizePath] is idempotent. *)
Theorem normalizePath_idempotent (p : string) :
  normalizePath (normalizePath p) = normalizePath p.
Proof.
  assert (Hn : forall x, normalizePath x =
            if truthy (stripSlashes x) && negb (endsWith (stripSlashes x) "/")
               && negb (includes (stripSlashes x) ".")
            then stripSlashes x +:+ ".md" else stripSlashes x) by reflexivity.
  rewrite (Hn p).
  destruct (stripSlashes p) as [|c q] eqn:E; [reflexivity |].
  destruct (truthy (String c q) && negb (endsWith (String c q) "/")
            && negb (includes (String c q) ".")) eqn:G.
  - rewrite Hn.
    assert (Hl : noLeadingSlash (String c q))
      by (rewrite <- E; apply stripSlashes_noLeadingSlash).
    rewrite stripSlashes_app_md by (trivial; discriminate).
    rewrite (includes_app_l (String c q) "." ".md" eq_refl).
    rewrite andb_false_r. reflexivity.
  - rewrite Hn, <- E, stripSlashes_idem, E, G. reflexivity.
Qed.

End PathFacts.

(** ** The content cache *)

Module ContentServiceFacts.
Import Js Browser Path ContentService ContentServiceSpec BrowserFacts.

Lemma cacheTTL_value : cacheTTL = 300000.
Proof. reflexivity. Qed.

Lemma exec_getFromCache path (c : Cache) tr r c' :
  exec (getFromCache path c) tr (r, c') <->
  match c !! path with
  | None => tr = [] /\ r = Return None /\ c' = c
  | Some e =>
      exists now, tr = [EvNow now] /\
        if now - timestamp e >? cacheTTL
        then r = Return None /\ c' = delete path c
        else r = Return (Some (content e)) /\ c' = c
  end.
Proof.
  unfold getFromCache. split.
  - intros H. exec_inv. destruct (c !! path) as [e|]; exec_inv; [| | auto].
    all: eexists; (split; [reflexivity |]);
      match goal with E : (_ >? _) = _ |- _ => rewrite E end; auto.
  - intros H. apply exec_bind. exists [], tr, (Return c), c.
    split; [reflexivity | split; [apply exec_get; auto |]].
    destruct (c !! path) as [e|].
    + destruct H as (now & -> & H). apply exec_bind.
      exists [EvNow now], [], (Return now), c.
      split; [reflexivity | split; [apply exec_dateNow; eauto |]].
      destruct (_ >? _); destruct H as [-> ->].
      * apply exec_bind. exists [], [], (Return tt), (delete path c).
        split; [reflexivity | split; [apply exec_modify; auto | apply exec_ret; auto]].
      * apply exec_ret; auto.
    + apply exec_ret. exact H.
Qed.

Lemma exec_getApiUrl path (c : Cache) tr r c' :
  exec (getApiUrl path c) tr (r, c') ->
  exists o, tr = [EvConfig o] /\ c' = c /\
    (r = Throw NotConfigured \/ exists url, r = Return url).
Proof.
  unfold getApiUrl, getConfig. intros H. exec_inv.
  all: eexists; split; [reflexivity | split; [reflexivity |]]; eauto.
Qed.

Lemma exec_addToCache path s (c : Cache) tr r c' :
  exec (addToCache path s c) tr (r, c') <->
  exists now, tr = [EvNow now] /\ r = Return tt /\
    c' = <[path := {| content := s; timestamp := now |}]> c.
Proof.
  unfold addToCache. split.
  - intros H. exec_inv. eauto.
  - intros (now & -> & -> & ->). apply exec_bind.
    exists [EvNow now], [], (Return now), c.
    split; [reflexivity | split; [apply exec_dateNow; eauto | apply exec_modify; auto]].
Qed.

(** Every run of [getFile]: a cache lookup, then either the cached content
    or the network. *)
Lemma getFile_run p (c : Cache) tr r c' :
  exec (getFile p c) tr (r, c') ->
  exists tr1 tr2 cached c1,
    tr = tr1 ++ tr2 /\
    exec (getFromCache (normalizePath p) c) tr1 (Return cached, c1) /\
    if truthyStr cached
    then tr2 = [] /\ r = Return cached /\ c' = c1
    else afterMiss (normalizePath p) c1 tr2 r c'.
Proof.
  unfold getFile. cbv zeta. intros H.
  apply exec_bind in H as (tr1 & tr2 & r1 & c1 & -> & H1 & H2).
  assert (exists cached, r1 = Return cached) as [cached ->].
  { apply exec_getFromCache in H1. destruct (c !! normalizePath p).
    - destruct H1 as (now & _ & H1). destruct (_ >? _); destruct H1 as [-> _]; eauto.
    - destruct H1 as (_ & -> & _). eauto. }
  exists tr1, tr2, cached, c1. split; [reflexivity | split; [exact H1 |]].
  destruct (truthyStr cached); [exec_inv; auto |].
  apply exec_tryCatch in H2 as (tr3 & tr4 & r3 & c3 & -> & H3 & H4).
  assert (Hm : afterMiss (normalizePath p) c1 tr3 r3 c3).
  { clear H4. apply exec_bind in H3 as (tr5 & tr6 & r5 & c5 & -> & H5 & H6).
    apply exec_getApiUrl in H5 as (o & -> & -> & [-> | [url ->]]).
    - left. destruct H6 as (-> & -> & ->). eauto.
    - right. unfold getAuthToken, addToCache in H6. exec_inv.
      match goal with H : match match ?o with Resolved _ => _ | Rejected _ => _ end with _ => _ end |- _ =>
        destruct o as [reason|resp]; cbn beta iota in H end; exec_all.
      all: repeat match goal with
             | H : negb _ = true |- _ => apply negb_true_iff in H
             | H : negb _ = false |- _ => apply negb_false_iff in H
             | H : (_ =? _) = true |- _ => apply Z.eqb_eq in H
             | H : (_ =? _) = false |- _ => apply Z.eqb_neq in H
             end.
      all: do 4 eexists; split;
        [ first
            [ solve [left; eexists; repeat split; eauto]
            | solve [right; left; eexists; repeat split; eauto]
            | solve [right; right; left; eexists; repeat split; eauto]
            | solve [right; right; right; left; eexists _, _; repeat split; eauto]
            | solve [right; right; right; right; eexists _, _, _; repeat split; eauto] ]
        | reflexivity ]. }
  destruct r3 as [a|e]; [destruct H4 as (-> & -> & ->); rewrite app_nil_r; exact Hm |].
  apply exec_throw in H4 as (-> & -> & ->). rewrite app_nil_r. exact Hm.
Qed.

Lemma afterMiss_fetches path (c : Cache) tr r c' :
  afterMiss path c tr r c' ->
  (r = Throw NotConfigured /\ fetches tr = []) \/
  exists req out, fetches tr = [(req, out)].
Proof.
  intros [(o & -> & -> & ->) | (o & tok & req & out & H & _)]; [left; auto | right].
  exists req, out.
  destruct H as [(? & _ & -> & _) | [(? & _ & _ & _ & -> & _) |
                [(? & _ & _ & _ & -> & _) | [(? & ? & _ & _ & _ & -> & _) |
                 (? & ? & ? & _ & _ & _ & -> & _)]]]]; reflexivity.
Qed.

(** A run of [getFromCache] asks the clock at most, never the network. *)
Lemma getFromCache_fetches path (c : Cache) tr r c' :
  exec (getFromCache path c) tr (r, c') -> fetches tr = [].
Proof.
  intros H. apply exec_getFromCache in H. destruct (c !! path).
  - destruct H as (now & -> & _). reflexivity.
  - destruct H as (-> & _). reflexivity.
Qed.

(** A fresh entry with content is served from the cache: the run reads the
    clock and nothing else. *)
Lemma getFile_fresh_hit p (c : Cache) e tr r c' :
  c !! normalizePath p = Some e ->
  exec (getFile p c) tr (r, c') ->
  exists now tr', tr = EvNow now :: tr' /\
    (now - timestamp e <= cacheTTL -> content e <> "" ->
     tr' = [] /\ r = Return (Some (content e)) /\ c' = c).
Proof.
  intros He H. apply getFile_run in H as (tr1 & tr2 & cached & c1 & -> & H1 & H2).
  apply exec_getFromCache in H1. rewrite He in H1. destruct H1 as (now & -> & H1).
  exists now, tr2. split; [reflexivity |]. intros Hage Hne.
  destruct (now - timestamp e >? cacheTTL) eqn:E; [lia |].
  destruct H1 as [E1 ->]. injection E1 as ->.
  apply JsStringFacts.truthy_spec in Hne. unfold truthyStr in H2.
  rewrite Hne in H2. exact H2.
Qed.

(** An entry with empty content is never served: [getFile] tests the
    cached content for truthiness. *)
Lemma getFile_empty_entry_not_served p (c : Cache) e tr r c' :
  c !! normalizePath p = Some e -> content e = "" ->
  exec (getFile p c) tr (r, c') ->
  exists now tr', tr = EvNow now :: tr' /\
    ((r = Throw NotConfigured /\ fetches tr' = []) \/
     exists req out, fetches tr' = [(req, out)]).
Proof.
  intros He Hc H. apply getFile_run in H as (tr1 & tr2 & cached & c1 & -> & H1 & H2).
  apply exec_getFromCache in H1. rewrite He in H1. destruct H1 as (now & -> & H1).
  exists now, tr2. split; [reflexivity |].
  assert (truthyStr cached = false) as Hf.
  { destruct (_ >? _); destruct H1 as [E _]; injection E as ->; [reflexivity |].
    simpl. rewrite Hc. reflexivity. }
  rewrite Hf in H2. eapply afterMiss_fetches. exact H2.
Qed.

(** What a run that reached the network leaves in the cache. *)
Lemma getFile_fetched_entry p (c : Cache) tr s c' :
  exec (getFile p c) tr (Return (Some s), c') -> fetches tr <> [] ->
  exists now tr0, tr = tr0 ++ [EvNow now] /\
    c' !! normalizePath p = Some {| content := s; timestamp := now |}.
Proof.
  intros H Hf. apply getFile_run in H as (tr1 & tr2 & cached & c1 & -> & H1 & H2).
  pose proof (getFromCache_fetches _ _ _ _ _ H1) as Hf1.
  destruct (truthyStr cached).
  - destruct H2 as (-> & _). rewrite app_nil_r in Hf. contradiction.
  - destruct H2 as [(o & -> & E & _) | (o & tok & req & out & H & _)]; [discriminate |].
    destruct H as [(? & _ & _ & E & _) | [(? & _ & _ & _ & _ & E & _) |
                  [(? & _ & _ & _ & _ & E & _) | [(? & ? & _ & _ & _ & _ & E & _) |
                   (resp & now & s' & _ & _ & _ & -> & E & ->)]]]];
      try discriminate.
    injection E as ->. exists now. eexists (tr1 ++ [_; _; _]).
    split; [rewrite <- app_assoc; reflexivity | apply lookup_insert_eq].
Qed.

(** Cache freshness for content that is not empty: the second of two
    calls within the TTL is answered from the cache. *)
Lemma getFile_twice_within_ttl p (c0 : Cache) tr1 s c1 tr2 r2 c2 :
  exec (getFile p c0) tr1 (Return (Some s), c1) -> fetches tr1 <> [] ->
  exec (getFile p c1) tr2 (r2, c2) ->
  exists t1 t2 tr1' tr2',
    tr1 = tr1' ++ [EvNow t1] /\ tr2 = EvNow t2 :: tr2' /\
    (t2 - t1 <= cacheTTL -> s <> "" ->
     tr2' = [] /\ r2 = Return (Some s) /\ c2 = c1 /\ fetches tr2 = []).
Proof.
  intros H1 Hf H2.
  destruct (getFile_fetched_entry _ _ _ _ _ H1 Hf) as (t1 & tr1' & -> & He).
  destruct (getFile_fresh_hit _ _ _ _ _ _ He H2) as (t2 & tr2' & -> & H).
  exists t1, t2, tr1', tr2'. split; [reflexivity | split; [reflexivity |]].
  intros Hage Hne. destruct (H Hage Hne) as (-> & -> & ->). auto.
Qed.

(** C1 at an empty file: the first call fetches the (empty) content and
    stores it; the second call, one second later, finds the entry, tests
    its content for truthiness, and goes to the network again. *)
Theorem getFile_empty_file_fetched_twice :
  let miss := [EvConfig (Some wikiRepo); EvToken None;
               EvFetch (readOf "empty.md") (found "")] in
  let c1 : Cache := {["empty.md" := {| content := ""; timestamp := 1000 |}]} in
  let c2 : Cache := {["empty.md" := {| content := ""; timestamp := 2001 |}]} in
  exec (getFile "empty.md" ∅) (miss ++ [EvNow 1000]) (Return (Some ""), c1) /\
  2000 - 1000 < cacheTTL /\
  exec (getFile "empty.md" c1) (EvNow 2000 :: miss ++ [EvNow 2001]) (Return (Some ""), c2) /\
  length (fetches ((miss ++ [EvNow 1000]) ++ EvNow 2000 :: miss ++ [EvNow 2001])) = 2%nat.
Proof. cbv zeta. repeat split; try exec_run. Qed.


(** C2, as the specification words it, fails at the boundary: an entry
    whose age has reached the TTL exactly is still served. *)
Lemma ttl_boundary_counterexample :
  let c : Cache := {["a.md" := {| content := "# A"; timestamp := 0 |}]} in
  ~ (300000 - 0 < cacheTTL) /\
  exec (getFromCache "a.md" c) [EvNow 300000] (Return (Some "# A"), c) /\
  exec (getFile "a.md" c) [EvNow 300000] (Return (Some "# A"), c).
Proof. cbv zeta. split; [vm_compute; discriminate | split; exec_run]. Qed.

(** C2 (amended): an entry is valid while [now - fetchedAt <= TTL], with
    the TTL fixed at 300000 ms. A read of its path while valid returns the
    content and leaves the cache as it is; a read once the age exceeds the
    TTL returns nothing, removes that entry and no other, and [getFile]
    then goes to the network instead of serving it. *)
Theorem cache_ttl_validity (c : Cache) (path : string) (e : CacheEntry) :
  c !! path = Some e ->
  cacheTTL = 300000 /\
  (forall tr r c',
      exec (getFromCache path c) tr (r, c') ->
      exists now, tr = [EvNow now] /\
        (now - timestamp e <= cacheTTL -> r = Return (Some (content e)) /\ c' = c) /\
        (cacheTTL < now - timestamp e -> r = Return None /\ c' = delete path c) /\
        (forall q, q <> path -> c' !! q = c !! q)) /\
  (forall p tr r c',
      normalizePath p = path ->
      exec (getFile p c) tr (r, c') ->
      exists now tr', tr = EvNow now :: tr' /\
        (cacheTTL < now - timestamp e ->
         (r = Throw NotConfigured /\ fetches tr' = []) \/
         exists req out, fetches tr' = [(req, out)])).
Proof.
  intros He. split; [reflexivity | split].
  - intros tr r c' H. apply exec_getFromCache in H. rewrite He in H.
    destruct H as (now & -> & H). exists now. split; [reflexivity |].
    destruct (now - timestamp e >? cacheTTL) eqn:E; destruct H as [-> ->].
    + repeat split; try lia. intros q Hq. apply lookup_delete_ne. congruence.
    + repeat split; try lia.
  - intros p tr r c' <- H.
    apply getFile_run in H as (tr1 & tr2 & cached & c1 & -> & H1 & H2).
    apply exec_getFromCache in H1. rewrite He in H1. destruct H1 as (now & -> & H1).
    exists now, tr2. split; [reflexivity |]. intros Hage.
    destruct (now - timestamp e >? cacheTTL) eqn:E; [| lia].
    destruct H1 as [E1 ->]. injection E1 as ->. simpl in H2.
    eapply afterMiss_fetches. exact H2.
Qed.

Lemma cache_ttl_validity_witness :
  let c : Cache := {["a.md" := {| content := "# A"; timestamp := 0 |}]} in
  cacheTTL = 300000 /\
  (forall tr r c',
      exec (getFromCache "a.md" c) tr (r, c') ->
      exists now, tr = [EvNow now] /\
        (now - 0 <= cacheTTL -> r = Return (Some "# A") /\ c' = c) /\
        (cacheTTL < now - 0 -> r = Return None /\ c' = delete "a.md" c) /\
        (forall q, q <> "a.md" -> c' !! q = c !! q)) /\
  (forall p tr r c',
      normalizePath p = "a.md" ->
      exec (getFile p c) tr (r, c') ->
      exists now tr', tr = EvNow now :: tr' /\
        (cacheTTL < now - 0 ->
         (r = Throw NotConfigured /\ fetches tr' = []) \/
         exists req out, fetches tr' = [(req, out)])).
Proof.
  exact (cache_ttl_validity {["a.md" := {| content := "# A"; timestamp := 0 |}]} "a.md"
           {| content := "# A"; timestamp := 0 |} eq_refl).
Defined.

(** C10, as the specification words it, fails when the path has an expired
    entry: the lookup that precedes the request evicts it, so the cache
    is not left unchanged. *)
Lemma not_found_evicts_stale_counterexample :
  let c : Cache := {["gone.md" := {| content := "old"; timestamp := 0 |}]} in
  exec (getFile "gone.md" c)
       [EvNow 300001; EvConfig (Some wikiRepo); EvToken None;
        EvFetch (readOf "gone.md") notFound]
       (Return None, ∅) /\
  (∅ : Cache) <> c.
Proof.
  cbv zeta. split; [exec_run |]. intros H.
  apply (f_equal (fun m : Cache => m !! "gone.md")) in H. vm_compute in H. discriminate.
Qed.

(** C10 (amended): when the remote store answers 404, [getFile] returns
    [null] and adds no entry: the cache is left as it was, except that an
    expired entry of that path has been evicted by the lookup before the
    request. No entry that could be served is left for the path, so every
    later [getFile] of it goes to the network again (or fails before the
    request because the repository is no longer configured). *)
Theorem not_found_is_not_cached (p : string) (c : Cache) tr r c' req resp :
  exec (getFile p c) tr (r, c') ->
  In (req, Resolved resp) (fetches tr) -> status resp = 404 ->
  r = Return None /\
  (c' = c \/
   exists e now tr', c !! normalizePath p = Some e /\ tr = EvNow now :: tr' /\
      cacheTTL < now - timestamp e /\ c' = delete (normalizePath p) c) /\
  (forall tr2 r2 c2,
      exec (getFile p c') tr2 (r2, c2) ->
      (r2 = Throw NotConfigured /\ fetches tr2 = []) \/
      exists req2 out2, fetches tr2 = [(req2, out2)]).
Proof.
  intros H Hin H404.
  apply getFile_run in H as (tr1 & tr2 & cached & c1 & -> & H1 & H2).
  pose proof (getFromCache_fetches _ _ _ _ _ H1) as Hf1.
  rewrite fetches_app, Hf1 in Hin. simpl in Hin.
  destruct (truthyStr cached) eqn:Hcached.
  { destruct H2 as (-> & _). destruct Hin. }
  assert (r = Return None /\ c' = c1) as [-> ->].
  { destruct H2 as [(o & -> & _) | (o & tok & rq & out & H & _)]; [destruct Hin |].
    destruct H as [(? & -> & -> & _) | [(rs & -> & _ & _ & -> & -> & ->) |
                  [(rs & -> & _ & Hne & -> & _) | [(rs & e & -> & Hok & _ & -> & _) |
                   (rs & now & s & -> & Hok & _ & -> & _)]]]];
      simpl in Hin; destruct Hin as [E | []]; try discriminate; auto.
    - injection E as _ <-. contradiction.
    - injection E as _ <-. unfold ok in Hok. rewrite H404 in Hok. discriminate.
    - injection E as _ <-. unfold ok in Hok. rewrite H404 in Hok. discriminate. }
  apply exec_getFromCache in H1.
  split; [reflexivity | split].
  - destruct (c !! normalizePath p) as [e|] eqn:He.
    + destruct H1 as (now & -> & H1).
      destruct (now - timestamp e >? cacheTTL) eqn:E; destruct H1 as [_ ->]; [| auto].
      right. exists e, now, tr2. repeat split; auto. lia.
    + destruct H1 as (_ & _ & ->). auto.
  - intros tr3 r3 c3 H3.
    destruct (c1 !! normalizePath p) as [e1|] eqn:He1.
    + assert (content e1 = "") as Hempty.
      { destruct (c !! normalizePath p) as [e|] eqn:He.
        - destruct H1 as (now & _ & H1).
          destruct (now - timestamp e >? cacheTTL); destruct H1 as [E ->].
          + rewrite lookup_delete_eq in He1. discriminate.
          + injection E as ->. rewrite He in He1. injection He1 as <-.
            simpl in Hcached. destruct (content e); [reflexivity | discriminate].
        - destruct H1 as (_ & _ & ->). congruence. }
      destruct (getFile_empty_entry_not_served _ _ _ _ _ _ He1 Hempty H3)
        as (now & tr' & -> & H). simpl. exact H.
    + apply getFile_run in H3 as (tr4 & tr5 & cached' & c4 & -> & H4 & H5).
      apply exec_getFromCache in H4. rewrite He1 in H4.
      destruct H4 as (-> & E & ->). injection E as ->. simpl in H5.
      simpl. eapply afterMiss_fetches. exact H5.
Qed.

Lemma not_found_is_not_cached_witness :
  let c : Cache := {["gone.md" := {| content := "old"; timestamp := 0 |}]} in
  let tr := [EvNow 300001; EvConfig (Some wikiRepo); EvToken None;
             EvFetch (readOf "gone.md") notFound] in
  (Return None : Result (option string)) = Return None /\
  ((∅ : Cache) = c \/
   exists e now tr', c !! normalizePath "gone.md" = Some e /\ tr = EvNow now :: tr' /\
      cacheTTL < now - timestamp e /\ (∅ : Cache) = delete (normalizePath "gone.md") c) /\
  (forall tr2 r2 c2,
      exec (getFile "gone.md" ∅) tr2 (r2, c2) ->
      (r2 = Throw NotConfigured /\ fetches tr2 = []) \/
      exists req2 out2, fetches tr2 = [(req2, out2)]).
Proof.
  apply (not_found_is_not_cached "gone.md"
           {["gone.md" := {| content := "old"; timestamp := 0 |}]}
           [EvNow 300001; EvConfig (Some wikiRepo); EvToken None;
            EvFetch (readOf "gone.md") notFound]
           (Return None) ∅ (readOf "gone.md")
           {| status := 404; text := Return "Not Found";
              json := Return (JObj [("message", JStr "Not Found")]) |}).
  - exec_run.
  - simpl. left. reflexivity.
  - reflexivity.
Defined.


(** Every run of [saveFile]: the token; for a truthy token the two reads
    of the configuration; for a configured repository the read of the
    file's URL; then, unless [btoa] rejects the content, the write. *)
Lemma saveFile_run p content msg (c : Cache) tr r c' :
  exec (saveFile p content msg c) tr (r, c') ->
  exists tok tr', tr = EvToken tok :: tr' /\
    ((truthyStr tok = false /\ tr' = [] /\ r = Throw NotAuthenticated /\ c' = c) \/
     (exists token o1 o2 tr2,
         tok = Some token /\ JsString.truthy token = true /\
         tr' = EvConfig o1 :: EvConfig o2 :: tr2 /\
         ((tr2 = [] /\ r = Throw NotConfigured /\ c' = c) \/
          (exists out sha tr3,
              tr2 = EvFetch (readRequest (apiUrl (configOf o2) (normalizePath p)) token) out
                    :: tr3 /\
              sha = fetchedSha out /\
              match content with
              | Wide _ _ _ => tr3 = [] /\ r = Throw InvalidCharacterError /\ c' = c
              | Latin1 text =>
                  exists out2 tr4,
                    tr3 = EvFetch (writeRequest (apiUrl (configOf o2) (normalizePath p))
                                     token msg text (defaultBranch (configOf o1))
                                     (if truthy sha then Some sha else None)) out2
                          :: tr4 /\
                    fetches tr4 = []
              end)))).
Proof.
  unfold saveFile, getAuthToken, getApiUrl, getConfig, addToCache, btoa. cbv zeta. intros H.
  destruct content as [text|before unit after]; exec_all.
  all: repeat match goal with
         | H : negb _ = true |- _ => apply negb_true_iff in H
         | H : negb _ = false |- _ => apply negb_false_iff in H
         end.
  all: eexists _, _; (split; [reflexivity |]).
  all: try (left; repeat split; simpl; auto; fail).
  all: right; eexists _, _, _, _; (split; [reflexivity |]);
    (split; [assumption |]); (split; [reflexivity |]).
  all: try (left; repeat split; auto; fail).
  all: right; eexists _, _, _; (split; [reflexivity |]).
  all: split;
    [ unfold fetchedSha;
      repeat match goal with
             | H : ?x = _ |- context [?x] => rewrite H
             | H : Return _ = ?x |- context [?x] => rewrite <- H
             | H : Throw _ = ?x |- context [?x] => rewrite <- H
             end; reflexivity | ].
  all: try (repeat split; reflexivity).
  all: eexists _, _; split; reflexivity.
Qed.


(** C6: a [saveFile] call made without a credential raises at once,
    issues no request, and leaves the cache as it is, whatever the content. *)
Theorem saveFile_requires_credential (p : string) (content : FileContent) (msg : string)
    (c : Cache) (tok : option string) :
  truthyStr tok = false ->
  exec (saveFile p content msg c) [EvToken tok] (Throw NotAuthenticated, c) /\
  forall tr r c',
    exec (saveFile p content msg c) (EvToken tok :: tr) (r, c') ->
    tr = [] /\ r = Throw NotAuthenticated /\ c' = c /\ fetches (EvToken tok :: tr) = [].
Proof.
  intros Htok. split.
  - unfold saveFile, getAuthToken. cbv zeta. apply exec_bind.
    exists [EvToken tok], [], (Return tok), c.
    split; [reflexivity | split; [apply exec_authGetToken; eauto |]].
    destruct tok as [s|]; [| apply exec_throw; auto].
    simpl in Htok. rewrite Htok. apply exec_throw; auto.
  - intros tr r c' H. apply saveFile_run in H as (tok' & tr' & E & H).
    injection E as <- <-.
    destruct H as [(_ & -> & -> & ->) | (token & _ & _ & _ & -> & Ht & _)]; [auto |].
    simpl in Htok. congruence.
Qed.

Lemma saveFile_requires_credential_witness :
  exec (saveFile "notes" (Latin1 "# Notes") "Update notes" ∅) [EvToken None]
       (Throw NotAuthenticated, ∅) /\
  forall tr r c',
    exec (saveFile "notes" (Latin1 "# Notes") "Update notes" ∅) (EvToken None :: tr) (r, c') ->
    tr = [] /\ r = Throw NotAuthenticated /\ c' = ∅ /\ fetches (EvToken None :: tr) = [].
Proof.
  exact (saveFile_requires_credential "notes" (Latin1 "# Notes") "Update notes" ∅ None eq_refl).
Defined.


(** An update of an existing page, the creation of a new one, and a
    content [btoa] rejects. *)
Lemma saveFile_update_run :
  exec (saveFile "home" (Latin1 "# Home") "Update home.md" ∅)
    [EvToken (Some "t0k"); EvConfig (Some wikiRepo); EvConfig (Some wikiRepo);
     EvFetch (readRequest homeUrl "t0k") (fileMetadata "3b18e5");
     EvFetch (writeRequest homeUrl "t0k" "Update home.md" "# Home" "main"
                (Some (JStr "3b18e5"))) written;
     EvNow 7]
    (Return (JObj [("commit", JObj [])]),
     {["home.md" := {| content := "# Home"; timestamp := 7 |}]}).
Proof. exec_run. Qed.

Lemma saveFile_create_run :
  exec (saveFile "home" (Latin1 "# Home") "Update home.md" ∅)
    [EvToken (Some "t0k"); EvConfig (Some wikiRepo); EvConfig (Some wikiRepo);
     EvFetch (readRequest homeUrl "t0k") notFound;
     EvFetch (writeRequest homeUrl "t0k" "Update home.md" "# Home" "main" None) written;
     EvNow 7]
    (Return (JObj [("commit", JObj [])]),
     {["home.md" := {| content := "# Home"; timestamp := 7 |}]}).
Proof. exec_run. Qed.

Lemma saveFile_unencodable_run :
  exec (saveFile "home" (Wide "Price: " 8109 []) "Update home.md" ∅)
    [EvToken (Some "t0k"); EvConfig (Some wikiRepo); EvConfig (Some wikiRepo);
     EvFetch (readRequest homeUrl "t0k") (fileMetadata "3b18e5")]
    (Throw InvalidCharacterError, ∅).
Proof. exec_run. Qed.


End ContentServiceFacts.

(** ** Front matter *)

Module FrontMatterFacts.
Import JsString JsStringFacts Text FrontMatter FrontMatterSpec.

Lemma drop_app (p r : string) : drop (String.length p) (p +:+ r) = r.
Proof. induction p as [|c p IH]; simpl; [destruct r; reflexivity | exact IH]. Qed.

Lemma startsWith_drop (s p : string) :
  startsWith s p = true -> s = p +:+ drop (String.length p) s.
Proof.
  intros H. apply startsWith_spec in H as [r ->]. rewrite drop_app. reflexivity.
Qed.

(** What [splitAtFirst] returns is a decomposition around the separator. *)
Lemma splitAtFirst_sound (sep s before after : string) :
  splitAtFirst sep s = Some (before, after) -> s = before +:+ sep +:+ after.
Proof.
  revert before. induction s as [|c s IH]; intros before; simpl.
  - destruct (startsWith "" sep) eqn:E; [| discriminate].
    intros H. injection H as <- <-. apply startsWith_drop in E. exact E.
  - destruct (startsWith (String c s) sep) eqn:E.
    + intros H. injection H as <- <-. apply startsWith_drop in E. exact E.
    + destruct (splitAtFirst sep s) as [[b a]|]; [| discriminate].
      intros H. injection H as <- <-. simpl. f_equal. apply IH. reflexivity.
Qed.

(** And it finds one whenever there is one. *)
Lemma splitAtFirst_complete (sep before after : string) :
  splitAtFirst sep (before +:+ sep +:+ after) <> None.
Proof.
  induction before as [|c b IH]; simpl.
  - assert (E : startsWith (sep +:+ after) sep = true)
      by (apply startsWith_spec; eauto).
    destruct (sep +:+ after); simpl in *; rewrite E; discriminate.
  - destruct (startsWith (String c (b +:+ sep +:+ after)) sep); [discriminate |].
    destruct (splitAtFirst sep (b +:+ sep +:+ after)) as [[x y]|]; [discriminate | exact IH].
Qed.

Lemma matchFrontMatter_sound s yamlText rest :
  matchFrontMatter s = Some (yamlText, rest) ->
  s = opening +:+ yamlText +:+ closing +:+ rest.
Proof.
  unfold matchFrontMatter. destruct (startsWith s opening) eqn:E; [| discriminate].
  intros H. apply splitAtFirst_sound in H. apply startsWith_drop in E.
  rewrite E at 1. rewrite H. reflexivity.
Qed.

Lemma matchFrontMatter_complete s :
  hasFrontMatterBlock s -> matchFrontMatter s <> None.
Proof.
  intros (inner & body & ->). unfold matchFrontMatter.
  assert (E : startsWith (opening +:+ inner +:+ closing +:+ body) opening = true)
    by (apply startsWith_spec; eauto).
  rewrite E, drop_app. apply splitAtFirst_complete.
Qed.

(** C9: a content string that does not begin with a front-matter block
    comes back unchanged as the body, with no metadata. *)
Theorem parseFrontMatter_passthrough (s : string) :
  ~ hasFrontMatterBlock s ->
  parseFrontMatter s = {| metadata := None; content := s |}.
Proof.
  intros Hno. unfold parseFrontMatter.
  destruct (matchFrontMatter s) as [[yamlText rest]|] eqn:E; [| reflexivity].
  exfalso. apply Hno. exists yamlText, rest. apply matchFrontMatter_sound. exact E.
Qed.

Lemma parseFrontMatter_passthrough_witness :
  parseFrontMatter ("# Welcome" +:+ nl +:+ "Hi there")
  = {| metadata := None; content := "# Welcome" +:+ nl +:+ "Hi there" |}.
Proof.
  apply (parseFrontMatter_passthrough ("# Welcome" +:+ nl +:+ "Hi there")).
  intros (inner & body & E). vm_compute in E. discriminate E.
Defined.

(** The converse: with a block, metadata is returned. *)
Lemma parseFrontMatter_block s :
  hasFrontMatterBlock s -> metadata (parseFrontMatter s) <> None.
Proof.
  intros H. apply matchFrontMatter_complete in H. unfold parseFrontMatter.
  destruct (matchFrontMatter s) as [[y r]|]; [discriminate | contradiction].
Qed.

(** In particular the opening line [---] alone decides nothing: a text
    that does not start with it is passed through. *)
Lemma parseFrontMatter_no_opening s :
  startsWith s opening = false ->
  parseFrontMatter s = {| metadata := None; content := s |}.
Proof.
  intros H. apply parseFrontMatter_passthrough. intros (inner & body & ->).
  assert (E : startsWith (opening +:+ inner +:+ closing +:+ body) opening = true)
    by (apply startsWith_spec; eauto).
  congruence.
Qed.

End FrontMatterFacts.

(** ** Search: scoring, ranking and the crawl *)

Module SearchFacts.
Import Js Browser JsString Text FrontMatter SearchService SearchSpec BrowserFacts.

(** *** The sort *)

Lemma insertByScore_In r x l : In x (insertByScore r l) <-> x = r \/ In x l.
Proof.
  induction l as [|y l IH]; simpl; [intuition congruence |].
  destruct (Nat.ltb (res_score r) (res_score y)); simpl; [rewrite IH |]; intuition congruence.
Qed.

Lemma sortByScore_In x l : In x (sortByScore l) <-> In x l.
Proof.
  induction l as [|y l IH]; simpl; [tauto |].
  rewrite insertByScore_In, IH. intuition congruence.
Qed.

Lemma insertByScore_sorted r l :
  StronglySorted descending l -> StronglySorted descending (insertByScore r l).
Proof.
  induction 1 as [|y l Hs IH Hall]; simpl.
  - constructor; constructor.
  - destruct (Nat.ltb (res_score r) (res_score y)) eqn:E.
    + apply Nat.ltb_lt in E. constructor; [exact IH |].
      apply Forall_forall. intros x Hx. apply list_elem_of_In in Hx.
      apply insertByScore_In in Hx as [-> | Hx].
      * unfold descending. lia.
      * rewrite Forall_forall in Hall. apply Hall, list_elem_of_In, Hx.
    + apply Nat.ltb_ge in E. constructor; [constructor; assumption |].
      constructor; [exact E |].
      eapply Forall_impl; [exact Hall |]. unfold descending. intros; simpl in *; lia.
Qed.

Lemma sortByScore_sorted l : StronglySorted descending (sortByScore l).
Proof.
  induction l as [|y l IH]; simpl; [constructor | apply insertByScore_sorted, IH].
Qed.



(** *** The accumulators *)

Lemma hasKey_app k l1 l2 : hasKey k (l1 ++ l2) = hasKey k l1 || hasKey k l2.
Proof. unfold hasKey. apply existsb_app. Qed.

Lemma hasKey_In k l : hasKey k l = true <-> In k (map fst l).
Proof.
  unfold hasKey. rewrite existsb_exists, in_map_iff. split.
  - intros ([p d] & Hin & E). apply String.eqb_eq in E. subst. exists (k, d). auto.
  - intros ([p d] & E & Hin). simpl in E. subst. exists (k, d).
    split; [exact Hin | apply String.eqb_refl].
Qed.


Lemma scoreOf_insert acc p q n :
  match (<[q := n]> (docScores acc)) !! p with Some m => m | None => O end
  = if String.eqb q p then n else scoreOf acc p.
Proof.
  unfold scoreOf. destruct (String.eqb_spec q p) as [-> | Hne].
  - rewrite lookup_insert_eq. reflexivity.
  - rewrite lookup_insert_ne by exact Hne. reflexivity.
Qed.

Lemma scoreIn_single term p doc :
  scoreIn term p [doc] = if hasPath p doc then termScore term doc else O.
Proof. unfold scoreIn. simpl. destruct (hasPath p doc); simpl; lia. Qed.

Lemma scoreDoc_spec term acc doc acc' :
  scoreDoc term acc doc = Return acc' ->
  (forall p, inheritedKey p = false ->
      scoreOf acc' p = (scoreOf acc p + scoreIn term p [doc])%nat) /\
  (forall k, hasKey k (termResults acc')
             = hasKey k (termResults acc) || (negb (inheritedKey k) && hasPath k doc)).
Proof.
  unfold scoreDoc. destruct (doc_title doc) as [title|] eqn:Ht; [| discriminate].
  assert (Hscore : (countMatches term (toLowerCase (doc_content doc))
                    + countMatches term (toLowerCase title) * 3)%nat = termScore term doc).
  { unfold termScore. rewrite Ht. lia. }
  rewrite Hscore. clear Hscore.
  destruct (inheritedKey (doc_path doc)) eqn:Hinh; intros E; injection E as <-.
  - split.
    + intros p Hp. rewrite scoreIn_single. unfold hasPath.
      destruct (String.eqb_spec (doc_path doc) p) as [E | _]; [congruence | lia].
    + intros k. unfold hasPath.
      destruct (String.eqb_spec (doc_path doc) k) as [E | _].
      * rewrite <- E, Hinh. simpl. rewrite orb_false_r. reflexivity.
      * rewrite andb_false_r, orb_false_r. reflexivity.
  - split.
    + intros p Hp. unfold scoreOf at 1. cbn [docScores]. rewrite scoreOf_insert.
      rewrite scoreIn_single. unfold hasPath.
      destruct (String.eqb_spec (doc_path doc) p) as [E | _]; [| lia].
      rewrite E. reflexivity.
    + intros k. cbn [termResults]. unfold hasPath.
      destruct (hasKey (doc_path doc) (termResults acc)) eqn:Hk.
      * destruct (String.eqb_spec (doc_path doc) k) as [E | _].
        -- rewrite <- E, Hk. reflexivity.
        -- rewrite andb_false_r, orb_false_r. reflexivity.
      * rewrite hasKey_app. f_equal. simpl. rewrite orb_false_r.
        destruct (String.eqb_spec (doc_path doc) k) as [E | _].
        -- rewrite <- E, Hinh. reflexivity.
        -- rewrite andb_false_r. reflexivity.
Qed.

Lemma scoreIn_cons term p doc docs :
  scoreIn term p (doc :: docs) = (scoreIn term p [doc] + scoreIn term p docs)%nat.
Proof. unfold scoreIn. simpl. destruct (hasPath p doc); simpl; lia. Qed.

Lemma scoreDocs_spec term docs : forall acc acc',
  scoreDocs term acc docs = Return acc' ->
  (forall p, inheritedKey p = false ->
      scoreOf acc' p = (scoreOf acc p + scoreIn term p docs)%nat) /\
  (forall k, hasKey k (termResults acc')
             = hasKey k (termResults acc)
               || (negb (inheritedKey k) && existsb (hasPath k) docs)).
Proof.
  induction docs as [|doc docs IH]; intros acc acc'; simpl.
  - intros E. injection E as <-. split.
    + intros p _. unfold scoreIn. simpl. lia.
    + intros k. rewrite andb_false_r, orb_false_r. reflexivity.
  - destruct (scoreDoc term acc doc) as [acc1|] eqn:E1; [| discriminate].
    intros E. apply scoreDoc_spec in E1 as [Hs1 Hk1]. apply IH in E as [Hs Hk]. split.
    + intros p Hp. rewrite (Hs p Hp), (Hs1 p Hp), (scoreIn_cons term p doc docs). lia.
    + intros k. rewrite Hk, Hk1. destruct (inheritedKey k); simpl;
        rewrite ?orb_false_r, ?orb_assoc; reflexivity.
Qed.

Lemma matchesOf_postings index term matches :
  matchesOf index term = Return matches -> matches = postings index term.
Proof.
  unfold matchesOf, postings. destruct (index !! term); [congruence |].
  destruct (inheritedKey term); congruence.
Qed.

Lemma scoreTerms_spec index terms : forall acc acc',
  scoreTerms index acc terms = Return acc' ->
  (forall p, inheritedKey p = false ->
      scoreOf acc' p = (scoreOf acc p + accumulatedScore index terms p)%nat) /\
  (forall k, hasKey k (termResults acc')
             = hasKey k (termResults acc)
               || (negb (inheritedKey k) && matchedBy index terms k)).
Proof.
  induction terms as [|term terms IH]; intros acc acc'; simpl.
  - intros E. injection E as <-. split.
    + intros p _. unfold accumulatedScore. simpl. lia.
    + intros k. rewrite andb_false_r, orb_false_r. reflexivity.
  - destruct (matchesOf index term) as [matches|] eqn:Em; [| discriminate].
    apply matchesOf_postings in Em. subst matches.
    destruct (scoreDocs term acc (postings index term)) as [acc1|] eqn:E1; [| discriminate].
    intros E. apply scoreDocs_spec in E1 as [Hs1 Hk1]. apply IH in E as [Hs Hk]. split.
    + intros p Hp. rewrite (Hs p Hp), (Hs1 p Hp). unfold accumulatedScore. simpl. lia.
    + intros k. rewrite Hk, Hk1. destruct (inheritedKey k); simpl;
        rewrite ?orb_false_r, ?orb_assoc; reflexivity.
Qed.

(** *** [Object.keys] lists every key *)

Lemma insertIndex_In n k x l : In x (insertIndex n k l) <-> x = (n, k) \/ In x l.
Proof.
  induction l as [|[m k'] l IH]; simpl; [intuition congruence |].
  destruct (n <? m)%N; simpl; [| rewrite IH]; intuition congruence.
Qed.

Lemma objectKeys_In k l : In k (objectKeys l) <-> In k (map fst l).
Proof.
  unfold objectKeys. generalize (map fst l) as keys. intros keys.
  rewrite in_app_iff, filter_In, in_map_iff.
  assert (Hidx : forall n k',
    In (n, k') (fold_right (fun k acc => match arrayIndex k with
                                         | Some n => insertIndex n k acc
                                         | None => acc
                                         end) [] keys)
    <-> In k' keys /\ arrayIndex k' = Some n).
  { induction keys as [|x keys IH]; intros n k'; simpl; [tauto |].
    destruct (arrayIndex x) as [m|] eqn:Ex.
    - rewrite insertIndex_In, IH. split.
      + intros [E | [H1 H2]]; [injection E as -> ->; auto | auto].
      + intros [[-> | H1] H2]; [left; congruence | auto].
    - rewrite IH. split; [tauto |]. intros [[-> | H1] H2]; [congruence | auto]. }
  split.
  - intros [([n k'] & E & Hin) | [Hin _]]; [| exact Hin].
    simpl in E. subst k'. apply Hidx in Hin. tauto.
  - intros Hin. destruct (arrayIndex k) as [n|] eqn:E.
    + left. exists (n, k). split; [reflexivity | apply Hidx; auto].
    + right. auto.
Qed.


Lemma matchedBy_spec index terms path :
  matchedBy index terms path = true <->
  exists term doc, In term terms /\ In doc (postings index term) /\ doc_path doc = path.
Proof.
  unfold matchedBy. rewrite existsb_exists. split.
  - intros (term & Ht & H). apply existsb_exists in H as (doc & Hd & E).
    apply String.eqb_eq in E. eauto.
  - intros (term & doc & Ht & Hd & E). exists term. split; [exact Ht |].
    apply existsb_exists. exists doc. split; [exact Hd | apply String.eqb_eq, E].
Qed.




(** *** The crawl *)






















End SearchFacts.

(** ** Path normalisation, continued *)

Module PathMoreFacts.
Import JsString JsStringFacts Path PathSpec PathFacts ExtraSpec.

Lemma noLeadingSlash_startsWith s : noLeadingSlash s -> startsWith s "/" = false.
Proof.
  destruct s as [|c s]; [reflexivity |]. unfold noLeadingSlash, isSlash. intros H.
  cbn [startsWith]. rewrite Ascii.eqb_sym, H. reflexivity.
Qed.

Lemma stripLeading_split s :
  exists a, s = a +:+ stripLeadingSlashes s /\ allSlashes a = true.
Proof.
  induction s as [|c s (a & IH & Ha)]; simpl.
  - exists "". auto.
  - destruct (isSlash c) eqn:E.
    + exists (String c a). simpl. rewrite E, Ha. split; [congruence | reflexivity].
    + exists "". auto.
Qed.

Lemma stripTrailing_split s :
  exists b, s = stripTrailingSlashes s +:+ b /\ allSlashes b = true.
Proof.
  induction s as [|c s (b & IH & Hb)]; simpl.
  - exists "". auto.
  - destruct (stripTrailingSlashes s) as [|d r] eqn:E.
    + destruct (isSlash c) eqn:Ec.
      * exists (String c b). simpl in *. rewrite Ec, Hb. split; [congruence | reflexivity].
      * exists b. simpl in *. split; [congruence | exact Hb].
    + exists b. simpl in *. split; [congruence | exact Hb].
Qed.

(** X1: Normalising only removes slashes at the two ends and, where nothing
    else gives the path an extension, appends [.md]: the path is a run of
    slashes, the stripped path and a run of slashes; the result is the
    stripped path, with [.md] exactly when it is not empty and has no dot. *)
Theorem normalizePath_only_ends (p : string) :
  exists a b,
    p = a +:+ stripSlashes p +:+ b /\ allSlashes a = true /\ allSlashes b = true /\
    normalizePath p
    = if truthy (stripSlashes p) && negb (includes p ".")
      then stripSlashes p +:+ ".md" else stripSlashes p.
Proof.
  destruct (stripLeading_split p) as (a & Ha & Hsa).
  destruct (stripTrailing_split (stripLeadingSlashes p)) as (b & Hb & Hsb).
  exists a, b. split; [| split; [exact Hsa | split; [exact Hsb |]]].
  - unfold stripSlashes. rewrite <- Hb. exact Ha.
  - unfold normalizePath. cbv zeta.
    rewrite stripSlashes_endsWith, stripSlashes_includes_dot. simpl.
    rewrite andb_true_r. reflexivity.
Qed.

Lemma endsWith_app_md a : endsWith (a +:+ ".md") "/" = false.
Proof.
  induction a as [|c a IH]; [reflexivity |].
  change (String c a +:+ ".md") with (String c (a +:+ ".md")).
  rewrite endsWith_cons, IH, orb_false_r. apply String.eqb_neq.
  destruct a; discriminate.
Qed.

(** X2: A normalised path never begins or ends with a slash, and unless it is
    empty it holds a dot somewhere, not necessarily in its last segment. *)
Theorem normalizePath_shape (p : string) :
  startsWith (normalizePath p) "/" = false /\
  endsWith (normalizePath p) "/" = false /\
  (normalizePath p = "" \/ includes (normalizePath p) "." = true).
Proof.
  unfold normalizePath. cbv zeta.
  pose proof (stripSlashes_noLeadingSlash p) as Hl.
  pose proof (stripSlashes_endsWith p) as He.
  destruct (truthy (stripSlashes p) && negb (endsWith (stripSlashes p) "/")
            && negb (includes (stripSlashes p) ".")) eqn:G.
  - apply andb_true_iff in G as [G _]. apply andb_true_iff in G as [G _].
    apply truthy_spec in G. split; [| split].
    + apply noLeadingSlash_startsWith, noLeadingSlash_app; assumption.
    + apply endsWith_app_md.
    + right. apply includes_app_l. reflexivity.
  - split; [apply noLeadingSlash_startsWith, Hl | split; [exact He |]].
    rewrite He in G. simpl in G. rewrite andb_true_r in G.
    apply andb_false_iff in G as [G | G].
    + left. destruct (stripSlashes p); [reflexivity | discriminate].
    + right. apply negb_false_iff. exact G.
Qed.

End PathMoreFacts.

(** ** The content service, continued *)

Module ContentServiceMoreFacts.
Import Js Browser JsString Path ContentService ContentServiceSpec ContentListing ExtraSpec.
Import BrowserFacts PathFacts ContentServiceFacts.

Lemma authorized_rawHeaders tok : authorized (rawHeaders tok) = truthyStr tok.
Proof.
  unfold authorized, rawHeaders. destruct tok as [t|]; [| reflexivity].
  simpl. destruct (JsString.truthy t); reflexivity.
Qed.

Lemma authorized_jsonHeaders tok : authorized (jsonHeaders tok) = truthyStr tok.
Proof.
  unfold authorized, jsonHeaders. destruct tok as [t|]; [| reflexivity].
  simpl. destruct (JsString.truthy t); reflexivity.
Qed.

(** The part of a run of [getFile] after the cache lookup, in full. *)
Lemma getFile_network p (c : Cache) tr r c' :
  exec (getFile p c) tr (r, c') ->
  exists tr1 tr2 cached c1,
    tr = tr1 ++ tr2 /\
    exec (getFromCache (normalizePath p) c) tr1 (Return cached, c1) /\
    (tr2 = [] \/
     (exists o, tr2 = [EvConfig o] /\ contentRepo (configOf o) = "") \/
     (exists o tok out tr3,
         tr2 = EvConfig o :: EvToken tok
               :: EvFetch {| url := apiUrl (configOf o) (normalizePath p); method := GET;
                             headers := rawHeaders tok; body := None |} out
               :: tr3 /\
         fetches tr3 = [])).
Proof.
  unfold getFile. cbv zeta. intros H.
  apply exec_bind in H as (tr1 & tr2 & r1 & c1 & -> & H1 & H2).
  assert (exists cached, r1 = Return cached) as [cached ->].
  { apply exec_getFromCache in H1. destruct (c !! normalizePath p).
    - destruct H1 as (now & _ & H1). destruct (_ >? _); destruct H1 as [-> _]; eauto.
    - destruct H1 as (_ & -> & _). eauto. }
  exists tr1, tr2, cached, c1. split; [reflexivity | split; [exact H1 |]].
  clear H1. unfold getApiUrl, getConfig, getAuthToken, addToCache in H2.
  exec_all.
  all: try (left; reflexivity).
  all: try (right; left; eexists; split; [reflexivity |]; unfold configOf;
            match goal with H : negb _ = true |- _ =>
              apply negb_true_iff in H; destruct (contentRepo _);
              [reflexivity | discriminate H] end).
  all: right; right; eexists _, _, _, _; split; reflexivity.
Qed.

(** X3: A call of [getFile] issues at most one request, with no retry: a [GET]
    without body of the contents URL of the normalised path, which carries
    [Authorization] exactly when the token is truthy. *)
Theorem getFile_single_request (p : string) (c : Cache) tr r c' :
  exec (getFile p c) tr (r, c') ->
  (length (fetches tr) <= 1)%nat /\
  forall req out, In (req, out) (fetches tr) ->
    exists o tok,
      In (EvConfig o) tr /\ In (EvToken tok) tr /\
      url req = apiUrl (configOf o) (normalizePath p) /\
      method req = GET /\ body req = None /\
      authorized (headers req) = truthyStr tok.
Proof.
  intros H. apply getFile_network in H as (tr1 & tr2 & cached & c1 & -> & H1 & H2).
  apply getFromCache_fetches in H1. rewrite fetches_app, H1. cbn [app].
  destruct H2 as [-> | [(o & -> & _) | (o & tok & out & tr3 & -> & Hf)]].
  - split; [simpl; lia | intros req out []].
  - split; [simpl; lia | intros req out []].
  - simpl. rewrite Hf. split; [simpl; lia |].
    intros req out' [E | []]. injection E as <- <-. exists o, tok. cbn.
    repeat split.
    + apply in_or_app. right. left. reflexivity.
    + apply in_or_app. right. right. left. reflexivity.
    + apply authorized_rawHeaders.
Qed.

Lemma getFile_single_request_witness :
  let tr := [EvConfig (Some wikiRepo); EvToken (Some "t0k");
             EvFetch {| url := apiUrl wikiRepo "home.md"; method := GET;
                        headers := rawHeaders (Some "t0k"); body := None |} (found "# Home");
             EvNow 5] in
  (length (fetches tr) <= 1)%nat /\
  forall req out, In (req, out) (fetches tr) ->
    exists o tok,
      In (EvConfig o) tr /\ In (EvToken tok) tr /\
      url req = apiUrl (configOf o) (normalizePath "/home") /\
      method req = GET /\ body req = None /\
      authorized (headers req) = truthyStr tok.
Proof.
  cbv zeta.
  eapply (getFile_single_request "/home" ∅ _ (Return (Some "# Home"))
            {["home.md" := {| content := "# Home"; timestamp := 5 |}]}).
  exec_run.
Defined.


(** X4: [getFile] touches no entry other than the one of its normalised path. *)
Theorem getFile_frame (p : string) (c : Cache) tr r c' :
  exec (getFile p c) tr (r, c') ->
  forall q, q <> normalizePath p -> c' !! q = c !! q.
Proof.
  intros H q Hq. apply getFile_run in H as (tr1 & tr2 & cached & c1 & -> & H1 & H2).
  assert (E1 : c1 !! q = c !! q).
  { apply exec_getFromCache in H1. destruct (c !! normalizePath p).
    - destruct H1 as (now & _ & H1). destruct (_ >? _); destruct H1 as [_ ->];
        [apply lookup_delete_ne; congruence | reflexivity].
    - destruct H1 as (_ & _ & ->). reflexivity. }
  rewrite <- E1. destruct (truthyStr cached).
  - destruct H2 as (_ & _ & ->). reflexivity.
  - destruct H2 as [(o & _ & _ & ->) | (o & tok & req & out & H2 & _)]; [reflexivity |].
    destruct H2 as [(? & _ & _ & _ & ->) | [(? & _ & _ & _ & _ & _ & ->)
      | [(? & _ & _ & _ & _ & _ & ->) | [(? & ? & _ & _ & _ & _ & _ & ->)
      | (? & ? & ? & _ & _ & _ & _ & _ & ->)]]]];
      try reflexivity.
    apply lookup_insert_ne. congruence.
Qed.

Lemma getFile_frame_witness :
  ({["home.md" := {| content := "# Home"; timestamp := 5 |};
     "about.md" := {| content := "About"; timestamp := 1 |}]} : Cache) !! "about.md"
  = ({["about.md" := {| content := "About"; timestamp := 1 |}]} : Cache) !! "about.md".
Proof.
  eapply (getFile_frame "/home" {["about.md" := {| content := "About"; timestamp := 1 |}]}
            [EvConfig (Some wikiRepo); EvToken None; EvFetch (readOf "home.md") (found "# Home");
             EvNow 5]
            (Return (Some "# Home"))).
  - exec_run.
  - vm_compute. discriminate.
Defined.

(** X5: A failing [getFile] fails in one of four ways, and adds nothing to
    the cache: no repository is configured, the request itself was
    rejected, the store answered with a status that is neither OK nor 404,
    or the body of an OK response could not be read. *)
Theorem getFile_failure (p : string) (c : Cache) tr e c' :
  exec (getFile p c) tr (Throw e, c') ->
  (e = NotConfigured /\ fetches tr = []
   \/ (exists req reason, fetches tr = [(req, Rejected reason)] /\ e = FetchRejected reason)
   \/ (exists req resp, fetches tr = [(req, Resolved resp)] /\ ok resp = false /\
         status resp <> 404 /\ e = GitHubApiError (status resp) None)
   \/ (exists req resp, fetches tr = [(req, Resolved resp)] /\ ok resp = true /\
         text resp = Throw e))
  /\ forall q x, c' !! q = Some x -> c !! q = Some x.
Proof.
  intros H. apply getFile_run in H as (tr1 & tr2 & cached & c1 & -> & H1 & H2).
  pose proof (getFromCache_fetches _ _ _ _ _ H1) as Hf.
  assert (E1 : forall q x, c1 !! q = Some x -> c !! q = Some x).
  { apply exec_getFromCache in H1. destruct (c !! normalizePath p).
    - destruct H1 as (now & _ & H1). destruct (_ >? _); destruct H1 as [_ ->]; [| auto].
      intros q x Hq. apply lookup_delete_Some in Hq as [_ Hq]. exact Hq.
    - destruct H1 as (_ & _ & ->). auto. }
  rewrite fetches_app, Hf. cbn [app].
  destruct (truthyStr cached); [destruct H2 as (_ & [=] & _) |].
  destruct H2 as [(o & -> & [= ->] & ->) | (o & tok & req & out & H2 & _)].
  { split; [left; split; reflexivity | exact E1]. }
  destruct H2 as [(reason & -> & -> & [= ->] & ->) | [(? & _ & _ & _ & _ & [=] & _)
    | [(resp & -> & Hok & Hst & -> & [= ->] & ->)
    | [(resp & e' & -> & Hok & Ht & -> & [= ->] & ->)
    | (? & ? & ? & _ & _ & _ & _ & [=] & _)]]]].
  - split; [right; left; eexists _, _; split; reflexivity | exact E1].
  - split; [right; right; left; eexists _, _; repeat split; auto | exact E1].
  - split; [right; right; right; eexists _, _; repeat split; auto | exact E1].
Qed.

Lemma getFile_failure_witness :
  let resp := {| status := 200; text := Throw (TypeError "body stream");
                 json := Throw SyntaxError |} in
  let tr := [EvConfig (Some wikiRepo); EvToken None;
             EvFetch (readOf "home.md") (Resolved resp)] in
  let e := TypeError "body stream" in
  (e = NotConfigured /\ fetches tr = []
   \/ (exists req reason, fetches tr = [(req, Rejected reason)] /\ e = FetchRejected reason)
   \/ (exists req resp, fetches tr = [(req, Resolved resp)] /\ ok resp = false /\
         status resp <> 404 /\ e = GitHubApiError (status resp) None)
   \/ (exists req resp, fetches tr = [(req, Resolved resp)] /\ ok resp = true /\
         text resp = Throw e))
  /\ forall q x, (∅ : Cache) !! q = Some x -> (∅ : Cache) !! q = Some x.
Proof.
  cbv zeta. eapply (getFile_failure "home" ∅ _ (TypeError "body stream") ∅). exec_run.
Defined.

(** X6: Storing and reading back: an entry stored at [t1] and read at [t2] is
    served unchanged while [t2 - t1] is within the TTL, and is removed by the
    read after that. *)
Theorem cache_round_trip (path text : string) (c : Cache) tr1 r1 c1 tr2 r2 c2 :
  exec (addToCache path text c) tr1 (r1, c1) ->
  exec (getFromCache path c1) tr2 (r2, c2) ->
  exists t1 t2, tr1 = [EvNow t1] /\ tr2 = [EvNow t2] /\
    (t2 - t1 <= cacheTTL -> r2 = Return (Some text) /\ c2 = c1) /\
    (t2 - t1 > cacheTTL -> r2 = Return None /\ c2 = delete path c).
Proof.
  intros H1 H2. apply exec_addToCache in H1 as (t1 & -> & -> & ->).
  apply exec_getFromCache in H2. rewrite lookup_insert_eq in H2.
  destruct H2 as (t2 & -> & H2). cbn [timestamp content] in H2.
  exists t1, t2. repeat split.
  - destruct (t2 - t1 >? cacheTTL) eqn:E; [lia | apply H2].
  - destruct (t2 - t1 >? cacheTTL) eqn:E; [lia | apply H2].
  - destruct (t2 - t1 >? cacheTTL) eqn:E; [apply H2 | lia].
  - destruct (t2 - t1 >? cacheTTL) eqn:E; [| lia]. destruct H2 as [_ ->].
    apply delete_insert_eq.
Qed.

Lemma cache_round_trip_witness :
  exists t1 t2, [EvNow 1000] = [EvNow t1] /\ [EvNow 2000] = [EvNow t2] /\
    (t2 - t1 <= cacheTTL ->
       Return (Some "# Home") = Return (Some "# Home") /\
       ({["home.md" := {| content := "# Home"; timestamp := 1000 |}]} : Cache)
       = {["home.md" := {| content := "# Home"; timestamp := 1000 |}]}) /\
    (t2 - t1 > cacheTTL ->
       Return (Some "# Home") = (Return None : Result (option string)) /\
       ({["home.md" := {| content := "# Home"; timestamp := 1000 |}]} : Cache)
       = delete "home.md" ∅).
Proof.
  eapply (cache_round_trip "home.md" "# Home" ∅ [EvNow 1000] (Return tt)
            {["home.md" := {| content := "# Home"; timestamp := 1000 |}]}
            [EvNow 2000] (Return (Some "# Home"))
            {["home.md" := {| content := "# Home"; timestamp := 1000 |}]}).
  - exec_run.
  - exec_run.
Defined.

(** What a run of [saveFile] leaves in the cache. *)
Lemma saveFile_cache p content msg (c : Cache) tr r c' :
  exec (saveFile p content msg c) tr (r, c') ->
  match r with
  | Throw _ => c' = c
  | Return v =>
      exists text tr0 wr resp now,
        content = Latin1 text /\
        tr = tr0 ++ [EvFetch wr (Resolved resp); EvNow now] /\
        method wr = PUT /\ ok resp = true /\ json resp = Return v /\
        c' = <[normalizePath p := {| content := text; timestamp := now |}]> c
  end.
Proof.
  unfold saveFile, getAuthToken, getApiUrl, getConfig, addToCache, btoa. cbv zeta. intros H.
  destruct content as [text|before unit after]; exec_all.
  all: try reflexivity.
  all: repeat match goal with
         | H : negb _ = true |- _ => apply negb_true_iff in H
         | H : negb _ = false |- _ => apply negb_false_iff in H
         end.
  all: eexists _, [_; _; _; _], _, _, _; repeat split; eauto.
Qed.


(** X7: A run of [saveFile] changes the cache only when it succeeds, and then by
    exactly the entry of the normalised path: the saved text, stamped with
    the clock read that ends the run. A content [btoa] rejects is never
    stored. *)
Theorem saveFile_cache_effect (p : string) (content : FileContent) (msg : string)
    (c : Cache) tr r c' :
  exec (saveFile p content msg c) tr (r, c') ->
  (forall e, r = Throw e -> c' = c) /\
  (forall v, r = Return v ->
     exists text tr0 now,
       content = Latin1 text /\
       tr = tr0 ++ [EvNow now] /\
       c' !! normalizePath p = Some {| content := text; timestamp := now |} /\
       forall q, q <> normalizePath p -> c' !! q = c !! q).
Proof.
  intros H. apply saveFile_cache in H. split.
  - intros e ->. exact H.
  - intros v ->. destruct H as (text & tr0 & wr & resp & now & -> & -> & _ & _ & _ & ->).
    exists text, (tr0 ++ [EvFetch wr (Resolved resp)]), now. rewrite <- app_assoc.
    split; [reflexivity | split; [reflexivity | split]].
    + apply lookup_insert_eq.
    + intros q Hq. apply lookup_insert_ne. congruence.
Qed.

Lemma saveFile_cache_effect_witness :
  let tr := [EvToken (Some "t0k"); EvConfig (Some wikiRepo); EvConfig (Some wikiRepo);
             EvFetch (readRequest homeUrl "t0k") notFound;
             EvFetch (writeRequest homeUrl "t0k" "Create home" "# Home" "main" None) written;
             EvNow 7] in
  let c' : Cache := {["home.md" := {| content := "# Home"; timestamp := 7 |}]} in
  (forall e, Return (JObj [("commit", JObj [])]) = Throw e -> c' = ∅) /\
  (forall v, Return (JObj [("commit", JObj [])]) = Return v ->
     exists text tr0 now,
       Latin1 "# Home" = Latin1 text /\
       tr = tr0 ++ [EvNow now] /\
       c' !! normalizePath "home" = Some {| content := text; timestamp := now |} /\
       forall q, q <> normalizePath "home" -> c' !! q = (∅ : Cache) !! q).
Proof.
  cbv zeta. eapply (saveFile_cache_effect "home" (Latin1 "# Home") "Create home" ∅). exec_run.
Defined.

(** X8: Read your writes: after a successful save of a non-empty text, a
    [getFile] of any spelling of the same path, within the TTL of the save,
    returns the saved text without a request. *)
Theorem saveFile_then_getFile (p q text msg : string) (c : Cache) tr1 v c1 tr2 r c2 :
  normalizePath q = normalizePath p ->
  text <> "" ->
  exec (saveFile p (Latin1 text) msg c) tr1 (Return v, c1) ->
  exec (getFile q c1) tr2 (r, c2) ->
  exists tr0 t1 t2 tr2',
    tr1 = tr0 ++ [EvNow t1] /\ tr2 = EvNow t2 :: tr2' /\
    (t2 - t1 <= cacheTTL -> tr2' = [] /\ r = Return (Some text) /\ c2 = c1).
Proof.
  intros Hq Hne H1 H2. apply saveFile_cache in H1.
  destruct H1 as (text' & tr0 & wr & resp & t1 & E & -> & _ & _ & _ & ->).
  injection E as <-.
  eapply getFile_fresh_hit in H2; [| rewrite Hq; apply lookup_insert_eq].
  destruct H2 as (t2 & tr2' & -> & H2). cbn [timestamp content] in H2.
  exists (tr0 ++ [EvFetch wr (Resolved resp)]), t1, t2, tr2'. rewrite <- app_assoc.
  split; [reflexivity | split; [reflexivity |]]. intros Hage. apply H2; assumption.
Qed.

Lemma saveFile_then_getFile_witness :
  let c1 : Cache := {["home.md" := {| content := "# Home"; timestamp := 7 |}]} in
  exists tr0 t1 t2 tr2',
    [EvToken (Some "t0k"); EvConfig (Some wikiRepo); EvConfig (Some wikiRepo);
     EvFetch (readRequest homeUrl "t0k") notFound;
     EvFetch (writeRequest homeUrl "t0k" "Create home" "# Home" "main" None) written;
     EvNow 7] = tr0 ++ [EvNow t1] /\
    [EvNow 1000] = EvNow t2 :: tr2' /\
    (t2 - t1 <= cacheTTL ->
     tr2' = [] /\ Return (Some "# Home") = Return (Some "# Home") /\ c1 = c1).
Proof.
  cbv zeta.
  eapply (saveFile_then_getFile "home" "/home.md/" "# Home" "Create home" ∅ _
            (JObj [("commit", JObj [])])
            {["home.md" := {| content := "# Home"; timestamp := 7 |}]}
            [EvNow 1000] (Return (Some "# Home"))
            {["home.md" := {| content := "# Home"; timestamp := 7 |}]}).
  - reflexivity.
  - discriminate.
  - exec_run.
  - exec_run.
Defined.

(** X9: After [clearCache], a [getFile] never answers from memory: it starts
    by reading the configuration. *)
Theorem clearCache_forgets (p : string) (c : Cache) tr0 r0 c0 tr r c' :
  exec (clearCache c) tr0 (r0, c0) ->
  exec (getFile p c0) tr (r, c') ->
  tr0 = [] /\ exists o tr', tr = EvConfig o :: tr'.
Proof.
  unfold clearCache. intros H0 H. apply exec_modify in H0 as (-> & _ & ->).
  split; [reflexivity |].
  apply getFile_run in H as (tr1 & tr2 & cached & c1 & -> & H1 & H2).
  apply exec_getFromCache in H1. rewrite lookup_empty in H1.
  destruct H1 as (-> & E & _). injection E as ->. cbn [truthyStr app] in *.
  destruct H2 as [(o & -> & _) | (o & tok & req & out & H2 & _)]; [eauto |].
  destruct H2 as [(? & _ & -> & _) | [(? & _ & _ & _ & -> & _)
    | [(? & _ & _ & _ & -> & _) | [(? & ? & _ & _ & _ & -> & _)
    | (? & ? & ? & _ & _ & _ & -> & _)]]]]; eauto.
Qed.

Lemma clearCache_forgets_witness :
  ([] : list Event) = [] /\
  exists o tr',
    [EvConfig (Some wikiRepo); EvToken None; EvFetch (readOf "home.md") (found "# Home");
     EvNow 9] = EvConfig o :: tr'.
Proof.
  eapply (clearCache_forgets "home"
            {["home.md" := {| content := "# Old"; timestamp := 8 |}]}
            [] (Return tt) ∅ _ (Return (Some "# Home"))
            {["home.md" := {| content := "# Home"; timestamp := 9 |}]}).
  - exec_run.
  - exec_run.
Defined.

End ContentServiceMoreFacts.

(** ** Directory listings and history *)

Module ContentListingFacts.
Import Js Browser JsString Path ContentService ContentServiceSpec ContentListing ExtraSpec.
Import BrowserFacts PathFacts ContentServiceFacts.

(** Every run of [getDirectoryContents]. *)
Lemma getDirectoryContents_run p (c : Cache) tr r c' :
  exec (getDirectoryContents p c) tr (r, c') ->
  c' = c /\
  ((exists o, tr = [EvConfig o] /\ r = Throw NotConfigured) \/
   (exists o tok out,
       tr = [EvConfig o; EvToken tok;
             EvFetch {| url := apiUrl (configOf o) (normalizePath p); method := GET;
                        headers := jsonHeaders tok; body := None |} out] /\
       match out with
       | Rejected reason => r = Throw (FetchRejected reason)
       | Resolved resp =>
           if ok resp then
             match json resp with
             | Return v => r = Return (asArray v)
             | Throw e => r = Throw e
             end
           else if status resp =? 404 then r = Return []
           else r = Throw (GitHubApiError (status resp) None)
       end)).
Proof.
  unfold getDirectoryContents, getApiUrl, getConfig, getAuthToken. cbv zeta. intros H.
  exec_all.
  all: split; [reflexivity |].
  all: try (left; eexists; split; reflexivity).
  all: right; eexists _, _, _; (split; [reflexivity |]); cbn beta iota.
  all: repeat match goal with
         | H : negb _ = true |- _ => apply negb_true_iff in H
         | H : negb _ = false |- _ => apply negb_false_iff in H
         end.
  all: repeat match goal with H : _ = _ |- _ => rewrite H end; reflexivity.
Qed.


(** X10: The result of [getDirectoryContents] by the answer of the store: a 404
    is the empty listing, any other failure status an error; an OK answer is
    its JSON array, a value that is not an array being wrapped as the only
    item. The cache is never touched. *)
Theorem getDirectoryContents_result (p : string) (c : Cache) tr r c' :
  exec (getDirectoryContents p c) tr (r, c') ->
  c' = c /\ (length (fetches tr) <= 1)%nat /\
  forall req resp, In (req, Resolved resp) (fetches tr) ->
    (status resp = 404 -> r = Return []) /\
    (ok resp = false -> status resp <> 404 ->
       r = Throw (GitHubApiError (status resp) None)) /\
    (forall v, ok resp = true -> json resp = Return v ->
       r = Return (asArray v) /\ ((forall items, v <> JArr items) -> r = Return [v])).
Proof.
  intros H. apply getDirectoryContents_run in H as [-> H]. split; [reflexivity |].
  destruct H as [(o & -> & _) | (o & tok & out & -> & H)].
  { split; [simpl; lia | intros ? ? []]. }
  split; [simpl; lia |]. intros req resp [E | []]. injection E as <- ->.
  split; [| split].
  - intros Hst. unfold ok in H. rewrite Hst in H. exact H.
  - intros Hok Hst. rewrite Hok in H. apply Z.eqb_neq in Hst. rewrite Hst in H. exact H.
  - intros v Hok Hj. rewrite Hok, Hj in H. split; [exact H |].
    intros Hv. rewrite H. destruct v; try reflexivity.
    exfalso. eapply Hv. reflexivity.
Qed.

Lemma getDirectoryContents_result_witness :
  let entry := JObj [("name", JStr "home.md"); ("type", JStr "file")] in
  let tr := [EvConfig (Some wikiRepo); EvToken None;
             EvFetch {| url := apiUrl wikiRepo "home.md"; method := GET;
                        headers := jsonHeaders None; body := None |}
               (Resolved {| status := 200; text := Return ""; json := Return entry |})] in
  (∅ : Cache) = ∅ /\ (length (fetches tr) <= 1)%nat /\
  forall req resp, In (req, Resolved resp) (fetches tr) ->
    (status resp = 404 -> Return [entry] = Return []) /\
    (ok resp = false -> status resp <> 404 ->
       Return [entry] = Throw (GitHubApiError (status resp) None)) /\
    (forall v, ok resp = true -> json resp = Return v ->
       Return [entry] = Return (asArray v) /\
       ((forall items, v <> JArr items) -> Return [entry] = Return [v])).
Proof.
  cbv zeta. eapply (getDirectoryContents_result "home.md" ∅). exec_run.
Defined.

(** X11: [getDirectoryContents] normalises its argument like a file path: the
    listing of a directory whose name has no dot is requested under that
    name with [.md] appended. *)
Theorem getDirectoryContents_requests_md (p : string) (c : Cache) tr r c' :
  exec (getDirectoryContents p c) tr (r, c') ->
  stripSlashes p <> "" -> includes p "." = false ->
  forall req out, In (req, out) (fetches tr) ->
    exists o, In (EvConfig o) tr /\
      url req = apiUrl (configOf o) (stripSlashes p +:+ ".md").
Proof.
  intros H Hne Hdot req out Hin. apply getDirectoryContents_run in H as [_ H].
  destruct H as [(o & -> & _) | (o & tok & out' & -> & _)]; [destruct Hin |].
  destruct Hin as [E | []]. injection E as <- <-. exists o. split; [left; reflexivity |].
  cbn [url]. rewrite (normalizePath_appends p Hne Hdot). reflexivity.
Qed.

Lemma getDirectoryContents_requests_md_witness :
  exists o,
    In (EvConfig o)
       [EvConfig (Some wikiRepo); EvToken None;
        EvFetch {| url := apiUrl wikiRepo "docs.md"; method := GET;
                   headers := jsonHeaders None; body := None |} notFound] /\
    apiUrl wikiRepo "docs.md" = apiUrl (configOf o) (stripSlashes "docs/" +:+ ".md").
Proof.
  apply (getDirectoryContents_requests_md "docs/" ∅
           [EvConfig (Some wikiRepo); EvToken None;
            EvFetch {| url := apiUrl wikiRepo "docs.md"; method := GET;
                       headers := jsonHeaders None; body := None |} notFound]
           (Return []) ∅
           (ltac:(exec_run)) (ltac:(vm_compute; discriminate)) eq_refl
           {| url := apiUrl wikiRepo "docs.md"; method := GET;
              headers := jsonHeaders None; body := None |} notFound).
  left. reflexivity.
Defined.

(** X12: Every run of [getFileHistory]: one request of the commits of the
    normalised path, made even when no repository is configured; every
    status that is not OK, 404 included, is an error; the cache is not
    touched. *)
Theorem getFileHistory_run (p : string) (c : Cache) tr r c' :
  exec (getFileHistory p c) tr (r, c') ->
  c' = c /\
  exists o tok out,
    tr = [EvConfig o; EvToken tok;
          EvFetch {| url := commitsUrl (configOf o) (normalizePath p); method := GET;
                     headers := jsonHeaders tok; body := None |} out] /\
    match out with
    | Rejected reason => r = Throw (FetchRejected reason)
    | Resolved resp =>
        if ok resp then r = json resp
        else r = Throw (GitHubApiError (status resp) None)
    end.
Proof.
  unfold getFileHistory, getConfig, getAuthToken. cbv zeta. intros H.
  exec_all.
  all: split; [reflexivity |].
  all: eexists _, _, _; (split; [reflexivity |]); cbn beta iota.
  all: repeat match goal with
         | H : negb _ = true |- _ => apply negb_true_iff in H
         | H : negb _ = false |- _ => apply negb_false_iff in H
         end.
  all: repeat match goal with H : _ = _ |- _ => rewrite H end; reflexivity.
Qed.

Lemma getFileHistory_run_witness :
  (∅ : Cache) = ∅ /\
  exists o tok out,
    [EvConfig None; EvToken None;
     EvFetch {| url := commitsUrl defaultConfig "home.md"; method := GET;
                headers := jsonHeaders None; body := None |} notFound]
    = [EvConfig o; EvToken tok;
       EvFetch {| url := commitsUrl (configOf o) (normalizePath "home"); method := GET;
                  headers := jsonHeaders tok; body := None |} out] /\
    match out with
    | Rejected reason =>
        (Throw (GitHubApiError 404 None) : Result JsValue) = Throw (FetchRejected reason)
    | Resolved resp =>
        if ok resp then Throw (GitHubApiError 404 None) = json resp
        else (Throw (GitHubApiError 404 None) : Result JsValue)
             = Throw (GitHubApiError (status resp) None)
    end.
Proof.
  eapply (getFileHistory_run "home" ∅). exec_run.
Defined.

End ContentListingFacts.

(** ** The editor: the path generated from a title *)

Module WikiEditorFacts.
Import JsString JsStringFacts Text Path PathSpec PathFacts FrontMatter WikiEditor ExtraSpec.

Lemma allChars_impl (P Q : ascii -> bool) s :
  (forall c, P c = true -> Q c = true) -> allChars P s = true -> allChars Q s = true.
Proof.
  intros HPQ. induction s as [|c s IH]; simpl; [reflexivity |].
  intros H. apply andb_true_iff in H as [Hc Hs]. rewrite (HPQ c Hc), (IH Hs). reflexivity.
Qed.

Lemma allChars_app P a b :
  allChars P (a +:+ b) = allChars P a && allChars P b.
Proof.
  induction a as [|c a IH]; simpl; [reflexivity |]. rewrite IH. apply andb_assoc.
Qed.

(** A lower-cased character kept by [removeSpecial] is a slug character or
    white space. *)
Lemma kept_lower_char c :
  let c' := toLowerChar c in
  isWordChar c' || isSpace c' || Ascii.eqb c' "-" = true ->
  slugChar c' || isSpace c' = true.
Proof.
  destruct c as [[] [] [] [] [] [] [] []]; vm_compute; intros H; first [reflexivity | exact H].
Qed.

Lemma removeSpecial_lower s :
  allChars (fun c => slugChar c || isSpace c) (removeSpecial (toLowerCase s)) = true.
Proof.
  induction s as [|c s IH]; simpl; [reflexivity |].
  destruct (isWordChar (toLowerChar c) || isSpace (toLowerChar c)
            || Ascii.eqb (toLowerChar c) "-") eqn:E; [| exact IH].
  simpl. rewrite (kept_lower_char c E). exact IH.
Qed.

Lemma collapseRuns_cons class c s :
  collapseRuns class (String c s)
  = if class c then
      match s with
      | String d _ => if class d then collapseRuns class s
                      else String "-" (collapseRuns class s)
      | EmptyString => String "-" EmptyString
      end
    else String c (collapseRuns class s).
Proof. reflexivity. Qed.

(** Collapsing the runs of a class leaves the other characters, and
    hyphens. *)
Lemma collapseRuns_chars class (Q : ascii -> bool) s :
  Q "-"%char = true ->
  allChars (fun c => Q c || class c) s = true ->
  allChars Q (collapseRuns class s) = true.
Proof.
  intros Hh. induction s as [|c s IH]; [reflexivity |].
  intros H. simpl in H. apply andb_true_iff in H as [Hc Hs]. specialize (IH Hs).
  rewrite collapseRuns_cons. destruct (class c) eqn:Ec.
  - destruct s as [|d s']; [simpl; rewrite Hh; reflexivity |].
    destruct (class d); [exact IH |].
    change (allChars Q (String "-" ?r)) with (Q "-"%char && allChars Q r).
    rewrite Hh. exact IH.
  - rewrite orb_false_r in Hc.
    change (allChars Q (String c ?r)) with (Q c && allChars Q r).
    rewrite Hc. exact IH.
Qed.

Lemma startsWith_hyphen c r : startsWith (String c r) "-" = isHyphen c.
Proof.
  unfold isHyphen. cbn [startsWith]. rewrite andb_true_r. apply Ascii.eqb_sym.
Qed.

Lemma collapseRuns_head s :
  startsWith (collapseRuns isHyphen s) "-" = true -> startsWith s "-" = true.
Proof.
  destruct s as [|c s]; [discriminate |]. rewrite collapseRuns_cons.
  destruct (isHyphen c) eqn:Ec.
  - intros _. rewrite startsWith_hyphen. exact Ec.
  - rewrite !startsWith_hyphen. trivial.
Qed.

(** After [.replace(/-+/g, '-')] no two hyphens are adjacent. *)
Lemma collapseRuns_single s : includes (collapseRuns isHyphen s) "--" = false.
Proof.
  induction s as [|c s IH]; [reflexivity |].
  rewrite collapseRuns_cons. destruct (isHyphen c) eqn:Ec.
  - destruct s as [|d s']; [reflexivity |].
    destruct (isHyphen d) eqn:Ed; [exact IH |].
    rewrite includes_cons, IH, orb_false_r.
    change (startsWith (String "-" ?r) "--") with (startsWith r "-").
    destruct (startsWith (collapseRuns isHyphen (String d s')) "-") eqn:E; [| reflexivity].
    apply collapseRuns_head in E. rewrite startsWith_hyphen in E. congruence.
  - rewrite includes_cons, IH, orb_false_r.
    change (startsWith (String c ?r) "--") with (Ascii.eqb "-" c && startsWith r "-").
    unfold isHyphen in Ec. rewrite Ascii.eqb_sym, Ec. reflexivity.
Qed.

Lemma slug_no_extension s : allChars slugChar s = true -> endsWith s ".md" = false.
Proof.
  induction s as [|c s IH]; [reflexivity |].
  intros H. simpl in H. apply andb_true_iff in H as [Hc Hs].
  rewrite endsWith_cons, (IH Hs), orb_false_r.
  destruct (String c s =? ".md")%string eqn:E; [| reflexivity].
  apply String.eqb_eq in E. injection E as -> _. discriminate Hc.
Qed.

Lemma slug_noLeadingSlash s : allChars slugChar s = true -> noLeadingSlash s.
Proof.
  destruct s as [|c s]; simpl; [trivial |]. intros H.
  apply andb_true_iff in H as [Hc _].
  destruct (isSlash c) eqn:E; [| reflexivity].
  unfold isSlash in E. apply Ascii.eqb_eq in E as ->. discriminate Hc.
Qed.

(** X13: The page path generated from a title is a slug of lower-case letters,
    digits, underscores and single hyphens followed by [.md], whatever the
    title; [saveFile] uses it as it is, its normalisation changing nothing. *)
Theorem pathFromTitle_slug (title : string) :
  exists slug,
    pathFromTitle title = slug +:+ ".md" /\
    allChars slugChar slug = true /\
    includes slug "--" = false /\
    normalizePath (pathFromTitle title) = pathFromTitle title.
Proof.
  unfold pathFromTitle. cbv zeta.
  set (slug := collapseRuns isHyphen
                 (collapseRuns isSpace (removeSpecial (toLowerCase (trim title))))).
  assert (Hs : allChars slugChar slug = true).
  { apply collapseRuns_chars; [reflexivity |].
    apply allChars_impl with (P := slugChar); [intros c ->; reflexivity |].
    apply collapseRuns_chars; [reflexivity |]. apply removeSpecial_lower. }
  rewrite (slug_no_extension slug Hs).
  exists slug. split; [reflexivity | split; [exact Hs | split]].
  - apply collapseRuns_single.
  - unfold normalizePath. cbv zeta.
    assert (E : stripSlashes (slug +:+ ".md") = slug +:+ ".md").
    { destruct slug as [|c r] eqn:Eslug; [reflexivity |].
      apply stripSlashes_app_md; [discriminate | apply slug_noLeadingSlash, Hs]. }
    rewrite E.
    assert (Hd : includes (slug +:+ ".md") "." = true)
      by (apply includes_app_l; reflexivity).
    rewrite Hd, andb_false_r. reflexivity.
Qed.

End WikiEditorFacts.

(** ** Front matter, continued *)

Module FrontMatterMoreFacts.
Import JsString JsStringFacts Text FrontMatter FrontMatterSpec FrontMatterFacts ExtraSpec.

(** [splitAtFirst] splits at the first occurrence: no decomposition
    around the separator has a shorter first part. *)
Lemma splitAtFirst_first (sep s : string) : forall before after,
  splitAtFirst sep s = Some (before, after) ->
  forall before' after', s = before' +:+ sep +:+ after' ->
    (String.length before <= String.length before')%nat.
Proof.
  induction s as [|c s IH]; intros before after H before' after' Hs.
  - simpl in H. destruct (startsWith "" sep); [| discriminate].
    injection H as <- <-. simpl. lia.
  - cbn [splitAtFirst] in H. destruct (startsWith (String c s) sep) eqn:E.
    + injection H as <- <-. simpl. lia.
    + destruct (splitAtFirst sep s) as [[b a]|] eqn:Es; [| discriminate].
      injection H as <- <-. destruct before' as [|c' b'].
      * exfalso. simpl in Hs. rewrite Hs in E.
        assert (startsWith (sep +:+ after') sep = true) by (apply startsWith_spec; eauto).
        congruence.
      * change (String c' b' +:+ sep +:+ after') with (String c' (b' +:+ sep +:+ after')) in Hs.
        injection Hs as -> Hs. simpl. apply le_n_S. eapply IH; eauto.
Qed.

(** X14: [parseFrontMatter] loses no text: without metadata the content is the
    input; with metadata the input is the opening line, the block, the
    closing line and the content, the block ending at the first closing
    line. *)
Theorem parseFrontMatter_first_closing (s : string) :
  match metadata (parseFrontMatter s) with
  | None => content (parseFrontMatter s) = s
  | Some _ =>
      exists yamlText,
        s = opening +:+ yamlText +:+ closing +:+ content (parseFrontMatter s) /\
        forall yamlText' rest',
          s = opening +:+ yamlText' +:+ closing +:+ rest' ->
          (String.length yamlText <= String.length yamlText')%nat
  end.
Proof.
  unfold parseFrontMatter.
  destruct (matchFrontMatter s) as [[yamlText rest]|] eqn:E; cbn [metadata content];
    [| reflexivity].
  exists yamlText. split; [apply matchFrontMatter_sound, E |].
  intros yamlText' rest' Hs. unfold matchFrontMatter in E.
  destruct (startsWith s opening); [| discriminate].
  eapply splitAtFirst_first; [exact E |]. rewrite Hs. apply drop_app.
Qed.

Lemma splitChar_nonempty sep s : splitChar sep s <> [].
Proof.
  destruct s as [|c s]; simpl; [discriminate |].
  destruct (sep c); [discriminate |]. destruct (splitChar sep s); discriminate.
Qed.

(** A piece ends at the first separator. *)
Lemma splitChar_app sep k c v :
  allChars (fun x => negb (sep x)) k = true -> sep c = true ->
  splitChar sep (k +:+ String c v) = k :: splitChar sep v.
Proof.
  intros Hk Hc. induction k as [|x k IH].
  - simpl. rewrite Hc. reflexivity.
  - simpl in Hk. apply andb_true_iff in Hk as [Hx Hk]. apply negb_true_iff in Hx.
    change (String x k +:+ String c v) with (String x (k +:+ String c v)).
    cbn [splitChar]. rewrite Hx, (IH Hk). reflexivity.
Qed.

Lemma splitChar_none sep s :
  allChars (fun x => negb (sep x)) s = true -> splitChar sep s = [s].
Proof.
  induction s as [|x s IH]; [reflexivity |].
  intros H. simpl in H. apply andb_true_iff in H as [Hx Hs]. apply negb_true_iff in Hx.
  cbn [splitChar]. rewrite Hx, (IH Hs). reflexivity.
Qed.

Lemma join_cons sep p q rest :
  join sep (p :: q :: rest) = p +:+ sep +:+ join sep (q :: rest).
Proof. reflexivity. Qed.

(** Joining the pieces with the separator gives the text back. *)
Lemma join_splitChar c s :
  join (String c "") (splitChar (Ascii.eqb c) s) = s.
Proof.
  induction s as [|x s IH]; [reflexivity |].
  cbn [splitChar]. destruct (Ascii.eqb c x) eqn:E.
  - apply Ascii.eqb_eq in E as <-.
    destruct (splitChar (Ascii.eqb c) s) as [|p rest] eqn:Es;
      [exfalso; eapply splitChar_nonempty; eauto |].
    rewrite join_cons, IH. reflexivity.
  - destruct (splitChar (Ascii.eqb c) s) as [|p rest] eqn:Es;
      [exfalso; eapply splitChar_nonempty; eauto |].
    destruct rest as [|q rest].
    + simpl in *. rewrite IH. reflexivity.
    + rewrite join_cons in *. rewrite <- IH. reflexivity.
Qed.

(** X15: A line is split at its first colon: the key is what precedes it, the
    value all that follows, colons included, both trimmed; a value in
    brackets is read as a list. *)
Theorem parseLine_first_colon (m : Metadata) (key value : string) :
  allChars (fun c => negb (isColon c)) key = true ->
  trim key <> "__proto__" ->
  parseLine m (key +:+ ":" +:+ value)
  = <[trim key :=
        if startsWith (trim value) "[" && endsWith (trim value) "]"
        then Arr (map trim (splitChar isComma (sliceInner (trim value))))
        else Str (trim value)]> m.
Proof.
  intros Hk Hp. unfold parseLine.
  change (":" +:+ value) with (String ":" value).
  rewrite (splitChar_app isColon key ":" value Hk eq_refl).
  destruct (splitChar isColon value) as [|p rest] eqn:Es;
    [exfalso; eapply splitChar_nonempty; eauto |].
  cbv zeta. rewrite <- Es.
  change isColon with (Ascii.eqb ":"). rewrite (join_splitChar ":" value).
  apply String.eqb_neq in Hp. rewrite Hp. reflexivity.
Qed.

Lemma parseLine_first_colon_witness :
  parseLine ∅ ("title" +:+ ":" +:+ " Rocq: the manual ")
  = <["title" := Str "Rocq: the manual"]> ∅.
Proof.
  apply (parseLine_first_colon ∅ "title" " Rocq: the manual ").
  - reflexivity.
  - vm_compute. discriminate.
Defined.

(** A line without a colon sets nothing. *)
Lemma parseLine_no_colon (m : Metadata) (line : string) :
  allChars (fun c => negb (isColon c)) line = true -> parseLine m line = m.
Proof.
  intros H. unfold parseLine. rewrite (splitChar_none isColon line H). reflexivity.
Qed.

End FrontMatterMoreFacts.

(** ** The editor: what a saved page reads back as *)

Module PageFacts.
Import JsString JsStringFacts Text FrontMatter FrontMatterSpec FrontMatterFacts WikiEditor.
Import ExtraSpec WikiEditorFacts FrontMatterMoreFacts.

Lemma lineStartsWithHyphen_cons c s :
  lineStartsWithHyphen (String c s)
  = (isLF c && startsWith s "-") || lineStartsWithHyphen s.
Proof. reflexivity. Qed.

(** The closing line is found right after a block none of whose lines
    begins with a hyphen. *)
Lemma splitAtFirst_closing (yamlText rest : string) :
  lineStartsWithHyphen (yamlText +:+ nl) = false ->
  splitAtFirst closing (yamlText +:+ closing +:+ rest) = Some (yamlText, rest).
Proof.
  induction yamlText as [|c y IH]; intros H.
  - reflexivity.
  - change (String c y +:+ nl) with (String c (y +:+ nl)) in H.
    rewrite lineStartsWithHyphen_cons in H. apply orb_false_iff in H as [Hc Hy].
    change (String c y +:+ closing +:+ rest) with (String c (y +:+ closing +:+ rest)).
    cbn [splitAtFirst].
    assert (E : startsWith (String c (y +:+ closing +:+ rest)) closing = false).
    { change (startsWith ?x closing) with (startsWith x (String LF ("---" +:+ nl))).
      cbn [startsWith]. rewrite (Ascii.eqb_sym LF c). fold (isLF c).
      destruct (isLF c); [| reflexivity].
      cbn [andb] in *. destruct y as [|d y'].
      - reflexivity.
      - change (String d y' +:+ ?r) with (String d (y' +:+ r)) in *.
        rewrite startsWith_hyphen in Hc.
        change (startsWith (String d ?r) ("---" +:+ nl))
          with (Ascii.eqb "-" d && startsWith r ("--" +:+ nl)).
        unfold isHyphen in Hc. rewrite Ascii.eqb_sym, Hc. reflexivity. }
    rewrite E, (IH Hy). reflexivity.
Qed.


Lemma noLF_app a b : noLF (a +:+ b) = noLF a && noLF b.
Proof. apply allChars_app. Qed.

Lemma lineStartsWithHyphen_app a b :
  lineStartsWithHyphen a = false -> lineStartsWithHyphen b = false ->
  startsWith b "-" = false ->
  lineStartsWithHyphen (a +:+ b) = false.
Proof.
  intros Ha Hb Hs. induction a as [|c a IH]; [exact Hb |].
  rewrite lineStartsWithHyphen_cons in Ha. apply orb_false_iff in Ha as [Hc Ha].
  change (String c a +:+ b) with (String c (a +:+ b)).
  rewrite lineStartsWithHyphen_cons, (IH Ha), orb_false_r.
  destruct (isLF c); [| reflexivity]. cbn [andb] in *.
  destruct a as [|d a']; [exact Hs |].
  change (String d a' +:+ b) with (String d (a' +:+ b)).
  rewrite startsWith_hyphen in *. exact Hc.
Qed.

Lemma noLF_line x : noLF x = true -> lineStartsWithHyphen (x +:+ nl) = false.
Proof.
  induction x as [|c x IH]; [reflexivity |].
  intros H. unfold noLF in H. simpl in H. apply andb_true_iff in H as [Hc Hx].
  apply negb_true_iff in Hc.
  change (String c x +:+ nl) with (String c (x +:+ nl)).
  rewrite lineStartsWithHyphen_cons, Hc. exact (IH Hx).
Qed.

(** The pieces of a split, a trimmed text and a joined list keep the
    characters of a class. *)
Lemma allChars_splitChar P sep s :
  allChars P s = true -> forall piece, In piece (splitChar sep s) -> allChars P piece = true.
Proof.
  induction s as [|c s IH]; intros H piece Hin.
  - destruct Hin as [<- | []]. reflexivity.
  - simpl in H. apply andb_true_iff in H as [Hc Hs]. specialize (IH Hs).
    cbn [splitChar] in Hin. destruct (sep c).
    + destruct Hin as [<- | Hin]; [reflexivity | auto].
    + destruct (splitChar sep s) as [|p rest].
      * destruct Hin as [<- | []]. simpl. rewrite Hc. reflexivity.
      * destruct Hin as [<- | Hin].
        -- simpl. rewrite Hc. apply IH. left. reflexivity.
        -- apply IH. right. exact Hin.
Qed.

Lemma allChars_trimStart P s : allChars P s = true -> allChars P (trimStart s) = true.
Proof.
  induction s as [|c s IH]; [reflexivity |]. intros H. cbn [trimStart].
  destruct (isSpace c); [| exact H].
  simpl in H. apply andb_true_iff in H as [_ Hs]. auto.
Qed.

Lemma allChars_trimEnd P s : allChars P s = true -> allChars P (trimEnd s) = true.
Proof.
  induction s as [|c s IH]; [reflexivity |]. intros H.
  simpl in H. apply andb_true_iff in H as [Hc Hs]. specialize (IH Hs).
  cbn [trimEnd]. destruct (trimEnd s) as [|d r].
  - destruct (isSpace c); [reflexivity |]. simpl. rewrite Hc. reflexivity.
  - change (allChars P (String c ?x)) with (P c && allChars P x). rewrite Hc. exact IH.
Qed.

Lemma allChars_trim P s : allChars P s = true -> allChars P (trim s) = true.
Proof. intros H. apply allChars_trimEnd, allChars_trimStart, H. Qed.

Lemma allChars_join P sep l :
  allChars P sep = true -> (forall x, In x l -> allChars P x = true) ->
  allChars P (join sep l) = true.
Proof.
  intros Hsep. induction l as [|p l IH]; intros H; [reflexivity |].
  destruct l as [|q l]; [apply H; left; reflexivity |].
  rewrite join_cons, !allChars_app, Hsep, (H p (or_introl eq_refl)), IH; [reflexivity |].
  intros x Hx. apply H. right. exact Hx.
Qed.

Lemma noLF_today iso : noLF iso = true -> noLF (today iso) = true.
Proof.
  intros H. unfold today.
  pose proof (allChars_splitChar _ isT iso H) as Hp.
  destruct (splitChar isT iso) as [|date rest]; [reflexivity |].
  apply Hp. left. reflexivity.
Qed.

Lemma noLF_tags value : noLF value = true -> noLF (join ", " (tagsOf value)) = true.
Proof.
  intros H. apply allChars_join; [reflexivity |].
  intros x Hx. unfold tagsOf in Hx. apply filter_In in Hx as [Hx _].
  apply in_map_iff in Hx as (piece & <- & Hp).
  apply allChars_trim. eapply allChars_splitChar; eauto.
Qed.

(** The lines of a block, joined by line feeds, are its lines again. *)
Lemma splitChar_join_lines (xs : list string) :
  xs <> [] -> Forall (fun x => noLF x = true) xs ->
  splitChar isLF (join nl xs) = xs.
Proof.
  induction xs as [|x xs IH]; intros Hne Hall; [contradiction |].
  apply Forall_cons in Hall as [Hx Hxs]. destruct xs as [|y xs].
  - apply splitChar_none. exact Hx.
  - rewrite join_cons. change (nl +:+ ?r) with (String LF r).
    rewrite (splitChar_app isLF x LF _ Hx eq_refl). f_equal.
    apply IH; [discriminate | exact Hxs].
Qed.

Lemma entryLine_lineText entry : entryLine entry = lineText entry +:+ nl.
Proof.
  destruct entry as [key [value|items]]; unfold entryLine, lineText;
    rewrite !append_assoc; reflexivity.
Qed.

(** Every line [generateFrontMatter] writes for one-line inputs is a text
    without line feed that does not begin with a hyphen. *)
Lemma metadataOf_lines (f : Form) :
  singleLine (titleValue f) = true -> singleLine (descriptionValue f) = true ->
  singleLine (tagsValue f) = true -> noLF (isoNow f) = true ->
  singleLine (userLogin f) = true ->
  Forall (fun entry => noLF (lineText entry) = true /\
                       startsWith (lineText entry) "-" = false)
         (metadataOf f).
Proof.
  intros Ht Hd Hg Hn Hu.
  assert (Hstr : forall (key value : string),
             noLF key = true -> startsWith (key +:+ ": ") "-" = false -> noLF value = true ->
             noLF (lineText (key, Str value)) = true /\
             startsWith (lineText (key, Str value)) "-" = false).
  { intros key value Hk Hs Hv. unfold lineText. split.
    - rewrite !noLF_app, Hk, Hv. reflexivity.
    - destruct key; [reflexivity | exact Hs]. }
  assert (Hfield : forall (key : string) value,
             noLF key = true -> startsWith (key +:+ ": ") "-" = false ->
             singleLine value = true ->
             Forall (fun entry => noLF (lineText entry) = true /\
                                  startsWith (lineText entry) "-" = false)
                    (field key value)).
  { intros key [v|] Hk Hs Hv; [| constructor]. unfold field.
    destruct (truthy v); constructor; [apply Hstr; assumption | constructor]. }
  unfold metadataOf. repeat apply Forall_app_2.
  - apply Hfield; auto.
  - apply Hfield; auto.
  - destruct (tagsValue f) as [v|]; [| constructor].
    destruct (truthy v); [| constructor].
    destruct (tagsOf v) as [|t ts] eqn:Et; [constructor |].
    constructor; [| constructor]. rewrite <- Et. unfold lineText. split.
    + rewrite !noLF_app, (noLF_tags v Hg). reflexivity.
    + reflexivity.
  - constructor; [| constructor]. apply Hstr; [reflexivity | reflexivity |].
    apply noLF_today, Hn.
  - destruct (truthy (currentPath f)); constructor; [| constructor].
    apply Hstr; [reflexivity | reflexivity |]. apply noLF_today, Hn.
  - apply Hfield; auto.
Qed.

Lemma metadataOf_nonempty (f : Form) : metadataOf f <> [].
Proof.
  unfold metadataOf. intros E. apply app_eq_nil in E as [_ E].
  apply app_eq_nil in E as [_ E]. apply app_eq_nil in E as [_ E]. discriminate E.
Qed.

(** The loop of [generateFrontMatter] writes the lines one after the
    other, each with its line feed. *)
Lemma fold_lines (entries : list (string * Value)) : forall acc,
  entries <> [] ->
  fold_left (fun acc entry => acc +:+ entryLine entry) entries acc
  = acc +:+ join nl (map lineText entries) +:+ nl.
Proof.
  induction entries as [|e rest IH]; intros acc Hne; [contradiction |].
  cbn [fold_left]. destruct rest as [|e' rest'].
  - cbn [fold_left map join]. rewrite entryLine_lineText. reflexivity.
  - rewrite IH by discriminate. cbn [map]. rewrite join_cons, entryLine_lineText.
    rewrite !append_assoc. reflexivity.
Qed.

Lemma startsWith_hyphen_app x r :
  startsWith x "-" = false -> startsWith (x +:+ String LF r) "-" = false.
Proof. destruct x; [reflexivity | trivial]. Qed.

(** No line of the block begins with a hyphen. *)
Lemma lines_no_hyphen (xs : list string) :
  xs <> [] ->
  Forall (fun x => noLF x = true /\ startsWith x "-" = false) xs ->
  lineStartsWithHyphen (join nl xs +:+ nl) = false /\
  startsWith (join nl xs +:+ nl) "-" = false.
Proof.
  induction xs as [|x xs IH]; intros Hne Hall; [contradiction |].
  apply Forall_cons in Hall as [[Hx Hs] Hxs]. destruct xs as [|y xs].
  - cbn [join]. split; [apply noLF_line, Hx | apply startsWith_hyphen_app, Hs].
  - destruct (IH ltac:(discriminate) Hxs) as [IH1 IH2].
    rewrite join_cons, !append_assoc. split.
    + rewrite <- append_assoc.
      apply lineStartsWithHyphen_app; [apply noLF_line, Hx | exact IH1 | exact IH2].
    + apply startsWith_hyphen_app, Hs.
Qed.

(** What a page saved from one-line inputs parses as. *)
Lemma saved_page_parse (f : Form) :
  singleLine (titleValue f) = true -> singleLine (descriptionValue f) = true ->
  singleLine (tagsValue f) = true -> noLF (isoNow f) = true ->
  singleLine (userLogin f) = true ->
  parseFrontMatter (pageContentOf f)
  = {| metadata := Some (fold_left parseLine (map lineText (metadataOf f)) ∅);
       content := nl +:+ editorContent f |}.
Proof.
  intros Ht Hd Hg Hn Hu.
  pose proof (metadataOf_lines f Ht Hd Hg Hn Hu) as Hall.
  pose proof (metadataOf_nonempty f) as Hne.
  set (xs := map lineText (metadataOf f)).
  assert (Hxs : Forall (fun x => noLF x = true /\ startsWith x "-" = false) xs).
  { unfold xs. apply Forall_forall. intros x Hx. apply list_elem_of_In, in_map_iff in Hx
      as (e & <- & He). rewrite Forall_forall in Hall. apply Hall, list_elem_of_In, He. }
  assert (Hxne : xs <> []) by (unfold xs; destruct (metadataOf f); [contradiction | discriminate]).
  destruct (lines_no_hyphen xs Hxne Hxs) as [Hh _].
  assert (E : pageContentOf f
              = opening +:+ join nl xs +:+ closing +:+ nl +:+ editorContent f).
  { unfold pageContentOf, generateFrontMatter, serialize.
    rewrite (fold_lines (metadataOf f) "" Hne). fold xs.
    unfold opening, closing. rewrite !append_assoc. reflexivity. }
  unfold parseFrontMatter, matchFrontMatter. rewrite E.
  assert (Es : startsWith (opening +:+ join nl xs +:+ closing +:+ nl +:+ editorContent f)
                 opening = true) by (apply startsWith_spec; eauto).
  rewrite Es, drop_app, (splitAtFirst_closing (join nl xs) _ Hh).
  rewrite splitChar_join_lines; [reflexivity | exact Hxne |].
  eapply Forall_impl; [exact Hxs |]. intros x [Hx _]. exact Hx.
Qed.

(** X16: A page saved from one-line inputs reads back with the text of the
    editor as its body, after the empty line that ends the block: each
    save and load of a page adds a line feed in front of its text. *)
Theorem saved_page_body (f : Form) :
  singleLine (titleValue f) = true -> singleLine (descriptionValue f) = true ->
  singleLine (tagsValue f) = true -> noLF (isoNow f) = true ->
  singleLine (userLogin f) = true ->
  metadata (parseFrontMatter (pageContentOf f)) <> None /\
  content (parseFrontMatter (pageContentOf f)) = nl +:+ editorContent f.
Proof.
  intros Ht Hd Hg Hn Hu. rewrite (saved_page_parse f Ht Hd Hg Hn Hu).
  cbn [metadata content]. split; [discriminate | reflexivity].
Qed.

Lemma saved_page_body_witness :
  let f := {| titleValue := Some "Getting started"; descriptionValue := Some "";
              tagsValue := Some "guide, intro"; currentPath := "";
              editorContent := "# Getting started";
              isoNow := "2024-05-01T10:00:00.000Z"; userLogin := Some "octocat" |} in
  metadata (parseFrontMatter (pageContentOf f)) <> None /\
  content (parseFrontMatter (pageContentOf f)) = nl +:+ editorContent f.
Proof.
  cbv zeta. apply saved_page_body; reflexivity.
Defined.

(** What a line with a colon changes in the metadata. *)
Lemma parseLine_lookup (m : Metadata) (key value k : string) :
  allChars (fun c => negb (isColon c)) key = true ->
  trim key <> "__proto__" ->
  parseLine m (key +:+ ":" +:+ value) !! k
  = if String.eqb (trim key) k then Some (readValue value) else m !! k.
Proof.
  intros Hk Hp. unfold parseLine.
  change (":" +:+ value) with (String ":" value).
  rewrite (splitChar_app isColon key ":" value Hk eq_refl).
  destruct (splitChar isColon value) as [|p rest] eqn:Es;
    [exfalso; eapply splitChar_nonempty; eauto |].
  cbv zeta. rewrite <- Es.
  change isColon with (Ascii.eqb ":"). rewrite (join_splitChar ":" value).
  apply String.eqb_neq in Hp. rewrite Hp. fold (readValue value).
  destruct (String.eqb (trim key) k) eqn:E.
  - apply String.eqb_eq in E as <-. apply lookup_insert_eq.
  - apply String.eqb_neq in E. apply lookup_insert_ne. exact E.
Qed.

Ltac other_key :=
  intros m;
  match goal with
  | |- parseLine m (lineText (?K, Str ?v)) !! _ = _ =>
      change (lineText (K, Str v)) with (K +:+ ":" +:+ (" " +:+ v))
  | |- parseLine m (lineText (?K, Arr ?l)) !! _ = _ =>
      change (lineText (K, Arr l)) with (K +:+ ":" +:+ (" [" +:+ join ", " l +:+ "]"))
  end;
  rewrite parseLine_lookup; [reflexivity | reflexivity | vm_compute; discriminate].

(** The lines after the title leave the title alone. *)
Lemma metadataOf_other_lines (f : Form) :
  Forall (fun entry => forall m : Metadata,
            parseLine m (lineText entry) !! "title" = m !! "title")
         (field "description" (descriptionValue f) ++
          match tagsValue f with
          | Some v =>
              if truthy v
              then match tagsOf v with
                   | [] => []
                   | tags => [("tags", Arr tags)]
                   end
              else []
          | None => []
          end ++
          [("updated", Str (today (isoNow f)))] ++
          (if truthy (currentPath f) then [] else [("created", Str (today (isoNow f)))]) ++
          field "author" (userLogin f)).
Proof.
  repeat apply Forall_app_2.
  - unfold field. destruct (descriptionValue f) as [v|]; [| constructor].
    destruct (truthy v); constructor; [other_key | constructor].
  - destruct (tagsValue f) as [v|]; [| constructor].
    destruct (truthy v); [| constructor].
    destruct (tagsOf v) as [|t ts]; [constructor |].
    constructor; [other_key | constructor].
  - constructor; [other_key | constructor].
  - destruct (truthy (currentPath f)); constructor; [other_key | constructor].
  - unfold field. destruct (userLogin f) as [v|]; [| constructor].
    destruct (truthy v); constructor; [other_key | constructor].
Qed.

Lemma fold_parseLine_keeps (ls : list string) (k : string) : forall m : Metadata,
  Forall (fun line => forall m : Metadata, parseLine m line !! k = m !! k) ls ->
  fold_left parseLine ls m !! k = m !! k.
Proof.
  induction ls as [|l ls IH]; intros m Hall; [reflexivity |].
  apply Forall_cons in Hall as [Hl Hls]. cbn [fold_left]. rewrite IH by exact Hls. apply Hl.
Qed.

(** X30: The title of a page saved from one-line inputs reads back as the
    title typed, trimmed; a title in square brackets reads back as a list,
    not as a text. *)
Theorem saved_page_title (f : Form) (title : string) :
  titleValue f = Some title -> title <> "" -> noLF title = true ->
  singleLine (descriptionValue f) = true ->
  singleLine (tagsValue f) = true -> noLF (isoNow f) = true ->
  singleLine (userLogin f) = true ->
  exists m,
    metadata (parseFrontMatter (pageContentOf f)) = Some m /\
    m !! "title" = Some (readValue title).
Proof.
  intros Ht Hne Hnl Hd Hg Hn Hu.
  rewrite (saved_page_parse f); try assumption; [| rewrite Ht; exact Hnl].
  eexists. split; [reflexivity |].
  unfold metadataOf. rewrite Ht. unfold field at 1.
  apply truthy_spec in Hne. rewrite Hne. cbn [app map fold_left].
  rewrite fold_parseLine_keeps.
  - change (lineText ("title", Str title)) with ("title" +:+ ":" +:+ (" " +:+ title)).
    rewrite parseLine_lookup; [reflexivity | reflexivity | vm_compute; discriminate].
  - pose proof (metadataOf_other_lines f) as Hall.
    rewrite Forall_forall in Hall. apply Forall_forall. intros line Hline.
    apply list_elem_of_In, in_map_iff in Hline as (e & <- & He).
    apply Hall, list_elem_of_In, He.
Qed.

Lemma saved_page_title_witness :
  let f := {| titleValue := Some " Getting started: part 1 "; descriptionValue := None;
              tagsValue := Some "guide, intro"; currentPath := "";
              editorContent := "# Getting started";
              isoNow := "2024-05-01T10:00:00.000Z"; userLogin := Some "octocat" |} in
  exists m,
    metadata (parseFrontMatter (pageContentOf f)) = Some m /\
    m !! "title" = Some (Str "Getting started: part 1").
Proof.
  cbv zeta.
  apply (saved_page_title _ " Getting started: part 1 "); first [reflexivity | discriminate].
Defined.

End PageFacts.

(** ** The crawl keeps the index sound *)

Module CrawlFacts.
Import Js Browser JsString Text FrontMatter SearchService SearchSpec IndexSpec.
Import BrowserFacts SearchFacts.

Lemma sound_empty : sound ∅.
Proof. intros token l H. rewrite lookup_empty in H. discriminate H. Qed.

Lemma postToken_sound doc token s tr r s' :
  exec (postToken doc token s) tr (r, s') ->
  In token (tokenize (doc_content doc)) ->
  soundState s -> soundState s' /\ indexedFiles s' = indexedFiles s /\ tr = [].
Proof.
  unfold postToken. intros H Ht (index & Hi & Hs). exec_inv. rewrite Hi in H.
  destruct (index !! token) as [l|] eqn:El.
  - destruct (Hs token l El) as (Hk & Hne & Hnd & Hdocs).
    destruct (existsb _ l) eqn:Ex; exec_inv.
    + split; [exists index; auto | auto].
    + split; [| auto]. eexists. split; [reflexivity |].
      intros t l' Hl'. apply lookup_insert_Some in Hl' as [[<- <-] | [Hne' Hl']];
        [| exact (Hs t l' Hl')].
      split; [exact Hk | split; [| split]].
      * destruct l; discriminate.
      * rewrite map_app. apply NoDup_app. split; [exact Hnd | split].
        -- intros p Hp Hp'. apply list_elem_of_In in Hp. apply list_elem_of_In in Hp'.
           destruct Hp' as [<- | []]. apply in_map_iff in Hp as (d & Hd & Hin).
           assert (existsb (fun item => (doc_path item =? doc_path doc)%string) l = true).
           { apply existsb_exists. exists d. split; [exact Hin |]. apply String.eqb_eq, Hd. }
           congruence.
        -- apply NoDup_singleton.
      * intros d Hd. apply in_app_or in Hd as [Hd | [<- | []]]; [apply Hdocs, Hd | exact Ht].
  - exec_inv.
    + split; [exists index; auto | auto].
    + split; [| auto]. eexists. split; [reflexivity |].
      intros t l' Hl'. apply lookup_insert_Some in Hl' as [[<- <-] | [Hne' Hl']];
        [| exact (Hs t l' Hl')].
      split; [| split; [discriminate | split]].
      * match goal with H : negb _ = true |- _ => apply negb_true_iff in H; exact H
                   | H : inheritedKey _ = false |- _ => exact H end.
      * apply NoDup_singleton.
      * intros d [<- | []]. exact Ht.
Qed.


Lemma postTokens_sound doc tokens : forall s tr r s',
  exec (forEach tokens (postToken doc) s) tr (r, s') ->
  (forall token, In token tokens -> In token (tokenize (doc_content doc))) ->
  soundState s -> soundState s' /\ indexedFiles s' = indexedFiles s /\ tr = [].
Proof.
  induction tokens as [|token tokens IH]; intros s tr r s' H Ht Hs; simpl in H.
  - exec_inv. auto.
  - apply exec_bind in H as (tr1 & tr2 & r1 & s1 & -> & H1 & H2).
    destruct (postToken_sound _ _ _ _ _ _ H1 (Ht token (or_introl eq_refl)) Hs)
      as (Hs1 & Hf1 & ->).
    destruct r1 as [[]|e].
    + destruct (IH _ _ _ _ H2 (fun t Hin => Ht t (or_intror Hin)) Hs1) as (Hs2 & Hf2 & ->).
      split; [exact Hs2 | split; [congruence | reflexivity]].
    + destruct H2 as (-> & -> & ->). auto.
Qed.

(** [indexFile] keeps the index sound, and marks at most its own path. *)
Lemma indexFile_sound path s tr r s' :
  exec (indexFile path s) tr (r, s') -> soundState s ->
  soundState s' /\
  (indexedFiles s' = indexedFiles s \/ indexedFiles s' = {[path]} ∪ indexedFiles s).
Proof.
  unfold indexFile. intros H Hs. exec_inv; [auto |].
  exec_all.
  all: try match goal with
    | H : exec (forEach _ _ _) _ _ |- _ =>
        eapply postTokens_sound in H as (Hs' & Hf & ->); [| auto | exact Hs]
    end.
  all: exec_all.
  all: try (split; [assumption | left; assumption]).
  all: try (split; [assumption | left; reflexivity]).
  all: destruct Hs' as (index' & Hi' & Hsound).
  all: split; [exists index'; split; [exact Hi' | exact Hsound] |].
  all: right; cbn; rewrite Hf; reflexivity.
Qed.

Section Preserved.
Variable P : State -> Prop.
Hypothesis indexFile_preserves :
  forall path s tr r s', exec (indexFile path s) tr (r, s') -> P s -> P s'.

Lemma indexItems_preserved (recurse : string -> M State unit) :
  (forall p s tr r s', exec (recurse p s) tr (r, s') -> P s -> P s') ->
  forall items s tr r s',
    exec (forEach items (fun item =>
            if isSpecialFile item then ret tt
            else if isDirectory item then recurse (Browser.path item)
            else if isMarkdownFile item then indexFile (Browser.path item)
            else ret tt) s) tr (r, s') ->
    P s -> P s'.
Proof.
  intros Hrec. induction items as [|item items IH]; intros s tr r s' H Hs.
  - simpl in H. exec_inv. exact Hs.
  - cbn [forEach] in H. apply exec_bind in H as (tr1 & tr2 & r1 & s1 & -> & H1 & H2).
    assert (Hs1 : P s1).
    { destruct (isSpecialFile item); [| destruct (isDirectory item);
        [| destruct (isMarkdownFile item)]].
      - exec_inv. exact Hs.
      - eapply Hrec; eassumption.
      - eapply indexFile_preserves; eassumption.
      - exec_inv. exact Hs. }
    destruct r1 as [[]|e].
    + eapply IH; eassumption.
    + destruct H2 as (_ & _ & ->). exact Hs1.
Qed.

Lemma indexDirectoryBody_preserved (recurse : string -> M State unit) :
  (forall p s tr r s', exec (recurse p s) tr (r, s') -> P s -> P s') ->
  forall path s tr r s',
    exec (indexDirectoryBody recurse path s) tr (r, s') -> P s -> P s'.
Proof.
  intros Hrec path s tr r s' H Hs. unfold indexDirectoryBody in H.
  apply exec_bind in H as (tr1 & tr2 & r1 & s1 & -> & H1 & H2).
  apply exec_contentAvailable in H1 as (b & -> & -> & ->). cbn beta iota in H2.
  destruct b; cbn [negb] in H2; [| exec_inv; exact Hs].
  apply exec_tryCatch in H2 as (tr3 & tr4 & r3 & s3 & -> & H3 & H4).
  apply exec_bind in H3 as (tr5 & tr6 & r5 & s5 & -> & H5 & H6).
  apply exec_contentGetDirectoryContents in H5 as (-> & ->).
  assert (Hs3 : P s3).
  { destruct r5 as [items|e].
    - eapply indexItems_preserved; eassumption.
    - destruct H6 as (_ & _ & ->). exact Hs. }
  destruct r3; [destruct H4 as (_ & _ & ->) | exec_inv]; exact Hs3.
Qed.

Lemma indexDirectory_preserved depth : forall path s tr r s',
  exec (indexDirectory depth path s) tr (r, s') -> P s -> P s'.
Proof.
  induction depth as [|depth IH]; intros path s tr r s' H Hs.
  - change (indexDirectory 0 path)
      with (indexDirectoryBody (fun _ : string => throw (S := State) OutOfFuel) path) in H.
    eapply indexDirectoryBody_preserved; [| exact H | exact Hs].
    intros p s0 tr0 r0 s0' H0 Hs0. cbn beta in H0.
    apply exec_throw in H0 as (_ & _ & ->). exact Hs0.
  - change (indexDirectory (S depth) path)
      with (indexDirectoryBody (indexDirectory depth) path) in H.
    eapply indexDirectoryBody_preserved; [exact IH | exact H | exact Hs].
Qed.

End Preserved.

(** Every run of [initSearchIndex]. *)
Lemma initSearchIndex_run depth s tr r s' :
  exec (initSearchIndex depth s) tr (r, s') ->
  r = Return tt /\
  if match searchIndex s with Some _ => true | None => false end || isIndexing s
  then tr = [] /\ s' = s
  else isIndexing s' = false /\ soundState s' /\ indexedFiles s ⊆ indexedFiles s'.
Proof.
  unfold initSearchIndex. intros H.
  apply exec_bind in H as (tr0 & tr' & r0 & s0 & -> & H0 & H).
  apply exec_get in H0 as (-> & -> & ->). cbn beta iota delta [app] in H |- *.
  destruct (match searchIndex s with Some _ => true | None => false end || isIndexing s);
    [exec_inv; auto |].
  apply exec_bind in H as (tr1 & tr2 & r1 & s1 & -> & H1 & H2).
  apply exec_modify in H1 as (-> & -> & ->).
  apply exec_bind in H2 as (tr3 & tr4 & r3 & s3 & -> & H3 & H4).
  apply exec_tryCatch in H3 as (tr5 & tr6 & r5 & s5 & -> & H5 & H6).
  set (P := fun st : State => soundState st /\ indexedFiles s ⊆ indexedFiles st).
  assert (Hs5 : P s5).
  { eapply (indexDirectory_preserved P); [| exact H5 |].
    - intros path s0 tr0 r0 s0' H0 [Hs0 Hsub].
      destruct (indexFile_sound _ _ _ _ _ H0 Hs0) as [Hs0' [Hf | Hf]];
        (split; [exact Hs0' | rewrite Hf]); [exact Hsub |].
      intros x Hx. apply elem_of_union. right. apply Hsub, Hx.
    - split; [exists ∅; split; [reflexivity | apply sound_empty] | reflexivity]. }
  assert (r3 = Return tt /\ s3 = s5) as [-> ->].
  { destruct r5 as [[]|e]; [destruct H6 as (_ & -> & ->) | exec_inv]; auto. }
  apply exec_modify in H4 as (-> & -> & ->).
  destruct Hs5 as [(index & Hi & Hsound) Hsub].
  split; [reflexivity | split; [reflexivity | split]].
  - exists index. split; [exact Hi | exact Hsound].
  - exact Hsub.
Qed.


(** X17: Building the index never fails, whatever the crawl meets, and leaves
    the service idle with a sound index: keys that are no inherited
    property names, and non-empty posting lists without a repeated path,
    of documents that have the key among the tokens of their body. *)
Theorem initSearchIndex_builds_sound_index (depth : nat) (s : State) tr r s' :
  searchIndex s = None -> isIndexing s = false ->
  exec (initSearchIndex depth s) tr (r, s') ->
  r = Return tt /\ isIndexing s' = false /\
  (exists index, searchIndex s' = Some index /\ sound index) /\
  indexedFiles s ⊆ indexedFiles s'.
Proof.
  intros Hi Hb H. apply initSearchIndex_run in H as [-> H].
  rewrite Hi, Hb in H. cbn in H. destruct H as (Hb' & Hs & Hsub). auto.
Qed.

Lemma initSearchIndex_builds_sound_index_witness :
  Return tt = Return tt /\ isIndexing crawledTwo = false /\
  (exists index, searchIndex crawledTwo = Some index /\ sound index) /\
  indexedFiles initial ⊆ indexedFiles crawledTwo.
Proof.
  apply (initSearchIndex_builds_sound_index 1 initial
           [EvContent true; EvGetDir "" (Return [file "a.md"; file "b.md"]);
            EvGetFile "a.md" (Return (Some pageZebra));
            EvGetFile "b.md" (Return (Some pageRoad))]).
  - reflexivity.
  - reflexivity.
  - exec_run.
Defined.

(** X18: The index is built once: a call of [initSearchIndex] that follows
    another does nothing. *)
Theorem initSearchIndex_once (depth depth' : nat) (s : State) tr1 r1 s1 tr2 r2 s2 :
  exec (initSearchIndex depth s) tr1 (r1, s1) ->
  exec (initSearchIndex depth' s1) tr2 (r2, s2) ->
  tr2 = [] /\ r2 = Return tt /\ s2 = s1.
Proof.
  intros H1 H2. apply initSearchIndex_run in H1 as [_ H1].
  apply initSearchIndex_run in H2 as [-> H2].
  destruct (match searchIndex s with Some _ => true | None => false end || isIndexing s)
    eqn:E.
  - destruct H1 as [_ ->]. rewrite E in H2. destruct H2 as [-> ->]. auto.
  - destruct H1 as (_ & (index & Hi & _) & _). rewrite Hi in H2. cbn in H2.
    destruct H2 as [-> ->]. auto.
Qed.

Lemma initSearchIndex_once_witness :
  ([] : list Event) = [] /\ Return tt = Return tt /\ crawledTwo = crawledTwo.
Proof.
  apply (initSearchIndex_once 1 1 initial
           [EvContent true; EvGetDir "" (Return [file "a.md"; file "b.md"]);
            EvGetFile "a.md" (Return (Some pageZebra));
            EvGetFile "b.md" (Return (Some pageRoad))]
           (Return tt) crawledTwo [] (Return tt) crawledTwo).
  - exec_run.
  - exec_run.
Defined.

End CrawlFacts.

(** ** Tokens *)

Module TokenFacts.
Import Js JsString JsStringFacts Text FrontMatter SearchService SearchSpec IndexSpec ExtraSpec.
Import WikiEditorFacts.

Lemma dedupe_In seen words w :
  In w (dedupe seen words) <-> In w words /\ ~ In w seen.
Proof.
  revert seen. induction words as [|x words IH]; intros seen; simpl; [tauto |].
  destruct (existsb (String.eqb x) seen) eqn:E.
  - rewrite IH. apply existsb_exists in E as (y & Hy & Exy).
    apply String.eqb_eq in Exy as <-. intuition congruence.
  - assert (Hx : ~ In x seen).
    { intros Hin. apply not_true_iff_false in E. apply E, existsb_exists.
      exists x. split; [exact Hin | apply String.eqb_refl]. }
    simpl. rewrite IH. simpl. split.
    + intros [<- | (Hw & Hn)]; [auto |]. split; [auto |]. intros Hs. apply Hn. auto.
    + intros ([<- | Hw] & Hn); [auto |]. destruct (string_dec x w) as [<- | Hne]; [auto |].
      right. split; [exact Hw |]. intros [? | ?]; [congruence | auto].
Qed.

Lemma dedupe_NoDup seen words : NoDup (dedupe seen words).
Proof.
  revert seen. induction words as [|x words IH]; intros seen; simpl; [constructor |].
  destruct (existsb (String.eqb x) seen); [apply IH |].
  constructor; [| apply IH]. intros Hin. apply list_elem_of_In, dedupe_In in Hin as [_ Hn].
  apply Hn. left. reflexivity.
Qed.

Lemma allChars_mapChars P f s :
  (forall c, P (f c) = true) -> allChars P (mapChars f s) = true.
Proof.
  intros H. induction s as [|c s IH]; simpl; [reflexivity |]. rewrite H, IH. reflexivity.
Qed.

Lemma mapChars_mapChars f g s : mapChars f (mapChars g s) = mapChars (fun c => f (g c)) s.
Proof. induction s as [|c s IH]; simpl; [reflexivity | rewrite IH; reflexivity]. Qed.

(** A lower-cased character is, once the special characters are blanked,
    white space or a token character. *)
Lemma blank_lower_char c :
  let c' := blankSpecial (toLowerChar c) in
  tokenChar c' || isSpace c' = true.
Proof.
  destruct c as [[] [] [] [] [] [] [] []]; vm_compute; reflexivity.
Qed.

Lemma splitSpaces_cons c s :
  splitSpaces (String c s)
  = if isSpace c then
      match s with
      | String d _ => if isSpace d then splitSpaces s else EmptyString :: splitSpaces s
      | EmptyString => EmptyString :: splitSpaces s
      end
    else match splitSpaces s with
         | piece :: rest => String c piece :: rest
         | [] => [String c EmptyString]
         end.
Proof. reflexivity. Qed.

(** The pieces between the runs of white space hold no white space. *)
Lemma splitSpaces_chars (Q : ascii -> bool) s :
  allChars (fun c => Q c || isSpace c) s = true ->
  forall piece, In piece (splitSpaces s) -> allChars Q piece = true.
Proof.
  induction s as [|c s IH]; intros H piece Hin.
  - destruct Hin as [<- | []]. reflexivity.
  - simpl in H. apply andb_true_iff in H as [Hc Hs]. specialize (IH Hs).
    rewrite splitSpaces_cons in Hin. destruct (isSpace c) eqn:Ec.
    + destruct s as [|d s'].
      * destruct Hin as [<- | [<- | []]]; reflexivity.
      * destruct (isSpace d); [auto |]. destruct Hin as [<- | Hin]; [reflexivity | auto].
    + rewrite orb_false_r in Hc. destruct (splitSpaces s) as [|p rest].
      * destruct Hin as [<- | []]. simpl. rewrite Hc. reflexivity.
      * destruct Hin as [<- | Hin].
        -- simpl. rewrite Hc. apply IH. left. reflexivity.
        -- apply IH. right. exact Hin.
Qed.

Lemma words_chars text word :
  In word (words text) ->
  (3 <= String.length word)%nat /\ allChars tokenChar word = true.
Proof.
  intros Hin. unfold words in Hin. apply filter_In in Hin as [Hin Hlen].
  apply andb_true_iff in Hlen as [_ Hlen]. apply Nat.ltb_lt in Hlen.
  split; [lia |].
  eapply splitSpaces_chars; [| exact Hin].
  unfold toLowerCase. rewrite mapChars_mapChars.
  apply allChars_mapChars. intros c. apply blank_lower_char.
Qed.

Lemma tokenize_chars text token :
  In token (tokenize text) ->
  (3 <= String.length token)%nat /\ allChars tokenChar token = true.
Proof.
  intros Hin. apply dedupe_In in Hin as [Hin _]. exact (words_chars text token Hin).
Qed.

(** X19: The tokens of a text are distinct words of at least three characters,
    each a lower-case letter, a digit or an underscore: indexing and
    searching ignore case, punctuation and short words. *)
Theorem tokenize_tokens (text : string) :
  NoDup (tokenize text) /\
  forall token, In token (tokenize text) ->
    (3 <= String.length token)%nat /\ allChars tokenChar token = true.
Proof.
  split; [apply dedupe_NoDup | apply tokenize_chars].
Qed.

(** The first piece is a prefix of the text, and is empty when the text
    begins with white space. *)
Lemma splitSpaces_head s : forall p rest,
  splitSpaces s = p :: rest ->
  (exists b, s = p +:+ b) /\
  (match s with String c _ => isSpace c = true | EmptyString => False end -> p = "").
Proof.
  induction s as [|c s IH]; intros p rest H.
  - injection H as <- <-. split; [exists ""; reflexivity | intros []].
  - rewrite splitSpaces_cons in H. destruct (isSpace c) eqn:Ec.
    + assert (Hp : p = "").
      { destruct s as [|d s']; [injection H as <- _; reflexivity |].
        destruct (isSpace d) eqn:Ed; [| injection H as <- _; reflexivity].
        apply (IH p rest H). reflexivity. }
      subst p. split; [eexists; reflexivity | reflexivity].
    + split; [| congruence].
      destruct (splitSpaces s) as [|p' rest'] eqn:Es.
      * injection H as <- <-. exists s. reflexivity.
      * injection H as <- <-. destruct (IH p' rest' eq_refl) as [[b Hb] _].
        exists b. simpl. rewrite <- Hb. reflexivity.
Qed.

(** Every piece is a part of the text. *)
Lemma splitSpaces_part s : forall piece,
  In piece (splitSpaces s) -> exists a b, s = a +:+ piece +:+ b.
Proof.
  induction s as [|c s IH]; intros piece Hin.
  - destruct Hin as [<- | []]. exists "", "". reflexivity.
  - assert (Htail : forall q, In q (splitSpaces s) -> exists a b, String c s = a +:+ q +:+ b).
    { intros q Hq. destruct (IH q Hq) as (a & b & Hab). exists (String c a), b.
      simpl. rewrite <- Hab. reflexivity. }
    rewrite splitSpaces_cons in Hin. destruct (isSpace c) eqn:Ec.
    + assert (Hempty : exists a b, String c s = a +:+ "" +:+ b)
        by (exists "", (String c s); reflexivity).
      destruct s as [|d s']; [destruct Hin as [<- | Hin]; auto |].
      destruct (isSpace d); [auto |]. destruct Hin as [<- | Hin]; auto.
    + destruct (splitSpaces s) as [|p rest] eqn:Es.
      * destruct Hin as [<- | []]. exists "", s. reflexivity.
      * destruct Hin as [<- | Hin]; [| apply Htail; right; exact Hin].
        destruct (splitSpaces_head s p rest Es) as [[b Hb] _].
        exists "", b. simpl. rewrite <- Hb. reflexivity.
Qed.

Lemma mapChars_app_inv f s : forall a b,
  mapChars f s = a +:+ b ->
  exists a0 b0, s = a0 +:+ b0 /\ mapChars f a0 = a /\ mapChars f b0 = b.
Proof.
  induction s as [|c s IH]; intros a b H.
  - destruct a; [| discriminate H]. destruct b; [| discriminate H].
    exists "", "". auto.
  - destruct a as [|x a].
    + exists "", (String c s). auto.
    + change (String x a +:+ b) with (String x (a +:+ b)) in H. simpl in H.
      injection H as Hx H. destruct (IH a b H) as (a0 & b0 & -> & <- & <-).
      exists (String c a0), b0. simpl. rewrite Hx. auto.
Qed.

(** Blanking the special characters changes no character of a word. *)
Lemma blankSpecial_word t0 t :
  mapChars blankSpecial t0 = t -> allChars tokenChar t = true -> t0 = t.
Proof.
  revert t. induction t0 as [|c t0 IH]; intros t H Ht; [exact H |].
  destruct t as [|x t]; [discriminate H |]. simpl in H. injection H as Hx H.
  simpl in Ht. apply andb_true_iff in Ht as [Hc Ht]. f_equal; [| apply IH; assumption].
  unfold blankSpecial in Hx. destruct (isWordChar c || isSpace c); [exact Hx |].
  subst x. discriminate Hc.
Qed.

Lemma includes_part a t b : includes (a +:+ t +:+ b) t = true.
Proof.
  apply includes_app_l.
  assert (H : startsWith (t +:+ b) t = true) by (apply startsWith_spec; eauto).
  destruct (t +:+ b); simpl in *; rewrite H; reflexivity.
Qed.

Lemma countMatches_includes term text :
  term <> "" -> includes text term = true -> (1 <= countMatches term text)%nat.
Proof.
  intros Hne. unfold countMatches. induction text as [|c text IH]; intros H.
  - destruct term; [contradiction | discriminate H].
  - rewrite includes_cons in H. cbn [countFrom].
    destruct (startsWith (String c text) term); [lia |]. apply IH, H.
Qed.

Lemma token_included text token :
  In token (tokenize text) -> includes (toLowerCase text) token = true.
Proof.
  intros Hin. destruct (tokenize_chars text token Hin) as [_ Hchars].
  apply dedupe_In in Hin as [Hin _]. unfold words in Hin.
  apply filter_In in Hin as [Hin _].
  apply splitSpaces_part in Hin as (a & b & Hab).
  apply mapChars_app_inv in Hab as (a0 & r0 & -> & _ & Hr).
  apply mapChars_app_inv in Hr as (t0 & b0 & -> & Ht & _).
  rewrite (blankSpecial_word t0 token Ht Hchars). apply includes_part.
Qed.

Lemma token_occurs_count text token :
  In token (tokenize text) -> (1 <= countMatches token (toLowerCase text))%nat.
Proof.
  intros Hin. apply countMatches_includes; [| apply token_included, Hin].
  destruct (tokenize_chars text token Hin) as [Hlen _].
  intros ->. simpl in Hlen. lia.
Qed.

(** X20: A token of a text occurs in the lower-cased text: the document posted
    under a token scores at least one for it. *)
Theorem token_occurs (text token : string) :
  In token (tokenize text) ->
  includes (toLowerCase text) token = true /\
  (1 <= countMatches token (toLowerCase text))%nat.
Proof.
  intros Hin. split; [apply token_included, Hin | apply token_occurs_count, Hin].
Qed.

Lemma token_occurs_witness :
  includes (toLowerCase "A Zebra crossed the road.") "zebra" = true /\
  (1 <= countMatches "zebra" (toLowerCase "A Zebra crossed the road."))%nat.
Proof.
  apply (token_occurs "A Zebra crossed the road." "zebra"). vm_compute. auto.
Defined.

End TokenFacts.

(** ** Searching a sound index *)

Module SearchMoreFacts.
Import Js Browser JsString JsStringFacts Text FrontMatter SearchService SearchSpec IndexSpec.
Import BrowserFacts SearchFacts TokenFacts.

(** What [searchInFiles] returns for a result. *)
Lemma searchInFiles_result s index query results r :
  searchIndex s = Some index ->
  searchInFiles query s = Return results ->
  In r results ->
  res_score r = accumulatedScore index (words query) (res_path r) /\
  exists term doc, In term (words query) /\ In doc (postings index term) /\
                   doc_path doc = res_path r.
Proof.
  intros Hi. unfold searchInFiles. rewrite Hi.
  destruct (words query) as [|t ts] eqn:Hw.
  { intros E. injection E as <-. intros []. }
  rewrite <- Hw. clear Hw.
  destruct (scoreTerms index {| docScores := ∅; termResults := [] |} (words query))
    as [acc|] eqn:Es; [| discriminate].
  intros E. injection E as <-.
  apply scoreTerms_spec in Es as [Hscore Hkeys].
  intros Hr. apply sortByScore_In, list_elem_of_In, list_elem_of_omap in Hr
    as (k & Hk & Hres).
  apply list_elem_of_In, objectKeys_In, hasKey_In in Hk.
  rewrite Hkeys in Hk. cbn [termResults hasKey existsb orb] in Hk.
  apply andb_true_iff in Hk as [Hinh Hm]. apply negb_true_iff in Hinh.
  unfold toResult in Hres. destruct (lookupDoc k (termResults acc)); [| discriminate].
  injection Hres as <-. cbn [res_score res_path]. split.
  - change (scoreOf acc k = accumulatedScore index (words query) k).
    rewrite (Hscore k Hinh). unfold scoreOf. simpl. rewrite lookup_empty. reflexivity.
  - apply matchedBy_spec. exact Hm.
Qed.

Lemma list_sum_In {A} (f : A -> nat) x l : In x l -> (f x <= list_sum (map f l))%nat.
Proof.
  induction l as [|y l IH]; intros []; simpl.
  - subst. lia.
  - specialize (IH H). lia.
Qed.

Lemma scoreIn_In term doc docs :
  In doc docs -> (termScore term doc <= scoreIn term (doc_path doc) docs)%nat.
Proof.
  intros Hin. unfold scoreIn. apply (list_sum_In (termScore term)).
  apply filter_In. split; [exact Hin |]. unfold hasPath. apply String.eqb_refl.
Qed.

(** X21: On a sound index every result is a document of the index, posted
    under a query term that is a word of its body, and so scores at least
    one. *)
Theorem search_results_positive (s : State) (index : Index) (query : string)
    (results : list SearchResult) (r : SearchResult) :
  searchIndex s = Some index -> sound index ->
  searchInFiles query s = Return results ->
  In r results ->
  (1 <= res_score r)%nat /\
  exists term doc,
    In term (words query) /\ In doc (postings index term) /\
    doc_path doc = res_path r /\
    In term (tokenize (doc_content doc)) /\
    (1 <= countMatches term (toLowerCase (doc_content doc)))%nat.
Proof.
  intros Hi Hsound Hs Hr.
  destruct (searchInFiles_result _ _ _ _ _ Hi Hs Hr) as [Hscore (term & doc & Ht & Hd & Hp)].
  assert (Htok : In term (tokenize (doc_content doc))).
  { unfold postings in Hd. destruct (index !! term) as [l|] eqn:El; [| destruct Hd].
    destruct (Hsound term l El) as (_ & _ & _ & Hdocs). apply Hdocs, Hd. }
  pose proof (token_occurs_count (doc_content doc) term Htok) as H3.
  split; [| exists term, doc; auto 6].
  rewrite Hscore, <- Hp.
  pose proof (list_sum_In (fun t => scoreIn t (doc_path doc) (postings index t))
                term (words query) Ht) as H1.
  pose proof (scoreIn_In term doc _ Hd) as H2.
  unfold accumulatedScore. unfold termScore in H2. cbn beta in H1. lia.
Qed.


Lemma sound_twoDocs : sound {["zebra" := [docMention; docTitled]]}.
Proof.
  intros token l H. apply lookup_singleton_Some in H as [<- <-].
  split; [reflexivity | split; [discriminate | split]].
  - repeat constructor; rewrite ?elem_of_cons, ?elem_of_nil; vm_compute; intuition congruence.
  - intros doc [<- | [<- | []]]; vm_compute; auto.
Qed.

Lemma search_results_positive_witness :
  (1 <= 4)%nat /\
  exists term doc,
    In term (words "Zebra") /\
    In doc (postings {["zebra" := [docMention; docTitled]]} term) /\
    doc_path doc = "zebra.md" /\
    In term (tokenize (doc_content doc)) /\
    (1 <= countMatches term (toLowerCase (doc_content doc)))%nat.
Proof.
  apply (search_results_positive twoDocs {["zebra" := [docMention; docTitled]]} "Zebra"
           [{| res_path := "zebra.md"; res_title := "Zebra";
               res_excerpt := "The <mark>zebra</mark> is an African equine....";
               res_score := 4 |};
            {| res_path := "road.md"; res_title := "Road";
               res_excerpt := "A <mark>zebra</mark> crossed the road....";
               res_score := 1 |}]
           {| res_path := "zebra.md"; res_title := "Zebra";
              res_excerpt := "The <mark>zebra</mark> is an African equine....";
              res_score := 4 |}).
  - reflexivity.
  - apply sound_twoDocs.
  - vm_compute. reflexivity.
  - left. reflexivity.
Defined.

(** The loops of [searchInFiles] fail with a [TypeError] only. *)
Lemma scoreDocs_throws term docs : forall acc e,
  scoreDocs term acc docs = Throw e -> exists what, e = TypeError what.
Proof.
  induction docs as [|doc docs IH]; intros acc e H; simpl in H; [discriminate |].
  destruct (scoreDoc term acc doc) as [acc'|e'] eqn:E.
  - eapply IH, H.
  - injection H as <-. unfold scoreDoc in E.
    destruct (doc_title doc); [| injection E as <-; eauto].
    destruct (inheritedKey (doc_path doc)); discriminate E.
Qed.

Lemma matchesOf_throws index term e :
  matchesOf index term = Throw e -> exists what, e = TypeError what.
Proof.
  unfold matchesOf. destruct (index !! term); [discriminate |].
  destruct (inheritedKey term); [| discriminate]. intros H. injection H as <-. eauto.
Qed.

Lemma scoreTerms_inherited index term terms : forall acc,
  In term terms -> index !! term = None -> inheritedKey term = true ->
  exists what, scoreTerms index acc terms = Throw (TypeError what).
Proof.
  induction terms as [|t terms IH]; intros acc Hin Hnone Hinh; [destruct Hin |].
  simpl. destruct (matchesOf index t) as [matches|e] eqn:Em.
  - destruct (scoreDocs t acc matches) as [acc'|e] eqn:Ed.
    + destruct Hin as [-> | Hin]; [| apply IH; assumption].
      unfold matchesOf in Em. rewrite Hnone, Hinh in Em. discriminate Em.
    + apply scoreDocs_throws in Ed as [what ->]. eauto.
  - apply matchesOf_throws in Em as [what ->]. eauto.
Qed.

(** The words of a query that are inherited property names: the names
    in lower case and underscores. *)
Lemma inherited_word query term :
  In term (words query) -> inheritedKey term = true ->
  term = "constructor" \/ term = "__proto__".
Proof.
  intros Hin Hinh. apply words_chars in Hin as [_ Hchars].
  unfold inheritedKey in Hinh. cbn [existsb] in Hinh.
  repeat match goal with
         | H : _ || _ = true |- _ => apply orb_true_iff in H as [H | H]
         end;
    try discriminate Hinh;
    apply String.eqb_eq in Hinh; subst term;
    first [ left; reflexivity | right; reflexivity | vm_compute in Hchars; discriminate Hchars ].
Qed.

(** X22: On a sound index, a query with a word that is an inherited property
    name fails with a [TypeError] instead of returning results. The query
    being lower-cased, such a word is [constructor] or [__proto__]; names
    with a capital, as [toString], are not met. *)
Theorem search_inherited_term_throws (s : State) (index : Index) (query term : string) :
  searchIndex s = Some index -> sound index ->
  In term (words query) -> inheritedKey term = true ->
  (term = "constructor" \/ term = "__proto__") /\
  exists what, searchInFiles query s = Throw (TypeError what).
Proof.
  intros Hi Hsound Hin Hinh. split; [eapply inherited_word; eassumption |].
  unfold searchInFiles. rewrite Hi.
  assert (Hnone : index !! term = None).
  { destruct (index !! term) as [l|] eqn:El; [| reflexivity].
    destruct (Hsound term l El) as [Hk _]. congruence. }
  destruct (scoreTerms_inherited index term (words query)
              {| docScores := ∅; termResults := [] |} Hin Hnone Hinh) as [what E].
  rewrite E. destruct (words query); [destruct Hin |]. eauto.
Qed.

Lemma search_inherited_term_throws_witness :
  ("constructor" = "constructor" \/ "constructor" = "__proto__") /\
  exists what, searchInFiles "The Constructor" twoDocs = Throw (TypeError what).
Proof.
  apply (search_inherited_term_throws twoDocs {["zebra" := [docMention; docTitled]]}
           "The Constructor" "constructor").
  - reflexivity.
  - apply sound_twoDocs.
  - vm_compute. auto.
  - reflexivity.
Defined.

End SearchMoreFacts.

(** ** The list of results *)

Module ResultFacts.
Import Js Browser JsString JsStringFacts Text FrontMatter SearchService SearchSpec IndexSpec.
Import BrowserFacts SearchFacts.

Lemma insertByScore_perm r l : Permutation (insertByScore r l) (r :: l).
Proof.
  induction l as [|y l IH]; simpl; [reflexivity |].
  destruct (Nat.ltb (res_score r) (res_score y)); [| reflexivity].
  rewrite IH. apply perm_swap.
Qed.

Lemma sortByScore_perm l : Permutation (sortByScore l) l.
Proof.
  induction l as [|y l IH]; simpl; [reflexivity |].
  rewrite insertByScore_perm, IH. reflexivity.
Qed.

Lemma insertByScore_stable n r l :
  List.filter (fun x => Nat.eqb (res_score x) n) (insertByScore r l)
  = List.filter (fun x => Nat.eqb (res_score x) n) (r :: l).
Proof.
  induction l as [|y l IH]; [reflexivity |].
  cbn [insertByScore]. destruct (Nat.ltb (res_score r) (res_score y)) eqn:E; [| reflexivity].
  apply Nat.ltb_lt in E. cbn [List.filter] in *. rewrite IH.
  destruct (Nat.eqb (res_score r) n) eqn:Er; [| reflexivity].
  destruct (Nat.eqb (res_score y) n) eqn:Ey; [| reflexivity].
  apply Nat.eqb_eq in Er, Ey. lia.
Qed.

(** X23: The sort of the results is a stable sort by descending score: the
    same results, the higher score first, and results of equal score in
    the order they had. *)
Theorem sortByScore_stable (l : list SearchResult) :
  Permutation (sortByScore l) l /\
  StronglySorted descending (sortByScore l) /\
  forall n, List.filter (fun x => Nat.eqb (res_score x) n) (sortByScore l)
            = List.filter (fun x => Nat.eqb (res_score x) n) l.
Proof.
  split; [apply sortByScore_perm | split; [apply sortByScore_sorted |]].
  intros n. induction l as [|y l IH]; [reflexivity |].
  cbn [sortByScore fold_right]. fold (sortByScore l).
  rewrite insertByScore_stable. cbn [List.filter]. rewrite IH. reflexivity.
Qed.

(** *** No path twice *)

Lemma scoreDoc_keys term acc doc acc' :
  scoreDoc term acc doc = Return acc' ->
  NoDup (map fst (termResults acc)) -> NoDup (map fst (termResults acc')).
Proof.
  unfold scoreDoc. destruct (doc_title doc); [| discriminate].
  destruct (inheritedKey (doc_path doc)); intros E Hnd; injection E as <-; [exact Hnd |].
  cbn [termResults]. destruct (hasKey (doc_path doc) (termResults acc)) eqn:Ek; [exact Hnd |].
  rewrite map_app. apply NoDup_app. split; [exact Hnd | split; [| apply NoDup_singleton]].
  intros p Hp Hp'. apply list_elem_of_In in Hp, Hp'. destruct Hp' as [<- | []].
  apply hasKey_In in Hp. cbn [fst] in Hp. congruence.
Qed.

Lemma scoreDocs_keys term docs : forall acc acc',
  scoreDocs term acc docs = Return acc' ->
  NoDup (map fst (termResults acc)) -> NoDup (map fst (termResults acc')).
Proof.
  induction docs as [|doc docs IH]; intros acc acc' H Hnd; simpl in H.
  - injection H as <-. exact Hnd.
  - destruct (scoreDoc term acc doc) as [acc1|] eqn:E; [| discriminate].
    eapply IH; [exact H |]. eapply scoreDoc_keys; eassumption.
Qed.

Lemma scoreTerms_keys index terms : forall acc acc',
  scoreTerms index acc terms = Return acc' ->
  NoDup (map fst (termResults acc)) -> NoDup (map fst (termResults acc')).
Proof.
  induction terms as [|t terms IH]; intros acc acc' H Hnd; simpl in H.
  - injection H as <-. exact Hnd.
  - destruct (matchesOf index t) as [matches|]; [| discriminate].
    destruct (scoreDocs t acc matches) as [acc1|] eqn:E; [| discriminate].
    eapply IH; [exact H |]. eapply scoreDocs_keys; eassumption.
Qed.

Lemma insertIndex_perm n k l : Permutation (insertIndex n k l) ((n, k) :: l).
Proof.
  induction l as [|[m k'] l IH]; simpl; [reflexivity |].
  destruct (n <? m)%N; [reflexivity |]. rewrite IH. apply perm_swap.
Qed.

(** [Object.keys] lists every key once. *)
Lemma objectKeys_perm l : Permutation (objectKeys l) (map fst l).
Proof.
  unfold objectKeys. induction (map fst l) as [|k keys IH]; [reflexivity |].
  cbn [fold_right List.filter]. destruct (arrayIndex k) as [n|].
  - rewrite insertIndex_perm. cbn [map snd app]. constructor. exact IH.
  - rewrite <- Permutation_middle. constructor. exact IH.
Qed.

Lemma omap_cons {A B} (f : A -> option B) k ks :
  omap f (k :: ks) = match f k with Some y => y :: omap f ks | None => omap f ks end.
Proof. reflexivity. Qed.

Lemma toResult_path terms acc k r : toResult terms acc k = Some r -> res_path r = k.
Proof.
  unfold toResult. destruct (lookupDoc k (termResults acc)); [| discriminate].
  intros E. injection E as <-. reflexivity.
Qed.

Lemma toResult_paths terms acc keys :
  NoDup keys -> NoDup (map res_path (omap (toResult terms acc) keys)).
Proof.
  assert (Hin : forall ks p, In p (map res_path (omap (toResult terms acc) ks)) -> In p ks).
  { induction ks as [|k ks IH]; intros p Hp; [destruct Hp |].
    rewrite omap_cons in Hp. destruct (toResult terms acc k) as [r|] eqn:E.
    - apply toResult_path in E. destruct Hp as [<- | Hp]; [left; auto | right; apply IH, Hp].
    - right. apply IH, Hp. }
  induction 1 as [|k ks Hk Hnd IH]; [constructor |].
  rewrite omap_cons. destruct (toResult terms acc k) as [r|] eqn:E; [| exact IH].
  apply toResult_path in E. cbn [map]. rewrite E. constructor; [| exact IH].
  intros Hp. apply Hk. apply list_elem_of_In, Hin, list_elem_of_In, Hp.
Qed.

(** X24: No document is returned twice: the results have distinct paths. *)
Theorem search_results_distinct (s : State) (query : string) (results : list SearchResult) :
  searchInFiles query s = Return results -> NoDup (map res_path results).
Proof.
  unfold searchInFiles. destruct (searchIndex s) as [index|];
    [| intros E; injection E as <-; constructor].
  destruct (words query) as [|t ts] eqn:Hw; [intros E; injection E as <-; constructor |].
  destruct (scoreTerms index {| docScores := ∅; termResults := [] |} (t :: ts))
    as [acc|] eqn:Es; [| discriminate].
  intros E. injection E as <-.
  apply scoreTerms_keys in Es; [| constructor].
  apply NoDup_ListNoDup.
  eapply Permutation_NoDup; [symmetry; apply Permutation_map, sortByScore_perm |].
  apply NoDup_ListNoDup, toResult_paths, NoDup_ListNoDup.
  eapply Permutation_NoDup; [symmetry; apply objectKeys_perm |].
  apply NoDup_ListNoDup, Es.
Qed.

Lemma search_results_distinct_witness :
  NoDup (map res_path
           [{| res_path := "zebra.md"; res_title := "Zebra";
               res_excerpt := "The <mark>zebra</mark> is an African equine....";
               res_score := 4 |};
            {| res_path := "road.md"; res_title := "Road";
               res_excerpt := "A <mark>zebra</mark> crossed the road....";
               res_score := 1 |}]).
Proof.
  apply (search_results_distinct twoDocs "Zebra"). vm_compute. reflexivity.
Defined.

Lemma countFrom_bound term : term <> "" -> forall str skip,
  (countFrom term skip str * String.length term <= String.length str - skip)%nat.
Proof.
  intros Hne.
  assert (Hlen : forall s, startsWith s term = true ->
                   (String.length term <= String.length s)%nat).
  { intros s H. apply startsWith_spec in H as [r ->].
    clear. induction term as [|c t IH]; simpl; lia. }
  assert (Hpos : (1 <= String.length term)%nat)
    by (destruct term; [contradiction | simpl; lia]).
  intros str. induction str as [|c text IH]; intros skip; [simpl; lia |].
  cbn [countFrom]. destruct skip as [|k].
  - destruct (startsWith (String c text) term) eqn:E.
    + apply Hlen in E. specialize (IH (String.length term - 1)%nat).
      cbn [String.length] in *. lia.
    + specialize (IH O). cbn [String.length]. lia.
  - specialize (IH k). cbn [String.length]. lia.
Qed.

(** X25: Matches do not overlap: the occurrences counted for a term fit in the
    text one after the other. *)
Theorem countMatches_bound (term text : string) :
  term <> "" ->
  (countMatches term text * String.length term <= String.length text)%nat.
Proof.
  intros Hne. pose proof (countFrom_bound term Hne text O). unfold countMatches. lia.
Qed.

Lemma countMatches_bound_witness :
  (countMatches "aa" "aaaaa" * String.length "aa" <= String.length "aaaaa")%nat.
Proof.
  apply (countMatches_bound "aa" "aaaaa"). discriminate.
Defined.

End ResultFacts.

(** ** A file is marked once its tokens are posted *)

Module IndexFileFacts.
Import Js Browser JsString JsStringFacts Text FrontMatter SearchService SearchSpec IndexSpec.
Import BrowserFacts SearchFacts.





End IndexFileFacts.

(** ** Titles and queries *)

Module TitleFacts.
Import Js JsString JsStringFacts Text FrontMatter SearchService SearchSpec IndexSpec ExtraSpec.
Import FrontMatterFacts FrontMatterMoreFacts.

Lemma filter_first {A} (f : A -> bool) l x rest :
  List.filter f l = x :: rest ->
  exists before after,
    l = before ++ x :: after /\ f x = true /\ List.forallb (fun y => negb (f y)) before = true.
Proof.
  induction l as [|y l IH]; simpl; [discriminate |].
  destruct (f y) eqn:E.
  - intros H. injection H as <- _. exists [], l. auto.
  - intros H. destruct (IH H) as (before & after & -> & Hx & Hb).
    exists (y :: before), after. simpl. rewrite E. auto.
Qed.

(** X27: With a heading in the text, the title is the text of the first line
    that is [# ] followed by at least one character, whatever the path. *)
Theorem getFileTitle_first_heading (path body title : string) :
  firstHeading body = Some title ->
  getFileTitle path body = title /\ title <> "" /\
  exists before after,
    lines body = before ++ ("# " +:+ title) :: after /\
    List.forallb (fun line => negb (startsWith line "# " && Nat.ltb 2 (String.length line)))
                 before = true.
Proof.
  intros H. unfold getFileTitle. rewrite H. split; [reflexivity |].
  unfold firstHeading in H.
  destruct (List.filter _ (lines body)) as [|line rest] eqn:E; [discriminate |].
  injection H as <-. apply filter_first in E as (before & after & Hl & Hx & Hb).
  apply andb_true_iff in Hx as [Hs Hlen]. apply Nat.ltb_lt in Hlen.
  split.
  - destruct line as [|a [|b [|c line]]]; simpl in Hlen; try lia. discriminate.
  - exists before, after. split; [| exact Hb].
    rewrite Hl. do 2 f_equal. exact (startsWith_drop line "# " Hs).
Qed.

Lemma getFileTitle_first_heading_witness :
  getFileTitle "docs/setup.md" ("intro" +:+ nl +:+ "# Setup" +:+ nl +:+ "# Other") = "Setup" /\
  "Setup" <> "" /\
  exists before after,
    lines ("intro" +:+ nl +:+ "# Setup" +:+ nl +:+ "# Other")
    = before ++ ("# " +:+ "Setup") :: after /\
    List.forallb (fun line => negb (startsWith line "# " && Nat.ltb 2 (String.length line)))
                 before = true.
Proof.
  apply (getFileTitle_first_heading "docs/setup.md"
           ("intro" +:+ nl +:+ "# Setup" +:+ nl +:+ "# Other") "Setup").
  reflexivity.
Defined.

Lemma last_app_nonempty {A} (front l : list A) d :
  l <> [] -> List.last (front ++ l) d = List.last l d.
Proof.
  intros Hne. induction front as [|x front IH]; [reflexivity |].
  cbn [app]. destruct (front ++ l) eqn:E; [| exact IH].
  apply app_eq_nil in E as [_ ->]. contradiction.
Qed.

(** The pieces after a separator are those of the text that follows it. *)
Lemma splitChar_after sep a c b :
  sep c = true ->
  exists front, front <> [] /\ splitChar sep (a +:+ String c b) = front ++ splitChar sep b.
Proof.
  intros Hc. induction a as [|x a (front & Hne & IH)].
  - exists [""]. split; [discriminate |]. simpl. rewrite Hc. reflexivity.
  - change (String x a +:+ String c b) with (String x (a +:+ String c b)).
    cbn [splitChar]. rewrite IH. destruct (sep x).
    + exists ("" :: front). split; [discriminate | reflexivity].
    + destruct front as [|p front]; [contradiction |].
      exists (String x p :: front). split; [discriminate | reflexivity].
Qed.

(** X28: Without a heading, the title is made from the file name alone: the
    directories of the path do not matter. *)
Theorem getFileTitle_file_name (dir name body : string) :
  firstHeading body = None ->
  getFileTitle (dir +:+ "/" +:+ name) body = getFileTitle name body.
Proof.
  intros H. unfold getFileTitle. rewrite H. cbv zeta. do 3 f_equal.
  change ("/" +:+ name) with (String "/" name).
  destruct (splitChar_after isSlash dir "/" name eq_refl) as (front & _ & ->).
  apply last_app_nonempty, splitChar_nonempty.
Qed.

Lemma getFileTitle_file_name_witness :
  getFileTitle ("guides/setup" +:+ "/" +:+ "getting-started.md") "Welcome."
  = getFileTitle "getting-started.md" "Welcome.".
Proof.
  apply (getFileTitle_file_name "guides/setup" "getting-started.md" "Welcome.").
  reflexivity.
Defined.

Lemma toLowerChar_idem c : toLowerChar (toLowerChar c) = toLowerChar c.
Proof. destruct c as [[] [] [] [] [] [] [] []]; vm_compute; reflexivity. Qed.

Lemma toLowerCase_idem s : toLowerCase (toLowerCase s) = toLowerCase s.
Proof.
  unfold toLowerCase. induction s as [|c s IH]; simpl; [reflexivity |].
  rewrite toLowerChar_idem, IH. reflexivity.
Qed.

(** X29: Searching ignores the case of the query. *)
Theorem search_ignores_case (query : string) (s : State) :
  searchInFiles (toLowerCase query) s = searchInFiles query s.
Proof.
  unfold searchInFiles, words. rewrite toLowerCase_idem. reflexivity.
Qed.

End TitleFacts.
